(** * MangaPDF: image normalisation, thumbnails and PDF assembly

    A shallow embedding of [core/image_processor.py] (class [ImageProcessor])
    and [core/pdf_generator.py] (class [PDFGenerator]), together with the
    properties of the thumbnail geometry, the colour normalisation, the
    compression step and the PDF job that the specification states.

    Python integers are [Z].  Python floats are IEEE-754 binary64 values,
    modelled in [PyFloat] by exact dyadic numbers and correct rounding.
    Pillow and img2pdf are third-party libraries: what the program needs of
    them is collected in the interfaces [Pillow] and [Img2pdf].

    The second part covers [utils/helpers.py] (the sort key, the test for
    image files, the cleaning of file names) and the state that
    [ui/main_window.py] keeps: the progress bar, the grid of cards, the
    sequences, the tail page, the batch of all sequences and the adding of
    images. *)

From Stdlib Require Import ZArith Lia Bool String Ascii List.
From Stdlib Require Import Strings.Byte.
From Stdlib Require Import Floats.SpecFloat.
From stdpp Require Import base option list gmap strings pretty.

Local Open Scope Z_scope.

(* ===================================================================== *)
(** ** Python floats *)
(* ===================================================================== *)

Module PyFloat.

(** A finite binary64 value is [mant * 2 ^ expo].  Exponents of either sign
    are handled through the two multipliers [up] and [dn], one of which is
    always 1: [2 ^ s = up s / dn s]. *)
Record float := Float { mant : Z; expo : Z }.

Definition up (s : Z) : Z := 2 ^ Z.max 0 s.
Definition dn (s : Z) : Z := 2 ^ Z.max 0 (- s).

(** The value of a float as a fraction [num / den]. *)
Definition num (f : float) : Z := mant f * up (expo f).
Definition den (f : float) : Z := dn (expo f).

(** Nearest integer to [n / d], ties to the even one. *)
Definition round_half_even (n d : Z) : Z :=
  let q := n / d in
  let r := n mod d in
  if 2 * r <? d then q
  else if d <? 2 * r then q + 1
  else if Z.even q then q else q + 1.

(** [binade n d] is the integer [b] with [2 ^ b <= n / d < 2 ^ (b + 1)]. *)
Definition binade (n d : Z) : Z :=
  let a := Z.log2 n in
  let c := Z.log2 d in
  if n * 2 ^ c <? d * 2 ^ a then a - c - 1 else a - c.

(** The rounded result is not finite: it is at least [2 ^ 1024]. *)
Definition overflows (m e : Z) : bool :=
  (971 <? e) || ((e =? 971) && (2 ^ 53 <=? m)).

(** Correct rounding of the positive rational [n / d] to binary64: 53 bits of
    precision, round to nearest even, gradual underflow below [2 ^ -1022].
    [None] when the result overflows. *)
Definition round_pos (n d : Z) : option float :=
  let e := Z.max (binade n d - 52) (-1074) in
  let m := round_half_even (n * dn e) (d * up e) in
  if overflows m e then None else Some (Float m e).

Definition fneg (f : float) : float := Float (- mant f) (expo f).

(** Correct rounding of any rational [n / d] with [0 < d]. *)
Definition round_q (n d : Z) : option float :=
  if n =? 0 then Some (Float 0 0)
  else if n <? 0 then fneg <$> round_pos (- n) d
  else round_pos n d.

(** [float(n)]: raises [OverflowError] ([None]) when [n] is too large. *)
Definition of_int (n : Z) : option float := round_q n 1.

(** [a / b] on two Python integers: the correctly rounded quotient;
    [ZeroDivisionError] and [OverflowError] are [None]. *)
Definition truediv (a b : Z) : option float :=
  if b =? 0 then None else round_q (a * Z.sgn b) (Z.abs b).

(** [x * y] on two floats; [None] stands for an infinite product. *)
Definition mul (x y : float) : option float :=
  round_q (num x * num y) (den x * den y).

(** [x / y] on two floats. *)
Definition div (x y : float) : option float :=
  if mant y =? 0 then None
  else round_q (num x * den y * Z.sgn (mant y)) (den x * Z.abs (num y)).

(** [n * y] with [n] a Python integer: [n] is converted first. *)
Definition imul (n : Z) (y : float) : option float :=
  h ← of_int n; mul h y.

(** A decimal literal [n / d], such as [1.6 = 16 / 10]. *)
Definition literal (n d : Z) : option float := round_q n d.

(** [int(f)]: truncation toward zero. *)
Definition to_int (f : float) : Z := Z.quot (num f) (den f).

(** The same value in the representation of the standard library's
    reference implementation of IEEE-754 arithmetic. *)
Definition to_spec (f : float) : spec_float :=
  let g := if Z.abs (mant f) =? 2 ^ 53
           then Float (mant f / 2) (expo f + 1) else f in
  match mant g with
  | Z0 => S754_zero false
  | Zpos p => S754_finite false p (expo g)
  | Zneg p => S754_finite true p (expo g)
  end.

Definition b64_of_int (n : Z) : spec_float := binary_normalize 53 1024 n 0 false.
Definition b64_mul : spec_float -> spec_float -> spec_float := SFmul 53 1024.
Definition b64_div : spec_float -> spec_float -> spec_float := SFdiv 53 1024.

Definition spec_eqb (x y : spec_float) : bool :=
  match x, y with
  | S754_zero s, S754_zero s' => Bool.eqb s s'
  | S754_finite s m e, S754_finite s' m' e' =>
      Bool.eqb s s' && Pos.eqb m m' && Z.eqb e e'
  | _, _ => false
  end.

(** [a / b], and [n * (a / b)], computed here and by the reference
    implementation. *)
Definition div_agrees (a b : Z) : bool :=
  match truediv a b with
  | Some f => spec_eqb (to_spec f) (b64_div (b64_of_int a) (b64_of_int b))
  | None => false
  end.

Definition scale_agrees (n a b : Z) : bool :=
  match s ← truediv a b; imul n s with
  | Some f =>
      spec_eqb (to_spec f)
        (b64_mul (b64_of_int n) (b64_div (b64_of_int a) (b64_of_int b)))
  | None => false
  end.

(** The integers from 1 to [n]. *)
Definition upto (n : nat) : list Z := map Z.of_nat (seq 1 n).

(** The literal [1.6] of [create_thumbnail]. *)
Definition f1_6 : float := Float 7205759403792794 (-52).

End PyFloat.

(* ===================================================================== *)
(** ** Pillow *)
(* ===================================================================== *)

Module PIL.

(** One pixel: the values of its bands, each in [0, 255]. *)
Definition pixel := list Z.

(** A decoded image: [img.mode], [img.size] as (width, height), the pixel at
    column [x] and row [y], and for mode [P] the palette with its
    transparency, each entry being [r; g; b; a]. *)
Record image := Image {
  im_mode : string;
  im_size : Z * Z;
  im_pixel : Z -> Z -> pixel;
  im_palette : Z -> pixel
}.

Definition width (img : image) : Z := fst (im_size img).
Definition height (img : image) : Z := snd (im_size img).

(** The parts of Pillow that are taken as given: the Lanczos filter, the
    colour transforms between modes, and the JPEG codec. *)
Class Pillow := {
  (** the pixel at [x], [y] of [img] resampled to [w] by [h] *)
  lanczos : image -> Z -> Z -> Z -> Z -> pixel;
  (** [convert_pixel src dst p]: a pixel of mode [src] in mode [dst] *)
  convert_pixel : string -> string -> pixel -> pixel;
  (** [img.save(buffer, format='JPEG', quality=q, optimize=True)]; [None]
      when the encoder raises *)
  jpeg_save : image -> Z -> option (list byte);
  (** the size of the image that [Image.open] decodes from a buffer *)
  jpeg_size : list byte -> option (Z * Z)
}.

(** libjpeg's largest dimension. *)
Definition JPEG_MAX_DIMENSION : Z := 65500.

Definition encodable (img : image) : Prop :=
  im_mode img = "RGB" /\
  1 <= width img <= JPEG_MAX_DIMENSION /\
  1 <= height img <= JPEG_MAX_DIMENSION.

(** What the program relies on: an RGB image of a size JPEG can hold is
    encoded; an encoded buffer is not empty and decodes to the same size. *)
Record pillow_ok (P : Pillow) : Prop := {
  jpeg_save_encodable :
    forall img q, encodable img -> is_Some (jpeg_save img q);
  jpeg_save_size :
    forall img q b, jpeg_save img q = Some b ->
                    b <> [] /\ jpeg_size b = Some (im_size img)
}.

(** The sizes of a decoded image: positive C integers. *)
Definition decoded_size (img : image) : Prop :=
  1 <= width img < 2 ^ 31 /\ 1 <= height img < 2 ^ 31.

(** Files: an image file decodes to an image; any other content does not. *)
Inductive file (pdf : Type) :=
  | ImageFile (img : image)
  | OtherFile (data : list byte)
  | PdfFile (doc : pdf).
Arguments ImageFile {pdf} img.
Arguments OtherFile {pdf} data.
Arguments PdfFile {pdf} doc.

(** [Image.open(filepath)]: [None] when it raises. *)
Definition open {pdf} (fs : gmap string (file pdf)) (filepath : string)
  : option image :=
  match fs !! filepath with
  | Some (ImageFile img) => Some img
  | _ => None
  end.

(** [Image.new(mode, size, color)]. *)
Definition new (mode : string) (size : Z * Z) (color : pixel) : image :=
  Image mode size (fun _ _ => color) (fun _ => []).

(** [c in s] for a one-character string [c]. *)
Fixpoint contains (c : ascii) (s : string) : bool :=
  match s with
  | EmptyString => false
  | String a rest => Ascii.eqb a c || contains c rest
  end.

Definition mode_in (img : image) (modes : list string) : bool :=
  existsb (String.eqb (im_mode img)) modes.

Section Operations.
Context `{P : Pillow}.

(** [img.convert(mode)]: the same mode gives a copy; a palette image is
    looked up in its palette; any other one is transformed pixel by pixel. *)
Definition convert (img : image) (mode : string) : image :=
  if String.eqb (im_mode img) mode then img
  else
    Image mode (im_size img)
      (fun x y =>
         if String.eqb (im_mode img) "P" then
           let entry := im_palette img (hd 0 (im_pixel img x y)) in
           if String.eqb mode "RGBA" then entry
           else convert_pixel "RGBA" mode entry
         else convert_pixel (im_mode img) mode (im_pixel img x y))
      (im_palette img).

(** [img.split()[-1]]: the last band, as an image of mode [L]. *)
Definition last_band (img : image) : image :=
  Image "L" (im_size img)
    (fun x y => [List.last (im_pixel img x y) 0]) (im_palette img).

(** Pillow's blend of two 8-bit values under an 8-bit mask. *)
Definition MULDIV255 (a b : Z) : Z :=
  let tmp := a * b + 128 in
  Z.shiftr (Z.shiftr tmp 8 + tmp) 8.

Definition BLEND8 (mask in1 in2 : Z) : Z :=
  MULDIV255 in1 (255 - mask) + MULDIV255 in2 mask.

(** The three colour bytes Pillow stores for a pixel: [LA] is kept as
    [l; l; l; a]. *)
Definition stored_rgb (mode : string) (p : pixel) : pixel :=
  if String.eqb mode "LA" || String.eqb mode "L"
  then let l := hd 0 p in [l; l; l]
  else firstn 3 p.

(** [background.paste(img, mask=mask)] at the origin, both of one size;
    without a mask the source replaces the background. *)
Definition paste (background img : image) (mask : option image) : image :=
  Image (im_mode background) (im_size background)
    (fun x y =>
       let src := stored_rgb (im_mode img) (im_pixel img x y) in
       match mask with
       | None => src
       | Some m =>
           let a := hd 0 (im_pixel m x y) in
           zip_with (BLEND8 a) (im_pixel background x y) src
       end)
    (im_palette background).

(** [img.resize(size, Image.Resampling.LANCZOS)]: the same size gives a
    copy; a size below 1 raises [ValueError]. *)
Definition resize (img : image) (size : Z * Z) : option image :=
  if decide (im_size img = size) then Some img
  else if (fst size <? 1) || (snd size <? 1) then None
  else Some (Image (im_mode img) size
               (lanczos img (fst size) (snd size)) (im_palette img)).

(** [img.crop((x0, y0, x1, y1))], the box being (left, upper, right, lower):
    pixels outside the source are zero; an inverted box raises [ValueError]. *)
Definition crop (img : image) (box : Z * Z * Z * Z) : option image :=
  let '(x0, y0, x1, y1) := box in
  if (x1 <? x0) || (y1 <? y0) then None
  else Some (Image (im_mode img) (x1 - x0, y1 - y0)
               (fun x y =>
                  let sx := x + x0 in
                  let sy := y + y0 in
                  if (0 <=? sx) && (sx <? width img)
                     && (0 <=? sy) && (sy <? height img)
                  then im_pixel img sx sy
                  else map (fun _ => 0) (im_pixel img 0 0))
               (im_palette img)).

End Operations.
End PIL.

(* ===================================================================== *)
(** ** core/image_processor.py *)
(* ===================================================================== *)

Module ImageProcessor.
Import PyFloat PIL.

Section WithPillow.
Context `{P : Pillow} {pdf : Type}.

(** The colour normalisation that [load_image] (lines 18-25),
    [create_thumbnail] (lines 73-80) and [compress_image] (lines 95-102)
    each spell out: transparent and palette images are pasted on a white
    background through their alpha band, any other mode but RGB is
    converted. *)
Definition to_rgb (img : image) : image :=
  if mode_in img ["RGBA"; "P"; "LA"]%string then
    let background := new "RGB" (im_size img) [255; 255; 255] in
    let img := if String.eqb (im_mode img) "P"
               then convert img "RGBA" else img in
    paste background img
      (if contains "A" (im_mode img) then Some (last_band img) else None)
  else if negb (String.eqb (im_mode img) "RGB") then convert img "RGB"
  else img.

(** The image whose alpha band masks the paste: line 21 replaces a palette
    image by its RGBA conversion. *)
Definition pasted (img : image) : image :=
  if String.eqb (im_mode img) "P" then convert img "RGBA" else img.

(** [ImageProcessor.load_image]. *)
Definition load_image (fs : gmap string (file pdf)) (filepath : string)
  : option image :=
  img ← open fs filepath; Some (to_rgb img).

(** [ImageProcessor.get_image_dimensions]. *)
Definition get_image_dimensions (fs : gmap string (file pdf))
    (filepath : string) : Z * Z :=
  match open fs filepath with
  | Some img => im_size img
  | None => (0, 0)
  end.

(** Lines 55-56: [scale = target_w / orig_w; target_h = int(orig_h * scale)]. *)
Definition scaled_height (target_w orig_w orig_h : Z) : option Z :=
  scale ← truediv target_w orig_w;
  to_int <$> imul orig_h scale.

(** Line 60: [max_h = int(target_w * 1.6)]. *)
Definition height_cap (target_w : Z) : option Z :=
  to_int <$> imul target_w f1_6.

(** Lines 49-80 of [create_thumbnail]: the image that is encoded. *)
Definition thumbnail_image (img : image) (max_width : Z) : option image :=
  let '(orig_w, orig_h) := im_size img in
  let target_w := max_width in
  target_h ← scaled_height target_w orig_w orig_h;
  max_h ← height_cap target_w;
  img ← (if max_h <? target_h then
           img ← resize img (target_w, target_h);
           crop img (0, 0, target_w, max_h)
         else resize img (target_w, target_h));
  Some (to_rgb img).

(** [ImageProcessor.create_thumbnail]: [None] on any exception. *)
Definition create_thumbnail (fs : gmap string (file pdf))
    (filepath : string) (max_width : Z) : option (list byte) :=
  img ← open fs filepath;
  img ← thumbnail_image img max_width;
  jpeg_save img 90.

(** [ImageProcessor.compress_image]: the empty buffer on any exception. *)
Definition compress_image (fs : gmap string (file pdf))
    (filepath : string) (quality : Z) : list byte :=
  default [] (img ← open fs filepath; jpeg_save (to_rgb img) quality).

End WithPillow.
End ImageProcessor.

(* ===================================================================== *)
(** ** img2pdf *)
(* ===================================================================== *)

(** A Python call either returns or raises with a message. *)
Inductive result (A : Type) :=
  | Ok (a : A)
  | Raise (msg : string).
Arguments Ok {A} a.
Arguments Raise {A} msg.

Definition rbind {A B} (m : result A) (k : A -> result B) : result B :=
  match m with
  | Ok a => k a
  | Raise e => Raise e
  end.

Notation "x <-! m ; k" := (rbind m (fun x => k))
  (at level 100, m at next level, right associativity).

Module img2pdf.
Import PyFloat.

(** A Python number: an [int] or a [float]. *)
Inductive number :=
  | int (n : Z)
  | flt (f : float).

(** A float result that may be infinite ([None]). *)
Definition xfloat := option float.

(** The conversion that arithmetic applies to an operand. *)
Definition to_float (x : number) : result float :=
  match x with
  | int n =>
      match of_int n with
      | Some f => Ok f
      | None => Raise "int too large to convert to float"
      end
  | flt f => Ok f
  end.

(** [x * c] for a float literal [c]. *)
Definition nmul (x : number) (c : float) : result xfloat :=
  f <-! to_float x; Ok (mul f c).

Definition f72 : float := Eval vm_compute in default (Float 0 0) (literal 72 1).
Definition f25_4 : float := Eval vm_compute in default (Float 0 0) (literal 254 10).

(** [img2pdf.mm_to_pt(length)], which is [(72.0 * length) / 25.4]. *)
Definition mm_to_pt (length : number) : result xfloat :=
  f <-! to_float length; Ok (p ← mul f72 f; div p f25_4).

Inductive FitMode := into | fill | exact | shrink | enlarge.

(** [img2pdf.get_layout_fun(pagesize, fit=, border=)]: the layout function
    is determined by the arguments it closes over. *)
Record layout_fun := get_layout_fun {
  pagesize : option (xfloat * xfloat);
  fit : option FitMode;
  border : option (xfloat * xfloat * xfloat * xfloat)
}.

(** [img2pdf.convert(images, layout_fun=)] and a reader of the pages of its
    result: the image stream of each page, in page order. *)
Class Img2pdf (pdf : Type) := {
  convert : list (list byte) -> layout_fun -> result pdf;
  pdf_images : pdf -> list (list byte)
}.

(** img2pdf puts each input image on a page of its own, in input order. *)
Definition img2pdf_ok {pdf} (I : Img2pdf pdf) : Prop :=
  forall images layout doc,
    convert images layout = Ok doc -> pdf_images doc = images.

End img2pdf.

(* ===================================================================== *)
(** ** core/pdf_generator.py *)
(* ===================================================================== *)

Module PDFGenerator.
Import PyFloat PIL img2pdf.

(** What a run does to the outside: calls of the progress callback, source
    files opened for compression, files written. *)
Inductive action :=
  | Progress (current total : Z) (message : string)
  | Opened (filepath : string)
  | Written (filepath : string).

Definition f2_834645669 : float :=
  Eval vm_compute in default (Float 0 0) (literal 2834645669 1000000000).
Definition f215_9 : float :=
  Eval vm_compute in default (Float 0 0) (literal 2159 10).
Definition f279_4 : float :=
  Eval vm_compute in default (Float 0 0) (literal 2794 10).

(** [PDFGenerator.PAGE_SIZES], in millimetres. *)
Definition PAGE_SIZES : gmap string (option (number * number)) :=
  {[ "original" := None;
     "a4" := Some (int 210, int 297);
     "letter" := Some (flt f215_9, flt f279_4) ]}.

(** The generator object: [progress_callback] is [None] ([false]) or a
    callback, which records its arguments. *)
Record generator := Generator { progress_callback : bool }.

(** Opening [output_path] for writing may fail with a message. *)
Class Host := { open_wb : string -> option string }.

Section WithLibraries.
Context `{P : Pillow} {pdf : Type} `{I : Img2pdf pdf} `{H : Host}.

(** The files and what has happened so far. *)
Record world := World {
  files : gmap string (file pdf);
  trace : list action
}.

Definition log (a : action) (w : world) : world :=
  World (files w) (trace w ++ [a]).

(** [PDFGenerator._report_progress]. *)
Definition _report_progress (self : generator)
    (current total : Z) (message : string) (w : world) : world :=
  if progress_callback self then log (Progress current total message) w
  else w.

(** The call of [ImageProcessor.compress_image] on line 68. *)
Definition compress (img_path : string) (quality : Z) (w : world)
  : list byte * world :=
  (ImageProcessor.compress_image (files w) img_path quality,
   log (Opened img_path) w).

(** Line 65: the message of the progress report of a page. *)
Definition page_message (current total : Z) : string :=
  "处理第 " +:+ pretty current +:+ "/" +:+ pretty total +:+ " 页...".

(** Lines 64-70: the loop over [enumerate(image_paths)], from index [i]. *)
Fixpoint process_images (self : generator) (total quality i : Z)
    (image_paths : list string) (processed_images : list (list byte))
    (w : world) : list (list byte) * world :=
  match image_paths with
  | [] => (processed_images, w)
  | img_path :: rest =>
      let w := _report_progress self (i + 1) total
                 (page_message (i + 1) total) w in
      let '(img_data, w) := compress img_path quality w in
      let processed_images :=
        match img_data with
        | [] => processed_images
        | _ => processed_images ++ [img_data]
        end in
      process_images self total quality (i + 1) rest processed_images w
  end.

(** Lines 78-101: the layout function for a page-size mode. *)
Definition page_layout (page_size : string) (margin_mm : number)
  : result layout_fun :=
  if String.eqb page_size "original" then
    Ok (get_layout_fun None None None)
  else
    match default (Some (int 210, int 297)) (PAGE_SIZES !! page_size) with
    | None => Raise "'NoneType' object is not subscriptable"
    | Some page_dim =>
        page_width_pt <-! nmul (fst page_dim) f2_834645669;
        page_height_pt <-! nmul (snd page_dim) f2_834645669;
        margin_pt <-! nmul margin_mm f2_834645669;
        pw <-! mm_to_pt (fst page_dim);
        ph <-! mm_to_pt (snd page_dim);
        b1 <-! mm_to_pt margin_mm;
        b2 <-! mm_to_pt margin_mm;
        b3 <-! mm_to_pt margin_mm;
        b4 <-! mm_to_pt margin_mm;
        Ok (get_layout_fun (Some (pw, ph)) (Some into)
              (Some (b1, b2, b3, b4)))
    end.

(** Lines 107-108: the output file is written. *)
Definition write (output_path : string) (pdf_bytes : pdf) (w : world)
  : world :=
  log (Written output_path)
      (World (<[output_path := PdfFile pdf_bytes]> (files w)) (trace w)).

(** Lines 113-116: the handler of any exception. *)
Definition failed (self : generator) (e : string) (w : world)
  : bool * world :=
  (false, _report_progress self 0 0 ("生成失败: " +:+ e) w).

(** [PDFGenerator.generate_pdf]. *)
Definition generate_pdf (self : generator) (image_paths : list string)
    (output_path page_size : string) (quality : Z) (margin_mm : number)
    (w : world) : bool * world :=
  match image_paths with
  | [] => (false, w)
  | _ =>
      let total := Z.of_nat (length image_paths) in
      let '(processed_images, w) :=
        process_images self total quality 0 image_paths [] w in
      match processed_images with
      | [] => (false, w)
      | _ =>
          let w := _report_progress self total total "正在生成 PDF..." w in
          match (layout <-! page_layout page_size margin_mm;
                 convert processed_images layout) with
          | Raise e => failed self e w
          | Ok pdf_bytes =>
              match open_wb output_path with
              | Some e => failed self e w
              | None =>
                  let w := write output_path pdf_bytes w in
                  (true, _report_progress self total total "完成！" w)
              end
          end
      end
  end.

(** *** What a run amounts to *)

(** [if img_data:] on line 69. *)
Definition nonempty (b : list byte) : bool :=
  match b with
  | [] => false
  | _ => true
  end.

(** The buffers that the loop keeps: those of the paths whose compression
    succeeds, in the order of the paths. *)
Definition survivors (fs : gmap string (file pdf)) (quality : Z)
    (image_paths : list string) : list (list byte) :=
  List.filter nonempty
    (map (fun p => ImageProcessor.compress_image fs p quality) image_paths).

(** What [_report_progress] adds to the trace. *)
Definition reported (self : generator) (current total : Z)
    (message : string) : list action :=
  if progress_callback self then [Progress current total message] else [].

(** What the loop does for the pages from index [i] on: for each page the
    progress report, then the compression of its file. *)
Fixpoint page_actions (self : generator) (total i : Z)
    (image_paths : list string) : list action :=
  match image_paths with
  | [] => []
  | img_path :: rest =>
      reported self (i + 1) total (page_message (i + 1) total)
      ++ Opened img_path :: page_actions self total (i + 1) rest
  end.

End WithLibraries.
End PDFGenerator.

(* ===================================================================== *)
(** ** The wording of the specification *)
(* ===================================================================== *)

Module Spec.

(** "round(origH * W / origW)": the integer nearest to the quotient. *)
Definition rounded_height (orig_w orig_h target_w : Z) : Z :=
  PyFloat.round_half_even (orig_h * target_w) orig_w.

(** "floor(W * 1.6)". *)
Definition floor_cap (target_w : Z) : Z := 8 * target_w / 5.

(** "completedCount strictly increases call-to-call". *)
Fixpoint strictly_increasing (l : list Z) : bool :=
  match l with
  | a :: (b :: _) as rest => (a <? b) && strictly_increasing rest
  | _ => true
  end.

Fixpoint non_decreasing (l : list Z) : bool :=
  match l with
  | a :: (b :: _) as rest => (a <=? b) && non_decreasing rest
  | _ => true
  end.

(** [i; i + 1; ...], [n] numbers. *)
Fixpoint count_from (i : Z) (n : nat) : list Z :=
  match n with
  | O => []
  | S n => i :: count_from (i + 1) n
  end.

(** The progress events of a trace, as (completedCount, totalCount). *)
Definition progress_events (t : list PDFGenerator.action) : list (Z * Z) :=
  omap (fun a => match a with
                 | PDFGenerator.Progress c n _ => Some (c, n)
                 | _ => None
                 end) t.

End Spec.

(* ===================================================================== *)
(** ** A reference implementation of the library interfaces *)
(* ===================================================================== *)

(** Nearest-neighbour resampling, the plain colour transforms and a JPEG
    container that keeps the frame header: enough to run the program. *)
Module Reference.
Import PyFloat PIL img2pdf PDFGenerator.

Definition nearest (img : image) (w h x y : Z) : pixel :=
  im_pixel img (x * width img / w) (y * height img / h).

Definition plain_convert (src dst : string) (p : pixel) : pixel :=
  let rgb := stored_rgb src p in
  if String.eqb dst "RGB" then rgb
  else if String.eqb dst "RGBA" then
    rgb ++ [if contains "A" src then List.last p 255 else 255]
  else p.

Definition byte_of_Z (z : Z) : byte :=
  default x00 (Byte.of_N (Z.to_N (z mod 256))).

Definition Z_of_byte (b : byte) : Z := Z.of_N (Byte.to_N b).

Definition be16 (z : Z) : list byte := [byte_of_Z (z / 256); byte_of_Z z].

(** SOI, a frame header SOF0 with height and width, the quality, EOI. *)
Definition frame_only_save (img : image) (quality : Z) : option (list byte) :=
  if String.eqb (im_mode img) "RGB"
     && (1 <=? width img) && (width img <=? JPEG_MAX_DIMENSION)
     && (1 <=? height img) && (height img <=? JPEG_MAX_DIMENSION)
  then Some ([xff; xd8; xff; xc0] ++ be16 (height img) ++ be16 (width img)
             ++ [byte_of_Z quality; xff; xd9])
  else None.

Definition frame_size (b : list byte) : option (Z * Z) :=
  match b with
  | xff :: xd8 :: xff :: xc0 :: h1 :: h0 :: w1 :: w0 :: _ =>
      Some (256 * Z_of_byte w1 + Z_of_byte w0,
            256 * Z_of_byte h1 + Z_of_byte h0)
  | _ => None
  end.

Definition pillow : Pillow :=
  {| lanczos := nearest;
     convert_pixel := plain_convert;
     jpeg_save := frame_only_save;
     jpeg_size := frame_size |}.

(** A document is the list of its page images; an input that is not an
    image is refused. *)
Definition pages_convert (images : list (list byte)) (layout : layout_fun)
  : result (list (list byte)) :=
  if forallb (fun b => bool_decide (is_Some (frame_size b))) images
  then Ok images
  else Raise "cannot read input image".

Definition libimg2pdf : Img2pdf (list (list byte)) :=
  {| convert := pages_convert; pdf_images := fun doc => doc |}.

(** Every path can be written but the empty one. *)
Definition host : Host :=
  {| open_wb := fun path =>
       if String.eqb path "" then
         Some "[Errno 2] No such file or directory: ''"
       else None |}.

(** A one-colour image. *)
Definition solid (mode : string) (w h : Z) (color : pixel) : image :=
  new mode (w, h) color.

(** Sample files: a 3 by 2 RGB image, a 1000 by 1 strip, a 5 by 9 tall
    RGBA image, and a text file. *)
Definition sample_files : gmap string (file (list (list byte))) :=
  {[ "wide.png" := ImageFile (solid "RGB" 3 2 [200; 10; 10]);
     "strip.png" := ImageFile (solid "RGB" 1000 1 [0; 0; 0]);
     "tall.png" := ImageFile (solid "RGBA" 5 9 [10; 20; 30; 0]);
     "notes.txt" := OtherFile [x68; x69] ]}.

Definition start : @world (list (list byte)) := World sample_files [].

End Reference.

(* ===================================================================== *)
(** ** Reading a trace *)
(* ===================================================================== *)

Module Trace.
Import PIL PDFGenerator.

(** The source files that a trace opens, in order. *)
Definition opened (t : list action) : list string :=
  omap (fun a => match a with Opened p => Some p | _ => None end) t.

(** The files that a trace writes, in order. *)
Definition written (t : list action) : list string :=
  omap (fun a => match a with Written p => Some p | _ => None end) t.

(** A file that [Image.open] accepts. *)
Definition decodes {pdf} (fs : gmap string (file pdf)) (filepath : string)
  : bool :=
  match open fs filepath with
  | Some _ => true
  | None => false
  end.

End Trace.

(* ===================================================================== *)
(** ** ui/main_window.py and ui/image_card.py: the parts without widgets *)
(* ===================================================================== *)

Module MainWindow.
Import PyFloat PIL.

(** [int((current / total) * 100)] of [_on_progress]; [None] when it
    raises. *)
Definition percent (current total : Z) : option Z :=
  q ← truediv current total;
  h ← of_int 100;
  to_int <$> mul q h.

(** [MainWindow._on_progress], as far as the progress bar goes: the new
    value of the bar, given the old one. *)
Definition _on_progress (bar current total : Z) : option Z :=
  if 0 <? total then percent current total else Some bar.

(** The values that the progress bar takes while the reports of a run,
    given as (current, total), reach [_on_progress] one after the other. *)
Fixpoint bar_values (bar : Z) (events : list (Z * Z)) : option (list Z) :=
  match events with
  | [] => Some []
  | (current, total) :: rest =>
      bar ← _on_progress bar current total;
      (fun l => bar :: l) <$> bar_values bar rest
  end.

(** The value that the bar shows for [current] of [total]. *)
Definition bar_value (total current : Z) : Z :=
  default 0 (percent current total).

(** Lines 723-724 of [_add_images]: what a card is made from. *)
Definition card_data `{Pillow} {pdf} (fs : gmap string (file pdf))
    (filepath : string) : option (list byte) * (Z * Z) :=
  (ImageProcessor.create_thumbnail fs filepath 160,
   ImageProcessor.get_image_dimensions fs filepath).

(** [ImageCard._setup_ui], line 86: whether the card shows the hint LONG. *)
Definition long_hint (img_width img_height : Z) : bool :=
  img_width * 2 <? img_height.

(** [MainWindow._render_image_grid], lines 745 and 754-755: the number of
    columns for a window width, and the cell of the card at index [i]. *)
Definition columns (window_width : Z) : Z :=
  Z.max 1 ((window_width - 380) / 180).

Definition cell (window_width i : Z) : Z * Z :=
  let cols := columns window_width in
  (i / cols, i mod cols).

End MainWindow.

(* ===================================================================== *)
(** ** utils/helpers.py *)
(* ===================================================================== *)

(** A Python [str] is modelled by a [string] whose characters stand for
    code points below 256; lists of keys mix integers and strings. *)
Module helpers.

Definition code (c : ascii) : Z := Z.of_N (N_of_ascii c).

(** [\d] of a [str] pattern: below 256 the ten digits 0 to 9. *)
Definition is_decimal (c : ascii) : bool :=
  (48 <=? code c) && (code c <=? 57).

(** The other characters that [str.isdigit] accepts below 256: the
    superscripts two, three and one. *)
Definition is_superscript (c : ascii) : bool :=
  (code c =? 178) || (code c =? 179) || (code c =? 185).

Definition char_isdigit (c : ascii) : bool := is_decimal c || is_superscript c.

(** [str.lower] on one character: A to Z, and the capital letters from
    192 to 222 but the multiplication sign 215, move up by 32. *)
Definition char_lower (c : ascii) : ascii :=
  let n := code c in
  if ((65 <=? n) && (n <=? 90))
     || ((192 <=? n) && (n <=? 222) && negb (n =? 215))
  then ascii_of_N (N_of_ascii c + 32)
  else c.

Fixpoint all_chars (f : ascii -> bool) (s : string) : bool :=
  match s with
  | EmptyString => true
  | String c rest => f c && all_chars f rest
  end.

Fixpoint lower (s : string) : string :=
  match s with
  | EmptyString => EmptyString
  | String c rest => String (char_lower c) (lower rest)
  end.

(** [text.isdigit()]: false on the empty string. *)
Definition isdigit (text : string) : bool :=
  negb (String.eqb text "") && all_chars char_isdigit text.

(** The number that a string of decimal digits denotes. *)
Fixpoint digits_value (acc : Z) (s : string) : Z :=
  match s with
  | EmptyString => acc
  | String c rest => digits_value (10 * acc + (code c - 48)) rest
  end.

(** The longest string of digits that [int] converts. *)
Definition int_max_str_digits : nat := 4300.

(** [int(text)] for a text on which [isdigit] holds: [ValueError]
    ([None]) for a superscript, and for more digits than the limit. *)
Definition int (text : string) : option Z :=
  if all_chars is_decimal text
     && negb (String.eqb text "")
     && (String.length text <=? int_max_str_digits)%nat
  then Some (digits_value 0 text)
  else None.

(** [re.split(r'(\d+)', s)]: the pieces between the runs of digits
    alternate with the runs.  [text] is the piece read so far and [digits]
    the run that follows it, empty as long as no run has begun. *)
Fixpoint split_digits (text digits s : string) : list string :=
  match s with
  | EmptyString =>
      if String.eqb digits "" then [text] else [text; digits; EmptyString]
  | String c rest =>
      if is_decimal c then
        split_digits text (digits ++ String c EmptyString) rest
      else if String.eqb digits "" then
        split_digits (text ++ String c EmptyString) EmptyString rest
      else
        text :: digits :: split_digits (String c EmptyString) EmptyString rest
  end.

Definition re_split_digits (s : string) : list string :=
  split_digits EmptyString EmptyString s.

(** An element of a sort key. *)
Inductive elem :=
  | Int (n : Z)
  | Str (s : string).

(** [a == b]: an integer and a string are different. *)
Definition elem_eq (a b : elem) : bool :=
  match a, b with
  | Int m, Int n => m =? n
  | Str s, Str t => String.eqb s t
  | _, _ => false
  end.

(** [a < b]: [TypeError] ([None]) between an integer and a string;
    strings are compared by code points. *)
Definition elem_lt (a b : elem) : option bool :=
  match a, b with
  | Int m, Int n => Some (m <? n)
  | Str s, Str t => Some (String.ltb s t)
  | _, _ => None
  end.

(** [a < b] on two lists: the first two elements that differ decide; when
    there are none the shorter list is the smaller. *)
Fixpoint list_lt (a b : list elem) : option bool :=
  match a, b with
  | [], [] => Some false
  | [], _ :: _ => Some true
  | _ :: _, [] => Some false
  | x :: a, y :: b => if elem_eq x y then list_lt a b else elem_lt x y
  end.

(** [natural_sort_key]: [None] when [int] raises. *)
Definition natural_sort_key (s : string) : option (list elem) :=
  mapM (fun text =>
          if isdigit text then Int <$> int text
          else Some (Str (lower text)))
       (re_split_digits s).

(** The element that a piece of the split contributes. *)
Definition piece_key (text : string) : option elem :=
  if isdigit text then Int <$> int text else Some (Str (lower text)).

(** The form of a key: strings and integers alternate; [str_next] tells
    which of the two comes first, and a key ends after a string. *)
Fixpoint alternating (str_next : bool) (k : list elem) : bool :=
  match k with
  | [] => negb str_next
  | Str _ :: rest => str_next && alternating false rest
  | Int _ :: rest => negb str_next && alternating true rest
  end.

(** The string does not begin with one of the digits 0 to 9. *)
Definition no_leading_digit (s : string) : bool :=
  match s with
  | EmptyString => true
  | String c _ => negb (is_decimal c)
  end.

(** The string is empty or ends with one of the digits 0 to 9. *)
Fixpoint digit_or_start_before (s : string) : bool :=
  match s with
  | EmptyString => true
  | String c EmptyString => is_decimal c
  | String _ rest => digit_or_start_before rest
  end.

(** The string is empty or begins with one of the digits 0 to 9. *)
Definition digit_or_end_after (s : string) : bool :=
  match s with
  | EmptyString => true
  | String c _ => is_decimal c
  end.

(** [get_supported_extensions]. *)
Definition get_supported_extensions : list string :=
  [".jpg"; ".jpeg"; ".png"; ".webp"; ".bmp"; ".gif"]%string.

(** [p.rfind(c)] for a character [c]: -1 when it does not occur.  [i] is
    the index of the first character of [s] in [p]. *)
Fixpoint rfind_from (c : ascii) (s : string) (i : Z) : Z :=
  match s with
  | EmptyString => -1
  | String a rest =>
      let r := rfind_from c rest (i + 1) in
      if 0 <=? r then r else if Ascii.eqb a c then i else -1
  end.

Definition rfind (c : ascii) (p : string) : Z := rfind_from c p 0.

(** [p[:i]] and [p[i:]] for [0 <= i]. *)
Definition before (p : string) (i : Z) : string :=
  String.substring 0 (Z.to_nat i) p.

Definition after (p : string) (i : Z) : string :=
  String.substring (Z.to_nat i) (String.length p - Z.to_nat i) p.

(** The loop of [genericpath._splitext] that skips the leading dots of the
    file name: whether one of the [steps] characters from [filenameIndex]
    on is not [extsep]. *)
Fixpoint name_before_dot (p : string) (extsep : ascii) (filenameIndex : Z)
    (steps : nat) : bool :=
  match steps with
  | O => false
  | S steps =>
      match String.get (Z.to_nat filenameIndex) p with
      | Some c =>
          if Ascii.eqb c extsep
          then name_before_dot p extsep (filenameIndex + 1) steps
          else true
      | None => true
      end
  end.

(** [genericpath._splitext(p, sep, altsep, extsep)]. *)
Definition _splitext (p : string) (sep : ascii) (altsep : option ascii)
    (extsep : ascii) : string * string :=
  let sepIndex := rfind sep p in
  let sepIndex :=
    match altsep with
    | Some altsep => Z.max sepIndex (rfind altsep p)
    | None => sepIndex
    end in
  let dotIndex := rfind extsep p in
  if (sepIndex <? dotIndex)
     && name_before_dot p extsep (sepIndex + 1)
          (Z.to_nat (dotIndex - (sepIndex + 1)))
  then (before p dotIndex, after p dotIndex)
  else (p, EmptyString).

(** [os.path] is [posixpath] or [ntpath]. *)
Inductive os_path := posixpath | ntpath.

Definition splitext (os : os_path) (p : string) : string * string :=
  match os with
  | posixpath => _splitext p "/" None "."
  | ntpath => _splitext p "\" (Some "/"%char) "."
  end.

(** [is_image_file]. *)
Definition is_image_file (os : os_path) (filepath : string) : bool :=
  let ext := lower (snd (splitext os filepath)) in
  existsb (String.eqb ext) get_supported_extensions.

(** The separators that [splitext] looks for. *)
Definition is_sep (os : os_path) (c : ascii) : bool :=
  match os with
  | posixpath => Ascii.eqb c "/"
  | ntpath => Ascii.eqb c "\" || Ascii.eqb c "/"
  end.

(** The string is empty or ends with a separator: what precedes a file
    name in a path. *)
Fixpoint directory_prefix (os : os_path) (dir : string) : bool :=
  match dir with
  | EmptyString => true
  | String c EmptyString => is_sep os c
  | String _ rest => directory_prefix os rest
  end.

Definition is_dot (c : ascii) : bool := Ascii.eqb c ".".

(** A character that is neither a dot nor a separator of either kind. *)
Definition plain (c : ascii) : bool :=
  negb (Ascii.eqb c ".") && negb (Ascii.eqb c "/") && negb (Ascii.eqb c "\").

(** [ext.lower() in get_supported_extensions()]. *)
Definition supported (ext : string) : bool :=
  existsb (String.eqb (lower ext)) get_supported_extensions.

(** [sanitize_filename]: the characters of the class of line 39 (the
    double quote is character 34), each replaced by an underscore. *)
Definition illegal_chars : list ascii :=
  ["<"; ">"; ":"; "034"; "/"; "\"; "|"; "?"; "*"]%char.

Definition illegal (c : ascii) : bool := existsb (Ascii.eqb c) illegal_chars.

Fixpoint sanitize_filename (filename : string) : string :=
  match filename with
  | EmptyString => EmptyString
  | String c rest =>
      String (if illegal c then "_"%char else c) (sanitize_filename rest)
  end.

End helpers.

(* ===================================================================== *)
(** ** ui/main_window.py: the grid of cards and the sequences *)
(* ===================================================================== *)

(** An entry of [seq['images']]. *)
Record image_data := ImageData {
  img_id : string;
  img_filepath : string;
  img_thumbnail : option (list byte);
  img_size : Z * Z
}.

Module DraggableGridWidget.

(** A card, as far as the grid looks at it: what it was made from. *)
Record ImageCard := Card { image_id : string; card_data : image_data }.

(** [get_card_index]: -1 when no card has the id. *)
Fixpoint get_card_index_from (cards : list ImageCard) (image_id' : string)
    (i : Z) : Z :=
  match cards with
  | [] => -1
  | card :: rest =>
      if String.eqb (image_id card) image_id' then i
      else get_card_index_from rest image_id' (i + 1)
  end.

Definition get_card_index (cards : list ImageCard) (image_id' : string) : Z :=
  get_card_index_from cards image_id' 0.

(** Where a position lies relative to a card: outside of it, or inside,
    left of the centre or not. *)
Inductive hit := Outside | Left | Right.

(** [_get_drop_index]: [hits] tells for each card where the position
    lies. *)
Fixpoint _get_drop_index_from (hits : list hit) (i : Z) : Z :=
  match hits with
  | [] => i
  | Outside :: rest => _get_drop_index_from rest (i + 1)
  | Left :: _ => i
  | Right :: _ => i + 1
  end.

Definition _get_drop_index (hits : list hit) : Z :=
  _get_drop_index_from hits 0.

(** [l.pop(i)] for [0 <= i < len(l)], and [l.insert(i, x)] for [0 <= i]:
    an index beyond the end appends. *)
Definition pop {A} (l : list A) (i : Z) : list A :=
  take (Z.to_nat i) l ++ drop (S (Z.to_nat i)) l.

Definition insert_at {A} (l : list A) (i : Z) (x : A) : list A :=
  take (Z.to_nat i) l ++ x :: drop (Z.to_nat i) l.

(** [dropEvent] for a drop that carries the text [source_id]: the cards
    afterwards, and whether [order_changed] is emitted. *)
Definition dropEvent (cards : list ImageCard) (source_id : string)
    (hits : list hit) : list ImageCard * bool :=
  let source_idx := get_card_index cards source_id in
  if source_idx <? 0 then (cards, false)
  else
    let target_idx := _get_drop_index hits in
    if (target_idx <? 0) || (target_idx =? source_idx) then (cards, false)
    else
      match cards !! Z.to_nat source_idx with
      | None => (cards, false)
      | Some card =>
          let cards := pop cards source_idx in
          (insert_at cards
             (if target_idx <? source_idx then target_idx else target_idx)
             card,
           true)
      end.

(** [get_order]. *)
Definition get_order (cards : list ImageCard) : list string :=
  map image_id cards.

(** The cards that [_render_image_grid] makes, one for each image. *)
Definition rendered (images : list image_data) : list ImageCard :=
  map (fun img => Card (img_id img) img) images.

End DraggableGridWidget.

Module Sequences.

(** A sequence: [{'id': ..., 'name': ..., 'images': [...]}]. *)
Record sequence := Sequence {
  seq_id : string;
  seq_name : string;
  seq_images : list image_data
}.

(** The part of the window that the sequence operations use. *)
Record window := Window {
  sequences : list sequence;
  current_sequence_id : string;
  sequence_counter : Z
}.

Definition MAX_SEQUENCES : Z := 5.

(** The state that [__init__] sets up. *)
Definition init : window :=
  Window [Sequence "1" "漫画合集1" []] "1" 1.

(** [next((s for s in sequences if s['id'] == seq_id), None)]. *)
Definition find_sequence (seqs : list sequence) (id : string)
  : option sequence :=
  List.find (fun s => String.eqb (seq_id s) id) seqs.

(** [_get_current_sequence]: [None] for the [IndexError] of
    [self.sequences[0]]. *)
Definition _get_current_sequence (self : window) : option sequence :=
  match find_sequence (sequences self) (current_sequence_id self) with
  | Some seq => Some seq
  | None => head (sequences self)
  end.

(** [_switch_sequence]. *)
Definition _switch_sequence (self : window) (id : string) : window :=
  if String.eqb (current_sequence_id self) id then self
  else Window (sequences self) id (sequence_counter self).

(** [_add_sequence]; [uuid] is the value of [str(uuid.uuid4())]. *)
Definition _add_sequence (self : window) (uuid : string) : window :=
  if MAX_SEQUENCES <=? Z.of_nat (length (sequences self)) then self
  else
    let counter := sequence_counter self + 1 in
    let new_seq := Sequence uuid ("漫画合集" +:+ pretty counter) [] in
    Window (sequences self ++ [new_seq]) uuid counter.

(** [_delete_sequence]; [reply] tells whether the user confirms.  [None]
    for the [IndexError] of [self.sequences[0]]. *)
Definition _delete_sequence (self : window) (id : string) (reply : bool)
  : option window :=
  if Z.of_nat (length (sequences self)) <=? 1 then Some self
  else
    match find_sequence (sequences self) id with
    | None => Some self
    | Some _ =>
        if reply then
          let seqs :=
            List.filter (fun s => negb (String.eqb (seq_id s) id))
              (sequences self) in
          if String.eqb (current_sequence_id self) id then
            first ← head seqs;
            Some (Window seqs (seq_id first) (sequence_counter self))
          else Some (Window seqs (current_sequence_id self)
                       (sequence_counter self))
        else Some self
    end.

(** [seq['images'] = images] for the object that [_get_current_sequence]
    returns: the first sequence with the current id, or else the first
    one.  The other sequences, also one with the same id, stay as they
    are. *)
Fixpoint assign_first (id : string) (images : list image_data)
    (seqs : list sequence) : option (list sequence) :=
  match seqs with
  | [] => None
  | s :: rest =>
      if String.eqb (seq_id s) id
      then Some (Sequence (seq_id s) (seq_name s) images :: rest)
      else (fun l => s :: l) <$> assign_first id images rest
  end.

Definition set_images (self : window) (images : list image_data)
  : option window :=
  seqs ← match assign_first (current_sequence_id self) images
                 (sequences self) with
         | Some seqs => Some seqs
         | None =>
             match sequences self with
             | [] => None
             | s :: rest =>
                 Some (Sequence (seq_id s) (seq_name s) images :: rest)
             end
         end;
  Some (Window seqs (current_sequence_id self) (sequence_counter self)).

(** The state is as the window keeps it: from one to five sequences with
    different ids, one of which is the current one. *)
Definition well_formed (self : window) : Prop :=
  1 <= Z.of_nat (length (sequences self)) <= MAX_SEQUENCES /\
  NoDup (map seq_id (sequences self)) /\
  In (current_sequence_id self) (map seq_id (sequences self)).

(** The dictionary [{img['id']: img for img in images}]: of two images with
    the same id the later one stays. *)
Definition by_id (images : list image_data) : gmap string image_data :=
  foldl (fun m img => <[img_id img := img]> m) ∅ images.

(** The new list of images of [_on_order_changed]. *)
Definition reordered (images : list image_data) (new_order : list string)
  : list image_data :=
  omap (fun id => by_id images !! id) new_order.

(** The new list of images of [_remove_image]. *)
Definition without (images : list image_data) (image_id : string)
  : list image_data :=
  List.filter (fun img => negb (String.eqb (img_id img) image_id)) images.

End Sequences.

(* ===================================================================== *)
(** ** ui/main_window.py: the tail page and the batch of all sequences *)
(* ===================================================================== *)

Module Batch.
Import PIL img2pdf PDFGenerator Sequences helpers.

(** [os.path.join]. *)
Class OsPath := { join : string -> string -> string }.

(** What the window reads from its widgets and settings for a job:
    [tail_page_enabled], [tail_page_path], [_get_page_size_value()],
    [quality_slider.value()] and [margin_spin.value()]. *)
Record settings := Settings {
  tail_page_enabled : bool;
  tail_page_path : string;
  page_size : string;
  quality : Z;
  margin : number
}.

Section WithLibraries.
Context `{P : Pillow} {pdf : Type} `{I : Img2pdf pdf} `{H : Host}
        `{O : OsPath}.

(** [os.path.exists(path)]. *)
Definition exists_file (fs : gmap string (file pdf)) (path : string) : bool :=
  bool_decide (is_Some (fs !! path)).

(** [_get_images_with_tail]. *)
Definition _get_images_with_tail (st : settings)
    (fs : gmap string (file pdf)) (images : list string) : list string :=
  if tail_page_enabled st
     && negb (String.eqb (tail_page_path st) "")
     && exists_file fs (tail_page_path st)
  then images ++ [tail_page_path st]
  else images.

(** Line 849: the file that a sequence is written to. *)
Definition output_path (output_dir : string) (seq : sequence) : string :=
  join output_dir (sanitize_filename (seq_name seq) +:+ ".pdf").

(** Lines 843-859: the loop of [_generate_all_pdfs] over the sequences
    that have images; the results of the runs, and the world afterwards. *)
Fixpoint generate_sequences (self : generator) (st : settings)
    (output_dir : string) (non_empty : list sequence) (w : world)
  : list bool * world :=
  match non_empty with
  | [] => ([], w)
  | seq :: rest =>
      let images :=
        _get_images_with_tail st (files w)
          (map img_filepath (seq_images seq)) in
      let '(success, w) :=
        generate_pdf self images (output_path output_dir seq)
          (page_size st) (quality st) (margin st) w in
      let '(results, w) := generate_sequences self st output_dir rest w in
      (success :: results, w)
  end.

(** [[s for s in self.sequences if len(s['images']) > 0]]. *)
Definition with_images (seqs : list sequence) : list sequence :=
  List.filter (fun s => match seq_images s with [] => false | _ => true end)
    seqs.

(** [_generate_all_pdfs], as far as the files go; [output_dir] is what the
    directory dialog returns. *)
Definition _generate_all_pdfs (self : generator) (st : settings)
    (seqs : list sequence) (is_processing : bool) (output_dir : string)
    (w : world) : list bool * world :=
  let non_empty := with_images seqs in
  if match non_empty with [] => true | _ => false end || is_processing
  then ([], w)
  else if String.eqb output_dir "" then ([], w)
  else generate_sequences self st output_dir non_empty w.

End WithLibraries.
End Batch.

(* ===================================================================== *)
(** ** ui/main_window.py: adding images *)
(* ===================================================================== *)

Module AddImages.
Import PIL Sequences helpers.

(** The parts of Python that [_add_images] uses and that are taken as
    given: [os.path] with its [basename], and [sorted(l, key=key)]; [None]
    when it raises. *)
Class Python := {
  os_path_module : os_path;
  basename : string -> string;
  sorted :
    forall A : Type, (A -> option (list elem)) -> list A -> option (list A)
}.

(** [key(x) < key(y)]. *)
Definition key_lt {A} (key : A -> option (list elem)) (x y : A)
  : option bool :=
  kx ← key x; ky ← key y; list_lt kx ky.

(** No element has a smaller key than one before it. *)
Inductive ordered {A} (key : A -> option (list elem)) : list A -> Prop :=
  | ordered_nil : ordered key []
  | ordered_cons x l :
      Forall (fun y => key_lt key y x = Some false) l ->
      ordered key l -> ordered key (x :: l).

(** The keys are totally ordered by [<]. *)
Definition total_order (keys : list (list elem)) : Prop :=
  (forall k1 k2, In k1 keys -> In k2 keys ->
     (list_lt k1 k2 = Some true /\ list_lt k2 k1 = Some false) \/
     (list_lt k1 k2 = Some false /\ list_lt k2 k1 = Some true) \/
     (list_lt k1 k2 = Some false /\ list_lt k2 k1 = Some false /\
      k1 = k2)) /\
  (forall k1 k2 k3, In k1 keys -> In k2 keys -> In k3 keys ->
     list_lt k1 k2 = Some true -> list_lt k2 k3 = Some true ->
     list_lt k1 k3 = Some true).

(** What the program relies on: [sorted] computes the keys first, and an
    exception of [key] is one of [sorted]; when the keys are totally
    ordered the result has the elements of the list, in order. *)
Record python_ok (Py : Python) : Prop := {
  sorted_raises :
    forall A (key : A -> option (list elem)) l,
      mapM key l = None -> sorted A key l = None;
  sorted_orders :
    forall A (key : A -> option (list elem)) l keys,
      mapM key l = Some keys -> total_order keys ->
      exists r, sorted A key l = Some r /\ r ≡ₚ l /\ ordered key r
}.

Section WithLibraries.
Context `{P : Pillow} `{Py : Python} {pdf : Type}.

(** Lines 723-733: the entry of a file; [uuid] is [str(uuid.uuid4())]. *)
Definition new_entry (fs : gmap string (file pdf)) (uuid filepath : string)
  : image_data :=
  ImageData uuid filepath
    (ImageProcessor.create_thumbnail fs filepath 160)
    (ImageProcessor.get_image_dimensions fs filepath).

(** [_add_images]: the images of the current sequence afterwards;
    [uuid4 i] is the id that the call number [i] of [uuid.uuid4] gives. *)
Definition _add_images (fs : gmap string (file pdf)) (uuid4 : nat -> string)
    (images : list image_data) (filepaths : list string)
  : option (list image_data) :=
  filepaths ← sorted string (fun x => natural_sort_key (basename x))
                filepaths;
  Some (images
        ++ imap (fun i filepath => new_entry fs (uuid4 i) filepath)
             (List.filter (is_image_file os_path_module) filepaths)).

End WithLibraries.

(** *** A stable insertion sort *)

Fixpoint insert_sorted {A} (kx : list elem) (x : A)
    (l : list (list elem * A)) : option (list (list elem * A)) :=
  match l with
  | [] => Some [(kx, x)]
  | (ky, y) :: rest =>
      b ← list_lt ky kx;
      if b : bool then (fun r => (ky, y) :: r) <$> insert_sorted kx x rest
      else Some ((kx, x) :: (ky, y) :: rest)
  end.

Fixpoint sort_keyed {A} (l : list (list elem * A))
  : option (list (list elem * A)) :=
  match l with
  | [] => Some []
  | (k, x) :: rest => r ← sort_keyed rest; insert_sorted k x r
  end.

Definition insertion_sorted (A : Type) (key : A -> option (list elem))
    (l : list A) : option (list A) :=
  keys ← mapM key l;
  map snd <$> sort_keyed (zip keys l).

(** [posixpath.basename]. *)
Definition posix_basename (p : string) : string :=
  after p (rfind "/" p + 1).

Definition cpython : Python :=
  {| os_path_module := posixpath;
     basename := posix_basename;
     sorted := insertion_sorted |}.

End AddImages.

(* ===================================================================== *)
(** ** More sample data *)
(* ===================================================================== *)

Module Samples.
Import PIL Reference.

(** A 100 by 250 strip, a 49 by 49 square, and a text file. *)
Definition strip_files : gmap string (file (list (list byte))) :=
  {[ "long.png" := ImageFile (solid "RGB" 100 250 [1; 2; 3]);
     "square.png" := ImageFile (solid "L" 49 49 [7]);
     "readme.md" := OtherFile [x23] ]}.

Definition strip_world : @PDFGenerator.world (list (list byte)) :=
  PDFGenerator.World strip_files [].

(** The entry and the card of a 3 by 2 image without thumbnail. *)
Definition entry (id : string) : image_data :=
  ImageData id (id +:+ ".png") None (3, 2).

Definition card (id : string) : DraggableGridWidget.ImageCard :=
  DraggableGridWidget.Card id (entry id).

Definition ends_with_slash (s : string) : bool :=
  match String.get (String.length s - 1) s with
  | Some c => Ascii.eqb c "/"
  | None => false
  end.

(** [posixpath.join] of two paths. *)
Definition posix_join (a b : string) : string :=
  if String.prefix "/" b then b
  else if String.eqb a "" || ends_with_slash a then a +:+ b
  else a +:+ "/" +:+ b.

Definition os_path : Batch.OsPath := {| Batch.join := posix_join |}.

(** Two sequences whose names differ in an illegal character only. *)
Definition volumes : list Sequences.sequence :=
  [Sequences.Sequence "1" "vol:1" [ImageData "a" "wide.png" None (3, 2)];
   Sequences.Sequence "2" "vol?1" [ImageData "b" "tall.png" None (5, 9)]].

Definition plain_settings : Batch.settings :=
  Batch.Settings false "" "original" 90 (img2pdf.int 0).

Definition tail_settings : Batch.settings :=
  Batch.Settings true "tall.png" "original" 90 (img2pdf.int 0).

End Samples.

(* ===================================================================== *)
(** ** Facts about the rounding *)
(* ===================================================================== *)

Module PyFloatFacts.
Import PyFloat.

Lemma up_pos s : 0 < up s.
Proof. unfold up. apply Z.pow_pos_nonneg; lia. Qed.

Lemma dn_pos s : 0 < dn s.
Proof. unfold dn. apply Z.pow_pos_nonneg; lia. Qed.

Lemma up_nonpos s : s <= 0 -> up s = 1.
Proof. intros H. unfold up. replace (Z.max 0 s) with 0 by lia. reflexivity. Qed.

Lemma dn_nonneg s : 0 <= s -> dn s = 1.
Proof. intros H. unfold dn. replace (Z.max 0 (- s)) with 0 by lia. reflexivity. Qed.

Lemma up_ge_2 s : 0 < s -> 2 <= up s.
Proof.
  intros H. unfold up. replace (Z.max 0 s) with (1 + (s - 1)) by lia.
  rewrite Z.pow_add_r by lia.
  assert (0 < 2 ^ (s - 1)) by (apply Z.pow_pos_nonneg; lia). lia.
Qed.

(** [2 ^ e = 2 ^ x / (2 ^ y * 2 ^ t)] when [e = x - y - t], without fractions. *)
Lemma up_dn_split x y t e :
  0 <= x -> 0 <= y -> 0 <= t -> e = x - y - t ->
  2 ^ x * dn e = 2 ^ t * up e * 2 ^ y.
Proof.
  intros Hx Hy Ht ->. unfold up, dn.
  rewrite <- !Z.pow_add_r by lia. f_equal. lia.
Qed.

Lemma rhe_error n d :
  0 < d -> 2 * Z.abs (round_half_even n d * d - n) <= d.
Proof.
  intros Hd. unfold round_half_even.
  pose proof (Z.div_mod n d ltac:(lia)) as E.
  pose proof (Z.mod_pos_bound n d Hd) as B.
  destruct (Z.ltb_spec (2 * (n mod d)) d); [nia|].
  destruct (Z.ltb_spec d (2 * (n mod d))); [nia|].
  destruct (Z.even (n / d)); nia.
Qed.

Lemma rhe_floor n d : 0 < d -> n / d <= round_half_even n d.
Proof.
  intros Hd. unfold round_half_even.
  destruct (2 * (n mod d) <? d); [lia|].
  destruct (d <? 2 * (n mod d)); [lia|].
  destruct (Z.even (n / d)); lia.
Qed.

Lemma rhe_ge n d k : 0 < d -> k * d <= n -> k <= round_half_even n d.
Proof.
  intros Hd H. pose proof (rhe_floor n d Hd).
  assert (k <= n / d) by (apply Z.div_le_lower_bound; lia). lia.
Qed.

Lemma rhe_le n d k : 0 < d -> n <= k * d -> round_half_even n d <= k.
Proof.
  intros Hd H. unfold round_half_even.
  pose proof (Z.div_mod n d ltac:(lia)) as E.
  pose proof (Z.mod_pos_bound n d Hd) as B.
  set (q := n / d) in *. set (r := n mod d) in *.
  assert (q <= k) by nia.
  destruct (Z.eq_dec q k) as [Heq|Hne].
  - assert (r = 0) by (subst k; lia).
    destruct (Z.ltb_spec (2 * r) d); lia.
  - destruct (2 * r <? d); [lia|].
    destruct (d <? 2 * r); [lia|].
    destruct (Z.even q); lia.
Qed.

(** The binade of [n / d], as a difference of two natural exponents. *)
Lemma binade_xy n d :
  0 < n -> 0 < d ->
  exists x y, 0 <= x /\ 0 <= y /\ binade n d = x - y /\
              2 ^ x * d <= n * 2 ^ y < 2 * (2 ^ x * d).
Proof.
  intros Hn Hd. unfold binade.
  pose proof (Z.log2_spec n Hn) as [Ln Un].
  pose proof (Z.log2_spec d Hd) as [Ld Ud].
  pose proof (Z.log2_nonneg n) as An.
  pose proof (Z.log2_nonneg d) as Ad.
  set (a := Z.log2 n) in *. set (c := Z.log2 d) in *.
  rewrite Z.pow_succ_r in Un, Ud by lia.
  assert (0 < 2 ^ a) by (apply Z.pow_pos_nonneg; lia).
  assert (0 < 2 ^ c) by (apply Z.pow_pos_nonneg; lia).
  destruct (Z.ltb_spec (n * 2 ^ c) (d * 2 ^ a)).
  - exists a, (c + 1). rewrite Z.pow_add_r by lia.
    change (2 ^ 1) with 2. repeat split; try lia; nia.
  - exists a, c. repeat split; try lia; nia.
Qed.

Lemma binade_lower n d :
  0 < n -> 0 < d ->
  2 ^ 52 * (d * up (binade n d - 52)) <= n * dn (binade n d - 52).
Proof.
  intros Hn Hd.
  destruct (binade_xy n d Hn Hd) as (x & y & Hx & Hy & -> & L & _).
  pose proof (up_dn_split x y 52 (x - y - 52) Hx Hy ltac:(lia) eq_refl) as S.
  assert (0 < 2 ^ y) by (apply Z.pow_pos_nonneg; lia).
  set (U := up (x - y - 52)) in *. set (D := dn (x - y - 52)) in *.
  assert (0 < D) by apply dn_pos.
  apply Z.mul_le_mono_pos_r with (p := 2 ^ y); [lia|].
  replace (2 ^ 52 * (d * U) * 2 ^ y) with (2 ^ 52 * U * 2 ^ y * d) by ring.
  rewrite <- S. nia.
Qed.

Lemma binade_lt n d K :
  0 < n -> 0 < d -> 0 <= K -> n < 2 ^ K * d -> binade n d < K.
Proof.
  intros Hn Hd HK H.
  destruct (binade_xy n d Hn Hd) as (x & y & Hx & Hy & -> & L & _).
  assert (0 < 2 ^ K) by (apply Z.pow_pos_nonneg; lia).
  assert (0 < 2 ^ y) by (apply Z.pow_pos_nonneg; lia).
  assert (2 ^ x < 2 ^ (K + y)) as P.
  { rewrite Z.pow_add_r by lia. nia. }
  apply Z.pow_lt_mono_r_iff in P; lia.
Qed.

Lemma binade_ge n d K :
  0 < n -> 0 < d -> 0 <= K -> d <= n * 2 ^ K -> - K <= binade n d.
Proof.
  intros Hn Hd HK H.
  destruct (binade_xy n d Hn Hd) as (x & y & Hx & Hy & -> & _ & U).
  assert (0 < 2 ^ K) by (apply Z.pow_pos_nonneg; lia).
  assert (0 < 2 ^ x) by (apply Z.pow_pos_nonneg; lia).
  assert (2 ^ y < 2 ^ (x + K + 1)) as P.
  { rewrite !Z.pow_add_r by lia. change (2 ^ 1) with 2. nia. }
  apply Z.pow_lt_mono_r_iff in P; lia.
Qed.

(** *** Agreement with the reference implementation of binary64 *)

Example literal_1_6 : literal 16 10 = Some f1_6.
Proof. vm_compute. reflexivity. Qed.

Example f1_6_binary64 :
  to_spec f1_6 = b64_div (b64_of_int 16) (b64_of_int 10).
Proof. vm_compute. reflexivity. Qed.

Example quotients_agree :
  forallb (fun a => forallb (fun b => div_agrees a b) (upto 40)) (upto 40)
  = true.
Proof. vm_compute. reflexivity. Qed.

Example scaled_products_agree :
  forallb (fun n =>
    forallb (fun b => scale_agrees n 160 b && scale_agrees n 300 b)
            (upto 30)) (upto 30) = true.
Proof. vm_compute. reflexivity. Qed.

Example large_operands_agree :
  div_agrees 40937 2147483647 && scale_agrees 2147483647 40937 2147483647
  && scale_agrees 2147483647 40937 1 && scale_agrees 49 1 49 = true.
Proof. vm_compute. reflexivity. Qed.

(** *** Correct rounding: the three facts the geometry proofs use *)

(** An integer below the exact value stays below the rounded one. *)
Lemma round_pos_floor n d k f :
  0 < n -> 0 < d -> 0 <= k < 2 ^ 53 -> k * d <= n ->
  round_pos n d = Some f -> k * den f <= num f.
Proof.
  intros Hn Hd Hk H. unfold round_pos.
  set (e := Z.max (binade n d - 52) (-1074)).
  destruct (overflows _ e); [discriminate|]. intros [= <-].
  unfold num, den; simpl.
  pose proof (up_pos e) as Pu. pose proof (dn_pos e) as Pd.
  destruct (Z.le_gt_cases e 0) as [He|He].
  - rewrite (up_nonpos e He) in *. rewrite Z.mul_1_r.
    apply rhe_ge; nia.
  - assert (e = binade n d - 52) as Ee by lia.
    pose proof (binade_lower n d Hn Hd) as L. rewrite <- Ee in L.
    rewrite (dn_nonneg e) in * by lia.
    pose proof (up_ge_2 e He).
    assert (2 ^ 52 <= round_half_even (n * 1) (d * up e)).
    { apply rhe_ge; nia. }
    nia.
Qed.

(** An integer above the exact value stays above the rounded one. *)
Lemma round_pos_ceil n d k f :
  0 < n -> 0 < d -> 0 <= k < 2 ^ 53 -> n <= k * d ->
  round_pos n d = Some f -> num f <= k * den f.
Proof.
  intros Hn Hd Hk H. unfold round_pos.
  set (e := Z.max (binade n d - 52) (-1074)).
  destruct (overflows _ e); [discriminate|]. intros [= <-].
  unfold num, den; simpl.
  pose proof (up_pos e) as Pu. pose proof (dn_pos e) as Pd.
  destruct (Z.le_gt_cases e 0) as [He|He].
  - rewrite (up_nonpos e He) in *. rewrite Z.mul_1_r.
    apply rhe_le; nia.
  - assert (e = binade n d - 52) as Ee by lia.
    pose proof (binade_lower n d Hn Hd) as L. rewrite <- Ee in L.
    rewrite (dn_nonneg e) in * by lia.
    pose proof (up_ge_2 e He). nia.
Qed.

(** In the normal range the relative error is at most [2 ^ -53]. *)
Lemma round_pos_approx n d f :
  0 < n -> 0 < d -> d <= n * 2 ^ 1022 ->
  round_pos n d = Some f ->
  2 ^ 53 * Z.abs (num f * d - n * den f) <= n * den f.
Proof.
  intros Hn Hd Hnorm. unfold round_pos.
  pose proof (binade_ge n d 1022 Hn Hd ltac:(lia) Hnorm) as Hb.
  replace (Z.max (binade n d - 52) (-1074)) with (binade n d - 52) by lia.
  set (e := binade n d - 52).
  destruct (overflows _ e); [discriminate|]. intros [= <-].
  unfold num, den; simpl.
  pose proof (binade_lower n d Hn Hd) as L. fold e in L.
  pose proof (up_pos e) as Pu.
  pose proof (rhe_error (n * dn e) (d * up e) ltac:(nia)) as R.
  replace (round_half_even (n * dn e) (d * up e) * up e * d - n * dn e)
    with (round_half_even (n * dn e) (d * up e) * (d * up e) - n * dn e) by ring.
  change (2 ^ 53) with (2 * 2 ^ 52). lia.
Qed.

(** Below [2 ^ 1023] the rounding is finite. *)
Lemma round_pos_finite n d :
  0 < n -> 0 < d -> n < 2 ^ 1023 * d -> exists f, round_pos n d = Some f.
Proof.
  intros Hn Hd H. unfold round_pos.
  pose proof (binade_lt n d 1023 Hn Hd ltac:(lia) H) as Hb.
  set (e := Z.max (binade n d - 52) (-1074)).
  assert (e <= 970) as He by lia.
  unfold overflows.
  destruct (Z.ltb_spec 971 e); [lia|].
  destruct (Z.eqb_spec e 971); [lia|]. simpl. eauto.
Qed.

(** Integers below [2 ^ 53] convert exactly. *)
Lemma of_int_exact n :
  0 <= n < 2 ^ 53 -> exists f, of_int n = Some f /\ num f = n * den f.
Proof.
  intros Hn. unfold of_int, round_q.
  destruct (Z.eqb_spec n 0) as [->|Hne].
  - exists (Float 0 0). split; reflexivity.
  - destruct (Z.ltb_spec n 0); [lia|].
    destruct (round_pos_finite n 1) as [f Hf]; [lia|lia|lia|].
    exists f. split; [exact Hf|].
    pose proof (round_pos_floor n 1 n f ltac:(lia) ltac:(lia) Hn ltac:(lia) Hf).
    pose proof (round_pos_ceil n 1 n f ltac:(lia) ltac:(lia) Hn ltac:(lia) Hf).
    lia.
Qed.

Lemma den_pos f : 0 < den f.
Proof. apply dn_pos. Qed.

End PyFloatFacts.

(* ===================================================================== *)
(** ** The geometry of a thumbnail *)
(* ===================================================================== *)

Module GeometryFacts.
Import PyFloat PyFloatFacts ImageProcessor.

Lemma round_q_pos n d : 0 < n -> round_q n d = round_pos n d.
Proof.
  intros Hn. unfold round_q.
  destruct (Z.eqb_spec n 0); [lia|].
  destruct (Z.ltb_spec n 0); [lia|]. reflexivity.
Qed.

Lemma to_int_nonneg f : 0 <= num f -> to_int f = num f / den f.
Proof.
  intros H. unfold to_int. apply Z.quot_div_nonneg; [exact H|apply den_pos].
Qed.

(** The quotient of two positive integers: finite, positive and within
    [2 ^ -53] of the exact one. *)
Lemma truediv_spec a b :
  0 < a < 2 ^ 62 -> 0 < b < 2 ^ 62 ->
  exists s, truediv a b = Some s /\ 0 < num s /\
            2 ^ 53 * Z.abs (num s * b - a * den s) <= a * den s.
Proof.
  intros Ha Hb. unfold truediv.
  destruct (Z.eqb_spec b 0); [lia|].
  replace (a * Z.sgn b) with a by lia. replace (Z.abs b) with b by lia.
  rewrite round_q_pos by lia.
  destruct (round_pos_finite a b) as [s Hs]; [lia|lia|lia|].
  exists s. split; [exact Hs|].
  pose proof (round_pos_approx a b s ltac:(lia) ltac:(lia) ltac:(lia) Hs) as A.
  pose proof (den_pos s) as D.
  split; [|exact A].
  assert (0 < a * den s) by nia. nia.
Qed.

(** The product of a positive integer and a positive float, relative to the
    exact product [n * num y / den y]. *)
Lemma imul_spec n y :
  0 < n < 2 ^ 53 -> 0 < num y ->
  den y <= n * num y * 2 ^ 1022 -> n * num y < 2 ^ 1023 * den y ->
  exists t, imul n y = Some t /\
    (forall k, 0 <= k < 2 ^ 53 -> k * den y <= n * num y ->
               k * den t <= num t) /\
    2 ^ 53 * Z.abs (num t * den y - n * num y * den t) <= n * num y * den t.
Proof.
  intros Hn Hy Hnorm Hfin. unfold imul.
  destruct (of_int_exact n ltac:(lia)) as (h & -> & Eh). simpl.
  pose proof (den_pos h) as Dh. pose proof (den_pos y) as Dy.
  unfold mul. rewrite Eh.
  assert (0 < n * den h * num y) as Pn by nia.
  assert (0 < den h * den y) as Pd by nia.
  rewrite round_q_pos by exact Pn.
  destruct (round_pos_finite (n * den h * num y) (den h * den y)) as [t Ht];
    [exact Pn|exact Pd|nia|].
  exists t. split; [exact Ht|]. pose proof (den_pos t) as Dt. split.
  - intros k Hk Hle.
    apply (round_pos_floor _ _ k t Pn Pd Hk); [nia|exact Ht].
  - pose proof (round_pos_approx _ _ t Pn Pd ltac:(nia) Ht) as A.
    replace (num t * (den h * den y) - n * den h * num y * den t)
      with (den h * (num t * den y - n * num y * den t)) in A by ring.
    rewrite Z.abs_mul, (Z.abs_eq (den h)) in A by lia.
    nia.
Qed.

(** Line 60: for a width below [2 ^ 31] the cap [int(target_w * 1.6)] is
    [floor (8 * target_w / 5)]: the rounding of the literal and of the
    product does not show. *)
Lemma height_cap_spec W :
  1 <= W < 2 ^ 31 -> height_cap W = Some (8 * W / 5).
Proof.
  intros HW. unfold height_cap.
  assert (num f1_6 = 7205759403792794) as En by reflexivity.
  assert (den f1_6 = 2 ^ 52) as Ed by reflexivity.
  destruct (imul_spec W f1_6) as (t & -> & Fl & Ap);
    [lia|rewrite En; lia|rewrite En, Ed; lia|rewrite En, Ed; lia|].
  simpl. f_equal. rewrite En, Ed in *.
  pose proof (den_pos t) as Dt.
  set (N := 8 * W / 5) in *.
  assert (5 * N <= 8 * W < 5 * N + 5) as HN
    by (unfold N; Z.div_mod_to_equations; lia).
  assert (N * den t <= num t) as Lo by (apply Fl; lia).
  assert (num t < (N + 1) * den t) as Hi.
  { assert (2 ^ 53 * (num t * 2 ^ 52)
            <= (2 ^ 53 + 1) * (W * 7205759403792794) * den t) as U by lia.
    assert ((2 ^ 53 + 1) * (W * 7205759403792794)
            < 2 ^ 53 * 2 ^ 52 * (N + 1)) as V by lia.
    nia. }
  rewrite to_int_nonneg by nia.
  symmetry. apply Z.div_unique with (r := num t - N * den t); lia.
Qed.

(** Lines 55-56: the scaled height [int(orig_h * (target_w / orig_w))] is
    defined, and lies where the two roundings leave it. *)
Lemma scaled_height_spec W ow oh :
  1 <= W < 2 ^ 31 -> 1 <= ow < 2 ^ 31 -> 1 <= oh < 2 ^ 31 ->
  exists th, scaled_height W ow oh = Some th /\ 0 <= th /\
    (forall k, 0 <= k < 2 ^ 53 ->
               2 ^ 53 * ow * k <= (2 ^ 53 - 1) * oh * W -> k <= th) /\
    (forall k, (2 ^ 53 + 1) * (2 ^ 53 + 1) * oh * W
               < 2 ^ 53 * 2 ^ 53 * ow * (k + 1) -> th <= k).
Proof.
  intros HW How Hoh. unfold scaled_height.
  destruct (truediv_spec W ow) as (s & -> & Ps & As); [lia|lia|]. simpl.
  pose proof (den_pos s) as Ds.
  assert ((2 ^ 53 - 1) * (W * den s) <= 2 ^ 53 * (num s * ow)) as A1 by lia.
  assert (2 ^ 53 * (num s * ow) <= (2 ^ 53 + 1) * (W * den s)) as A2 by lia.
  assert (den s <= W * den s) as B1 by nia.
  assert (num s * ow <= num s * 2 ^ 31) as B2 by nia.
  assert (num s <= num s * ow) as B3 by nia.
  assert (W * den s <= 2 ^ 31 * den s) as B4 by nia.
  assert (num s <= oh * num s <= 2 ^ 31 * num s) as B5 by nia.
  destruct (imul_spec oh s) as (t & -> & Fl & Ap); [lia|lia|lia|lia|].
  simpl. pose proof (den_pos t) as Dt.
  assert (0 <= num t) as Pt.
  { specialize (Fl 0 ltac:(lia) ltac:(nia)). lia. }
  rewrite to_int_nonneg by exact Pt.
  exists (num t / den t). split; [reflexivity|].
  split; [apply Z.div_pos; lia|].
  assert (2 ^ 53 * (num t * den s) <= (2 ^ 53 + 1) * (oh * num s * den t))
    as A3 by lia.
  clear Ap As B1 B2 B3 B4 B5.
  assert (1 < 2 ^ 53) as Hu by lia.
  generalize dependent (2 ^ 53). intros u.
  intros A1 A2 Fl A3 Hu. split.
  - intros k Hk Hle. apply Z.div_le_lower_bound; [lia|].
    rewrite Z.mul_comm. apply Fl; [exact Hk|].
    assert (u * ow * (k * den s) <= u * ow * (oh * num s)); [|nia].
    assert (u * ow * k * den s <= (u - 1) * oh * W * den s) by nia.
    assert (oh * ((u - 1) * (W * den s)) <= oh * (u * (num s * ow))) by nia.
    lia.
  - intros k Hlt.
    assert (num t < (k + 1) * den t); [|apply Z.lt_succ_r, Z.div_lt_upper_bound; lia].
    assert (u * ow * (u * (num t * den s))
            <= u * ow * ((u + 1) * (oh * num s * den t))) as C1 by nia.
    assert ((u + 1) * oh * den t * (u * (num s * ow))
            <= (u + 1) * oh * den t * ((u + 1) * (W * den s))) as C2 by nia.
    assert (u * u * ow * num t * den s
            <= (u + 1) * (u + 1) * oh * W * den t * den s) as C3 by lia.
    assert ((u + 1) * (u + 1) * oh * W * den t * den s
            < u * u * ow * (k + 1) * den t * den s) as C4 by nia.
    assert (0 < u * u * ow * den s) by nia.
    nia.
Qed.

(** The test [target_h > max_h] of line 63 against the aspect ratio of the
    source: up to [orig_h / orig_w = 1.6] the scaled height stays within
    the cap, above it the cap is reached. *)
Lemma scaled_height_vs_cap W ow oh :
  1 <= W < 2 ^ 31 -> 1 <= ow < 2 ^ 31 -> 1 <= oh < 2 ^ 31 ->
  exists th, scaled_height W ow oh = Some th /\ 0 <= th /\
    (5 * oh <= 8 * ow -> th <= 8 * W / 5) /\
    (8 * ow < 5 * oh -> 8 * W / 5 <= th).
Proof.
  intros HW How Hoh.
  destruct (scaled_height_spec W ow oh HW How Hoh) as (th & E & P & Lo & Hi).
  exists th. split; [exact E|]. split; [exact P|].
  set (N := 8 * W / 5).
  assert (5 * N <= 8 * W < 5 * N + 5) as HN
    by (unfold N; Z.div_mod_to_equations; lia).
  split; intros R.
  - apply Hi.
    assert (5 * (oh * W) <= ow * (5 * N + 4)) as S1 by nia.
    assert ((2 ^ 53 + 1) * (2 ^ 53 + 1) * (5 * N + 4)
            < 5 * (2 ^ 53 * 2 ^ 53) * (N + 1)) as S2 by lia.
    assert ((2 ^ 53 + 1) * (2 ^ 53 + 1) * (5 * (oh * W))
            <= (2 ^ 53 + 1) * (2 ^ 53 + 1) * (ow * (5 * N + 4))) as S3 by lia.
    assert (ow * ((2 ^ 53 + 1) * (2 ^ 53 + 1) * (5 * N + 4))
            < ow * (5 * (2 ^ 53 * 2 ^ 53) * (N + 1))) as S4
      by (apply Z.mul_lt_mono_pos_l; lia).
    lia.
  - apply Lo; [lia|].
    assert (ow * (5 * N) <= ow * (8 * W)) as S1 by nia.
    assert ((8 * ow + 1) * W <= 5 * oh * W) as S2 by nia.
    assert (2 ^ 53 * (8 * ow) <= (2 ^ 53 - 1) * (8 * ow + 1)) as S3 by lia.
    assert (2 ^ 53 * (8 * ow) * W <= (2 ^ 53 - 1) * (8 * ow + 1) * W) as S4
      by (apply Z.mul_le_mono_nonneg_r; lia).
    nia.
Qed.

End GeometryFacts.

(* ===================================================================== *)
(** ** The reference libraries satisfy the interfaces *)
(* ===================================================================== *)

Module ReferenceFacts.
Import PIL img2pdf Reference.

Lemma Z_of_byte_of_Z z : Z_of_byte (byte_of_Z z) = z mod 256.
Proof.
  unfold Z_of_byte, byte_of_Z.
  pose proof (Z.mod_pos_bound z 256 ltac:(lia)) as B.
  destruct (Byte.of_N (Z.to_N (z mod 256))) as [b|] eqn:E; simpl.
  - apply Byte.to_of_N in E. rewrite E. lia.
  - apply Byte.of_N_None_iff in E. lia.
Qed.

Lemma be16_value z :
  0 <= z < 65536 ->
  256 * Z_of_byte (byte_of_Z (z / 256)) + Z_of_byte (byte_of_Z z) = z.
Proof.
  intros Hz. rewrite !Z_of_byte_of_Z.
  rewrite (Z.mod_small (z / 256)) by (Z.div_mod_to_equations; lia).
  Z.div_mod_to_equations; lia.
Qed.

Lemma pillow_ok_reference : pillow_ok pillow.
Proof.
  split.
  - intros img q (Hm & Hw & Hh). simpl. unfold frame_only_save.
    rewrite Hm. simpl.
    destruct (Z.leb_spec 1 (width img)); [|lia].
    destruct (Z.leb_spec (width img) JPEG_MAX_DIMENSION); [|lia].
    destruct (Z.leb_spec 1 (height img)); [|lia].
    destruct (Z.leb_spec (height img) JPEG_MAX_DIMENSION); [|lia].
    simpl. eauto.
  - intros img q b. simpl. unfold frame_only_save.
    destruct (_ && _) eqn:C; [|discriminate]. intros [= <-].
    split; [discriminate|].
    repeat (apply andb_prop in C as [C ?]).
    unfold JPEG_MAX_DIMENSION in *. simpl.
    rewrite !be16_value by lia.
    unfold width, height. destruct (im_size img); reflexivity.
Qed.

Lemma img2pdf_ok_reference : img2pdf_ok libimg2pdf.
Proof.
  intros images layout doc. simpl. unfold pages_convert.
  destruct (forallb _ images); [|discriminate]. intros [= <-]. reflexivity.
Qed.

End ReferenceFacts.

(* ===================================================================== *)
(** ** Colour normalisation *)
(* ===================================================================== *)

Module NormalizeFacts.
Import PIL ImageProcessor.

Section WithPillow.
Context `{P : Pillow}.

Lemma mode_in_spec img modes :
  mode_in img modes = true <-> In (im_mode img) modes.
Proof.
  unfold mode_in. rewrite existsb_exists. split.
  - intros (m & Hin & E). apply String.eqb_eq in E. congruence.
  - intros Hin. exists (im_mode img). split; [exact Hin|apply String.eqb_refl].
Qed.

Lemma convert_mode img m : im_mode (convert img m) = m.
Proof.
  unfold convert. destruct (String.eqb_spec (im_mode img) m); [assumption|reflexivity].
Qed.

Lemma convert_size img m : im_size (convert img m) = im_size img.
Proof. unfold convert. destruct (String.eqb (im_mode img) m); reflexivity. Qed.

Lemma to_rgb_mode img : im_mode (to_rgb img) = "RGB"%string.
Proof.
  unfold to_rgb. destruct (mode_in img _); [reflexivity|].
  destruct (String.eqb_spec (im_mode img) "RGB"); simpl;
    [assumption|apply convert_mode].
Qed.

Lemma to_rgb_size img : im_size (to_rgb img) = im_size img.
Proof.
  unfold to_rgb. destruct (mode_in img _); [reflexivity|].
  destruct (String.eqb (im_mode img) "RGB"); simpl;
    [reflexivity|apply convert_size].
Qed.

(** The normalised pixel at a place depends on the source through its mode,
    its palette and its pixel at that place only. *)
Lemma to_rgb_pixel_ext a b x y :
  im_mode a = im_mode b -> im_palette a = im_palette b ->
  im_pixel a x y = im_pixel b x y ->
  im_pixel (to_rgb a) x y = im_pixel (to_rgb b) x y.
Proof.
  destruct a as [m sa pa la], b as [m' sb pb lb]. simpl.
  intros <- <- Hx. unfold to_rgb, mode_in, convert. simpl.
  repeat match goal with
         | |- context [String.eqb m ?t] => destruct (String.eqb m t); simpl
         | |- context [contains ?c ?t] => destruct (contains c t); simpl
         end;
    rewrite ?Hx; reflexivity.
Qed.

Lemma MULDIV255_zero c : MULDIV255 c 0 = 0.
Proof. unfold MULDIV255. rewrite Z.mul_0_r. reflexivity. Qed.

Lemma MULDIV255_full c : 0 <= c <= 255 -> MULDIV255 c 255 = c.
Proof.
  intros Hc. unfold MULDIV255. rewrite !Z.shiftr_div_pow2 by lia.
  change (2 ^ 8) with 256. Z.div_mod_to_equations; lia.
Qed.

(** A fully transparent source leaves the background, a fully opaque one
    replaces it. *)
Lemma BLEND8_transparent bg c : 0 <= bg <= 255 -> BLEND8 0 bg c = bg.
Proof.
  intros H. unfold BLEND8. rewrite MULDIV255_zero.
  change (255 - 0) with 255. rewrite MULDIV255_full by exact H. lia.
Qed.

Lemma BLEND8_opaque bg c : 0 <= c <= 255 -> BLEND8 255 bg c = c.
Proof.
  intros H. unfold BLEND8. change (255 - 255) with 0.
  rewrite MULDIV255_zero, MULDIV255_full by exact H. lia.
Qed.

Lemma zip_blend_transparent rgb :
  length rgb = 3%nat -> zip_with (BLEND8 0) [255; 255; 255] rgb = [255; 255; 255].
Proof.
  destruct rgb as [|a [|b [|c [|d l]]]]; try discriminate. intros _. simpl.
  rewrite !BLEND8_transparent by lia. reflexivity.
Qed.

Lemma zip_blend_opaque rgb :
  length rgb = 3%nat -> Forall (fun c => 0 <= c <= 255) rgb ->
  zip_with (BLEND8 255) [255; 255; 255] rgb = rgb.
Proof.
  destruct rgb as [|a [|b [|c [|d l]]]]; try discriminate. intros _ F.
  inversion_clear F as [|? ? Fa F1]. inversion_clear F1 as [|? ? Fb F2].
  inversion_clear F2 as [|? ? Fc _]. simpl.
  rewrite !BLEND8_opaque by assumption. reflexivity.
Qed.

Lemma pasted_has_alpha img :
  In (im_mode img) ["RGBA"; "P"; "LA"]%string ->
  contains "A" (im_mode (pasted img)) = true.
Proof.
  unfold pasted. intros [E|[E|[E|[]]]]; rewrite <- E; simpl;
    rewrite <- ?E, ?convert_mode; reflexivity.
Qed.

(** C6. [load_image] on a file that decodes returns an image of mode RGB and
    of the size of the source.  A source of mode RGBA, P or LA is pasted on a
    white background through its alpha band: where the alpha is 0 the
    result is white, where it is 255 the result is the colour of the
    source.  Any other mode but RGB is converted by [convert(RGB)]. *)
Theorem load_image_is_opaque_rgb {pdf : Type}
    (fs : gmap string (file pdf)) (filepath : string) (img : image) :
  open fs filepath = Some img ->
  exists out,
    load_image fs filepath = Some out /\
    im_mode out = "RGB"%string /\
    im_size out = im_size img /\
    (In (im_mode img) ["RGBA"; "P"; "LA"]%string ->
     forall x y rgb,
       stored_rgb (im_mode (pasted img)) (im_pixel (pasted img) x y) = rgb ->
       length rgb = 3%nat ->
       (List.last (im_pixel (pasted img) x y) 0 = 0 ->
        im_pixel out x y = [255; 255; 255]) /\
       (List.last (im_pixel (pasted img) x y) 0 = 255 ->
        Forall (fun c => 0 <= c <= 255) rgb ->
        im_pixel out x y = rgb)) /\
    (~ In (im_mode img) ["RGBA"; "P"; "LA"]%string ->
     out = if String.eqb (im_mode img) "RGB" then img
           else convert img "RGB").
Proof.
  intros Hopen. exists (to_rgb img). unfold load_image. rewrite Hopen.
  split; [reflexivity|]. split; [apply to_rgb_mode|].
  split; [apply to_rgb_size|]. split.
  - intros Hin x y rgb Hrgb Hlen.
    pose proof (pasted_has_alpha img Hin) as HA.
    apply mode_in_spec in Hin. unfold to_rgb. rewrite Hin.
    fold (pasted img). rewrite HA. simpl. rewrite Hrgb.
    split.
    + intros ->. apply zip_blend_transparent, Hlen.
    + intros -> F. apply zip_blend_opaque; assumption.
  - intros Hnot. unfold to_rgb.
    destruct (mode_in img _) eqn:E; [apply mode_in_spec in E; contradiction|].
    destruct (String.eqb (im_mode img) "RGB"); reflexivity.
Qed.


End WithPillow.

Import Reference ReferenceFacts.
#[local] Existing Instance pillow.

Lemma load_image_is_opaque_rgb_witness :
  exists out,
    load_image sample_files "tall.png" = Some out /\
    im_mode out = "RGB"%string /\
    im_size out = (5, 9) /\
    im_pixel out 0 0 = [255; 255; 255].
Proof.
  destruct (load_image_is_opaque_rgb sample_files "tall.png"
              (solid "RGBA" 5 9 [10; 20; 30; 0]) eq_refl)
    as (out & Hl & Hm & Hs & Ha & _).
  exists out. split; [exact Hl|]. split; [exact Hm|]. split; [exact Hs|].
  refine (proj1 (Ha _ 0 0 [10; 20; 30] eq_refl eq_refl) eq_refl).
  simpl. auto.
Defined.


End NormalizeFacts.

(* ===================================================================== *)
(** ** Thumbnails *)
(* ===================================================================== *)

Module ThumbnailFacts.
Import PyFloat PIL ImageProcessor GeometryFacts NormalizeFacts.

Section WithPillow.
Context `{P : Pillow} {pdf : Type}.

Lemma size_eta (img : image) : im_size img = (width img, height img).
Proof. unfold width, height. destruct (im_size img); reflexivity. Qed.

Lemma resize_spec img w h :
  1 <= w -> 1 <= h ->
  exists r, resize img (w, h) = Some r /\ im_size r = (w, h) /\
            im_mode r = im_mode img /\ im_palette r = im_palette img.
Proof.
  intros Hw Hh. unfold resize. destruct (decide (im_size img = (w, h))).
  - exists img. auto.
  - simpl. destruct (Z.ltb_spec w 1); [lia|].
    destruct (Z.ltb_spec h 1); [lia|]. simpl. eauto.
Qed.

Lemma floor_cap_pos W : 1 <= W -> 1 <= Spec.floor_cap W.
Proof. intros H. unfold Spec.floor_cap. Z.div_mod_to_equations; lia. Qed.

Lemma crop_top_spec img W cap :
  0 <= W -> 0 <= cap ->
  exists top, crop img (0, 0, W, cap) = Some top /\
    im_size top = (W, cap) /\ im_mode top = im_mode img /\
    im_palette top = im_palette img /\
    forall x y, 0 <= x < width img -> 0 <= y < height img ->
                im_pixel top x y = im_pixel img x y.
Proof.
  intros HW Hc. unfold crop.
  destruct (Z.ltb_spec W 0); [lia|]. destruct (Z.ltb_spec cap 0); [lia|].
  simpl. eexists. split; [reflexivity|]. simpl.
  rewrite !Z.sub_0_r. repeat split.
  intros x y Hx Hy. rewrite !Z.add_0_r.
  destruct (Z.leb_spec 0 x); [|lia]. destruct (Z.ltb_spec x (width img)); [|lia].
  destruct (Z.leb_spec 0 y); [|lia]. destruct (Z.ltb_spec y (height img)); [|lia].
  reflexivity.
Qed.

Local Opaque crop resize to_rgb.

(** The two branches of lines 63-70, for a scaled height of at least 1. *)
Lemma thumbnail_image_spec img W th :
  1 <= W < 2 ^ 31 ->
  scaled_height W (width img) (height img) = Some th -> 1 <= th ->
  exists resized, resize img (W, th) = Some resized /\
    im_size resized = (W, th) /\
    thumbnail_image img W =
      if Spec.floor_cap W <? th
      then to_rgb <$> crop resized (0, 0, W, Spec.floor_cap W)
      else Some (to_rgb resized).
Proof.
  intros HW Hs Hth.
  destruct (resize_spec img W th ltac:(lia) Hth) as (r & Hr & Sr & _).
  exists r. split; [exact Hr|]. split; [exact Sr|].
  unfold thumbnail_image. rewrite (size_eta img), Hs. simpl.
  rewrite (height_cap_spec W HW). simpl. fold (Spec.floor_cap W).
  rewrite Hr. destruct (Spec.floor_cap W <? th); reflexivity.
Qed.

Lemma encode_thumbnail (OK : pillow_ok P) (img : image) W h :
  1 <= W -> 8 * W <= 5 * JPEG_MAX_DIMENSION -> 1 <= h <= Spec.floor_cap W ->
  im_size img = (W, h) ->
  exists b, jpeg_save (to_rgb img) 90 = Some b /\ jpeg_size b = Some (W, h).
Proof.
  intros HW Hcap Hh Hsz.
  assert (Spec.floor_cap W <= JPEG_MAX_DIMENSION) as Hc.
  { unfold Spec.floor_cap, JPEG_MAX_DIMENSION in *.
    Z.div_mod_to_equations; lia. }
  destruct (jpeg_save_encodable P OK (to_rgb img) 90) as [b Hb].
  { unfold encodable, width, height.
    rewrite to_rgb_mode, to_rgb_size, Hsz. simpl.
    unfold JPEG_MAX_DIMENSION in *. repeat split; lia. }
  exists b. split; [exact Hb|].
  destruct (jpeg_save_size P OK _ _ _ Hb) as [_ Hs].
  rewrite to_rgb_size, Hsz in Hs. exact Hs.
Qed.

Lemma width_bound W : 8 * W <= 5 * JPEG_MAX_DIMENSION -> W < 2 ^ 31.
Proof. unfold JPEG_MAX_DIMENSION. lia. Qed.

(** C1, as the code has it.  For a source that decodes, of aspect ratio
    [orig_h / orig_w] at most 1.6, and a target width [W] from 1 to 40937
    (so that JPEG can hold the result): when the scaled height
    [int(orig_h * (W / orig_w))], the double product truncated toward
    zero, is at least 1, the thumbnail is the whole resized image, not
    cropped, and its decoded size is [W] by exactly that height. *)
Theorem thumbnail_height_truncates (OK : pillow_ok P)
    (fs : gmap string (file pdf)) (filepath : string) (img : image)
    (W th : Z) :
  open fs filepath = Some img -> decoded_size img ->
  1 <= W -> 8 * W <= 5 * JPEG_MAX_DIMENSION ->
  5 * height img <= 8 * width img ->
  scaled_height W (width img) (height img) = Some th -> 1 <= th ->
  exists resized b,
    resize img (W, th) = Some resized /\
    thumbnail_image img W = Some (to_rgb resized) /\
    create_thumbnail fs filepath W = Some b /\
    jpeg_size b = Some (W, th).
Proof.
  intros Hopen [Hw Hh] HW Hcap Hratio Hs Hth.
  pose proof (width_bound W Hcap) as HW'.
  destruct (scaled_height_vs_cap W (width img) (height img))
    as (th' & Hs' & _ & Hle & _); [lia|lia|lia|].
  rewrite Hs in Hs'. injection Hs' as <-. specialize (Hle Hratio).
  fold (Spec.floor_cap W) in Hle.
  destruct (thumbnail_image_spec img W th ltac:(lia) Hs Hth)
    as (r & Hr & Sr & Ht).
  destruct (Z.ltb_spec (Spec.floor_cap W) th); [lia|].
  destruct (encode_thumbnail OK r W th HW Hcap ltac:(lia) Sr) as (b & Hb & Hd).
  exists r, b. split; [exact Hr|]. split; [exact Ht|].
  split; [|exact Hd].
  unfold create_thumbnail. rewrite Hopen. simpl. rewrite Ht. exact Hb.
Qed.



End WithPillow.

Import Reference ReferenceFacts.
#[local] Existing Instance pillow.

(** C1, as stated, fails: the 3 by 2 image has aspect ratio 2/3, and at
    width 10 its thumbnail is 6 pixels high, [int(2 * (10 / 3))], where
    [round(2 * 10 / 3)] is 7. *)
Lemma thumbnail_height_is_not_rounded :
  exists img b,
    open sample_files "wide.png" = Some img /\
    5 * height img <= 8 * width img /\
    create_thumbnail sample_files "wide.png" 10 = Some b /\
    jpeg_size b = Some (10, 6) /\
    Spec.rounded_height (width img) (height img) 10 = 7.
Proof.
  exists (solid "RGB" 3 2 [200; 10; 10]).
  eexists. split; [reflexivity|]. split; [vm_compute; discriminate|].
  split; [vm_compute; reflexivity|]. split; reflexivity.
Qed.

Lemma thumbnail_height_truncates_witness :
  exists resized b,
    resize (solid "RGB" 3 2 [200; 10; 10]) (10, 6)
      = Some resized /\
    thumbnail_image (solid "RGB" 3 2 [200; 10; 10]) 10
      = Some (to_rgb resized) /\
    create_thumbnail sample_files "wide.png" 10 = Some b /\
    jpeg_size b = Some (10, 6).
Proof.
  apply (thumbnail_height_truncates pillow_ok_reference
           sample_files "wide.png" (solid "RGB" 3 2 [200; 10; 10]) 10 6).
  - reflexivity.
  - vm_compute. repeat split; (reflexivity || discriminate).
  - lia.
  - unfold JPEG_MAX_DIMENSION. lia.
  - vm_compute. discriminate.
  - vm_compute. reflexivity.
  - lia.
Defined.




End ThumbnailFacts.

(* ===================================================================== *)
(** ** The PDF job *)
(* ===================================================================== *)

Module GeneratorFacts.
Import PyFloat PIL img2pdf PDFGenerator.

Section WithLibraries.
Context `{P : Pillow} {pdf : Type} `{I : Img2pdf pdf} `{H : Host}.

Local Abbreviation world := (@PDFGenerator.world pdf).

Lemma report_files self c t msg (w : world) :
  files (_report_progress self c t msg w) = files w.
Proof. unfold _report_progress. destruct (progress_callback self); reflexivity. Qed.

Lemma report_trace self c t msg (w : world) :
  trace (_report_progress self c t msg w) = trace w ++ reported self c t msg.
Proof.
  unfold _report_progress, reported. destruct (progress_callback self); simpl;
    [reflexivity|rewrite app_nil_r; reflexivity].
Qed.

Lemma world_eta (w : world) : World (files w) (trace w) = w.
Proof. destruct w; reflexivity. Qed.

Lemma survivors_cons (fs : gmap string (file pdf)) q p rest :
  survivors fs q (p :: rest)
  = match ImageProcessor.compress_image fs p q with
    | [] => survivors fs q rest
    | b => b :: survivors fs q rest
    end.
Proof.
  unfold survivors. simpl.
  destruct (ImageProcessor.compress_image fs p q); reflexivity.
Qed.

(** The loop of lines 64-70: it leaves the files as they are, appends the
    page actions to the trace and the surviving buffers to the list. *)
Lemma process_images_spec self total q paths :
  forall i acc (w : world),
    process_images self total q i paths acc w
    = (acc ++ survivors (files w) q paths,
       World (files w) (trace w ++ page_actions self total i paths)).
Proof.
  induction paths as [|p rest IH]; intros i acc w.
  - simpl. unfold survivors. simpl. rewrite !app_nil_r, world_eta. reflexivity.
  - cbn [process_images compress]. rewrite report_files.
    rewrite survivors_cons.
    destruct (ImageProcessor.compress_image (files w) p q) as [|x l] eqn:E;
      rewrite IH; cbn [files trace log]; rewrite report_files, report_trace;
      cbn [page_actions]; rewrite <- !app_assoc; simpl; reflexivity.
Qed.

Lemma survivors_none (fs : gmap string (file pdf)) q paths :
  Forall (fun p => ImageProcessor.compress_image fs p q = []) paths ->
  survivors fs q paths = [].
Proof.
  induction 1 as [|p rest Hp _ IH]; [reflexivity|].
  rewrite survivors_cons, Hp. exact IH.
Qed.

Lemma page_actions_not_written self total f paths :
  forall i, ~ In (Written f) (page_actions self total i paths).
Proof.
  induction paths as [|p rest IH]; intros i; simpl; [tauto|].
  rewrite in_app_iff. intros [Hin|[Hin|Hin]].
  - unfold reported in Hin.
    destruct (progress_callback self); simpl in Hin; [|tauto].
    destruct Hin as [Hin|[]]. discriminate.
  - discriminate.
  - exact (IH _ Hin).
Qed.

(** C5.  When the list of paths is empty, and likewise when the compression
    of every path fails, [generate_pdf] returns [False], the files are as
    before and no file has been written. *)
Theorem generate_pdf_without_pages self image_paths output_path page_size
    quality margin_mm (w : world) :
  image_paths = [] \/
  Forall (fun p => ImageProcessor.compress_image (files w) p quality = [])
         image_paths ->
  exists w',
    generate_pdf self image_paths output_path page_size quality margin_mm w
    = (false, w') /\
    files w' = files w /\
    (forall f, In (Written f) (trace w') -> In (Written f) (trace w)).
Proof.
  intros Hcase. destruct image_paths as [|p rest].
  - exists w. auto.
  - destruct Hcase as [Hnil|Hall]; [discriminate|].
    unfold generate_pdf. rewrite process_images_spec.
    rewrite (survivors_none _ _ _ Hall). simpl.
    eexists. split; [reflexivity|]. split; [reflexivity|].
    intros f. simpl. rewrite in_app_iff. intros [Hin|Hin]; [exact Hin|].
    exfalso. exact (page_actions_not_written self _ f (p :: rest) 0 Hin).
Qed.


(** *** The progress reports *)

Lemma progress_events_app t1 t2 :
  Spec.progress_events (t1 ++ t2)
  = Spec.progress_events t1 ++ Spec.progress_events t2.
Proof. unfold Spec.progress_events. apply omap_app. Qed.

Lemma page_events self total paths :
  progress_callback self = true ->
  forall i,
    Spec.progress_events (page_actions self total i paths)
    = map (fun c => (c, total)) (Spec.count_from (i + 1) (length paths)).
Proof.
  intros Hcb. induction paths as [|p rest IH]; intros i; [reflexivity|].
  cbn [page_actions]. unfold reported. rewrite Hcb. simpl.
  rewrite <- IH. reflexivity.
Qed.

Lemma count_from_bounds n :
  forall i, Forall (fun c => i <= c < i + Z.of_nat n) (Spec.count_from i n).
Proof.
  induction n as [|n IH]; intros i; [constructor|].
  cbn [Spec.count_from]. constructor; [lia|].
  eapply Forall_impl; [apply IH|]. simpl. intros c Hc. lia.
Qed.

Lemma non_decreasing_count_from n :
  forall i l,
    Spec.non_decreasing l = true ->
    (forall x, head l = Some x -> i + Z.of_nat n - 1 <= x) ->
    Spec.non_decreasing (Spec.count_from i n ++ l) = true.
Proof.
  induction n as [|n IH]; intros i l Hl Hhead; [exact Hl|].
  cbn [Spec.count_from app].
  specialize (IH (i + 1) l Hl).
  destruct n as [|n].
  - simpl in *. destruct l as [|b l]; [reflexivity|].
    specialize (Hhead b eq_refl).
    apply andb_true_intro. split; [apply Z.leb_le; lia|exact Hl].
  - cbn [Spec.count_from app] in *. cbn [Spec.non_decreasing].
    apply andb_true_intro. split; [apply Z.leb_le; lia|].
    apply IH. intros x Hx. specialize (Hhead x Hx). lia.
Qed.

(** The report of page [i] comes right before the file of page [i] is
    opened. *)
Lemma page_report_precedes_page self total paths :
  progress_callback self = true ->
  forall i0 i p,
    nth_error paths i = Some p ->
    exists before after,
      page_actions self total i0 paths
      = before
        ++ Progress (i0 + Z.of_nat i + 1) total
             (page_message (i0 + Z.of_nat i + 1) total)
        :: Opened p :: after /\
      length before = (2 * i)%nat.
Proof.
  intros Hcb. induction paths as [|q rest IH]; intros i0 i p Hnth.
  - destruct i; discriminate.
  - cbn [page_actions]. unfold reported. rewrite Hcb. destruct i as [|i].
    + injection Hnth as ->. exists [], (page_actions self total (i0 + 1) rest).
      split; [|reflexivity]. simpl. rewrite Z.add_0_r. reflexivity.
    + destruct (IH (i0 + 1) i p Hnth) as (before & after & E & L).
      exists (Progress (i0 + 1) total (page_message (i0 + 1) total)
              :: Opened q :: before), after.
      split.
      * simpl. rewrite E.
        replace (i0 + 1 + Z.of_nat i + 1) with (i0 + Z.of_nat (S i) + 1) by lia.
        reflexivity.
      * simpl. rewrite L. lia.
Qed.

(** [generate_pdf] on a list that is not empty, after the loop. *)
Lemma generate_pdf_unfold self p rest output_path page_size quality
    margin_mm (w : world) :
  generate_pdf self (p :: rest) output_path page_size quality margin_mm w
  = let total := Z.of_nat (length (p :: rest)) in
    let w1 := World (files w)
                (trace w ++ page_actions self total 0 (p :: rest)) in
    match survivors (files w) quality (p :: rest) with
    | [] => (false, w1)
    | _ =>
        let w2 := _report_progress self total total "正在生成 PDF..." w1 in
        match (layout <-! page_layout page_size margin_mm;
               convert (survivors (files w) quality (p :: rest)) layout) with
        | Raise e => failed self e w2
        | Ok pdf_bytes =>
            match open_wb output_path with
            | Some e => failed self e w2
            | None =>
                (true, _report_progress self total total "完成！"
                         (write output_path pdf_bytes w2))
            end
        end
    end.
Proof.
  unfold generate_pdf. rewrite process_images_spec. reflexivity.
Qed.

(** The trace of a run: the page actions, then nothing when no buffer
    survives, or the report of the assembly followed by the failure report
    or by the write and the final report. *)
Lemma generate_pdf_trace self image_paths output_path page_size quality
    margin_mm (w : world) ok w' :
  generate_pdf self image_paths output_path page_size quality margin_mm w
  = (ok, w') ->
  let total := Z.of_nat (length image_paths) in
  exists tail,
    trace w' = trace w ++ page_actions self total 0 image_paths ++ tail /\
    ((ok = false /\ tail = []) \/
     (ok = false /\ exists e,
        tail = reported self total total "正在生成 PDF..."
               ++ reported self 0 0 ("生成失败: " +:+ e)) \/
     (ok = true /\
        tail = reported self total total "正在生成 PDF..."
               ++ Written output_path
               :: reported self total total "完成！")).
Proof.
  intros Hrun total.
  destruct image_paths as [|p rest].
  - injection Hrun as <- <-. exists []. rewrite !app_nil_r. auto.
  - rewrite generate_pdf_unfold in Hrun. cbv zeta in Hrun. fold total in Hrun.
    remember (page_actions self total 0 (p :: rest)) as acts eqn:Eacts.
    assert (forall e (w0 : world),
              failed self e w0 = (ok, w') ->
              ok = false /\
              trace w' = trace w0 ++ reported self 0 0 ("生成失败: " +:+ e))
      as Hfail.
    { intros e w0. unfold failed. intros [= <- <-].
      split; [reflexivity|]. apply report_trace. }
    destruct (survivors (files w) quality (p :: rest)) as [|b bufs].
    { injection Hrun as <- <-. exists []. rewrite app_nil_r. auto. }
    destruct (rbind _ _) as [pdf_bytes|e].
    + destruct (open_wb output_path) as [e|].
      * apply Hfail in Hrun as [Hok Ht].
        exists (reported self total total "正在生成 PDF..."
                ++ reported self 0 0 ("生成失败: " +:+ e)).
        split; [|right; left; eauto].
        rewrite Ht, report_trace. simpl trace.
        rewrite <- !app_assoc. reflexivity.
      * injection Hrun as <- <-.
        exists (reported self total total "正在生成 PDF..."
                ++ Written output_path
                :: reported self total total "完成！").
        split; [|right; right; auto].
        rewrite report_trace. unfold write. simpl trace.
        rewrite report_trace. simpl trace.
        rewrite <- !app_assoc. reflexivity.
    + apply Hfail in Hrun as [Hok Ht].
      exists (reported self total total "正在生成 PDF..."
              ++ reported self 0 0 ("生成失败: " +:+ e)).
      split; [|right; left; eauto].
      rewrite Ht, report_trace. simpl trace.
      rewrite <- !app_assoc. reflexivity.
Qed.

Lemma map_fst_pairs (total : Z) (l : list Z) :
  map fst (map (fun c => (c, total)) l) = l.
Proof. rewrite map_map. simpl. apply map_id. Qed.


(** *** Page sizes *)

Lemma page_layout_fixed page_size mm margin_mm :
  (page_size = "a4"%string /\ mm = (int 210, int 297)) \/
  (page_size = "letter"%string /\ mm = (flt f215_9, flt f279_4)) ->
  exists pw ph,
    mm_to_pt (fst mm) = Ok (Some pw) /\
    mm_to_pt (snd mm) = Ok (Some ph) /\
    page_layout page_size margin_mm
    = (b <-! mm_to_pt margin_mm;
       Ok (get_layout_fun (Some (Some pw, Some ph)) (Some into)
             (Some (b, b, b, b)))).
Proof.
  intros [[-> ->]|[-> ->]]; eexists _, _;
    (split; [vm_compute; reflexivity|]);
    (split; [vm_compute; reflexivity|]);
    unfold page_layout; simpl; unfold mm_to_pt, nmul;
    destruct (to_float margin_mm) as [f|e]; reflexivity.
Qed.



End WithLibraries.

Import Reference ReferenceFacts.
#[local] Existing Instance pillow.
#[local] Existing Instance libimg2pdf.
#[local] Existing Instance host.


Lemma generate_pdf_without_pages_witness :
  exists w',
    generate_pdf (Generator true) ["notes.txt"; "missing.png"] "out.pdf"
      "a4" 90 (int 0) start = (false, w') /\
    files w' = files start /\
    (forall f, In (Written f) (trace w') -> In (Written f) (trace start)).
Proof.
  apply (generate_pdf_without_pages (Generator true)
           ["notes.txt"; "missing.png"]%string "out.pdf" "a4" 90 (int 0) start).
  right. repeat constructor.
Defined.






End GeneratorFacts.


(* ===================================================================== *)
(** ** More on the image processor *)
(* ===================================================================== *)

Module ProcessorFacts.
Import PyFloat PIL ImageProcessor PyFloatFacts GeometryFacts NormalizeFacts
       ThumbnailFacts Trace MainWindow.

Section WithPillow.
Context `{P : Pillow} {pdf : Type}.

Lemma resize_narrow img W h :
  1 <= width img -> W <= 0 -> resize img (W, h) = None.
Proof.
  intros Hw HW. unfold resize. destruct (decide (im_size img = (W, h))) as [E|_].
  - exfalso. unfold width in Hw. rewrite E in Hw. simpl in Hw. lia.
  - simpl. destruct (Z.ltb_spec W 1); [reflexivity|lia].
Qed.

(** X1.  [create_thumbnail] with a target width of 0 or less returns
    [None] for every file that decodes: the resize raises. *)
Theorem thumbnail_needs_positive_width
    (fs : gmap string (file pdf)) (filepath : string) (img : image) (W : Z) :
  open fs filepath = Some img -> 1 <= width img -> W <= 0 ->
  create_thumbnail fs filepath W = None.
Proof.
  intros Hopen Hw HW. unfold create_thumbnail. rewrite Hopen. simpl.
  unfold thumbnail_image. rewrite (size_eta img).
  destruct (scaled_height W (width img) (height img)) as [th|]; [|reflexivity].
  simpl. destruct (height_cap W) as [cap|]; [|reflexivity]. simpl.
  rewrite (resize_narrow img W th Hw HW).
  destruct (cap <? th); reflexivity.
Qed.



End WithPillow.

Import Reference ReferenceFacts Samples.
#[local] Existing Instance pillow.

Lemma thumbnail_needs_positive_width_witness :
  create_thumbnail sample_files "wide.png" 0 = None.
Proof.
  apply (thumbnail_needs_positive_width sample_files "wide.png"
           (solid "RGB" 3 2 [200; 10; 10]) 0).
  - reflexivity.
  - unfold width. simpl. lia.
  - lia.
Defined.



End ProcessorFacts.

(* ===================================================================== *)
(** ** More on the PDF job *)
(* ===================================================================== *)

Module JobFacts.
Import PyFloat PIL img2pdf PDFGenerator GeneratorFacts NormalizeFacts Trace.

Section WithLibraries.
Context `{P : Pillow} {pdf : Type} `{I : Img2pdf pdf} `{H : Host}.

Local Abbreviation world := (@PDFGenerator.world pdf).

(** X4.  When every file that decodes has a size JPEG can hold, the loop
    keeps exactly the files that decode: the pages are their compressed
    buffers, in order, and a file is left out if and only if it does not
    decode. *)
Theorem pages_are_the_files_that_decode (OK : pillow_ok P)
    (fs : gmap string (file pdf)) (quality : Z) (image_paths : list string) :
  (forall p img, In p image_paths -> open fs p = Some img ->
     1 <= width img <= JPEG_MAX_DIMENSION /\
     1 <= height img <= JPEG_MAX_DIMENSION) ->
  survivors fs quality image_paths
  = map (fun p => ImageProcessor.compress_image fs p quality)
        (List.filter (decodes fs) image_paths) /\
  (forall p, In p image_paths ->
     (ImageProcessor.compress_image fs p quality = [] <-> open fs p = None)).
Proof.
  intros Hsize.
  assert (forall p, In p image_paths ->
            nonempty (ImageProcessor.compress_image fs p quality)
            = decodes fs p) as Hne.
  { intros p Hin. unfold decodes.
    destruct (open fs p) as [img|] eqn:Hopen.
    - destruct (Hsize p img Hin Hopen) as [Hw Hh].
      destruct (jpeg_save_encodable P OK (ImageProcessor.to_rgb img) quality)
        as [b Hb].
      { unfold encodable, width, height.
        rewrite to_rgb_mode, to_rgb_size. auto. }
      unfold ImageProcessor.compress_image. rewrite Hopen. simpl.
      rewrite Hb. simpl.
      destruct (jpeg_save_size P OK _ _ _ Hb) as [Hb' _].
      destruct b; [contradiction|reflexivity].
    - unfold ImageProcessor.compress_image. rewrite Hopen. reflexivity. }
  split.
  - unfold survivors. clear Hsize.
    induction image_paths as [|p rest IH]; [reflexivity|].
    simpl. rewrite (Hne p (or_introl eq_refl)).
    destruct (decodes fs p); simpl; rewrite IH; auto.
    all: intros q Hq; apply Hne; right; exact Hq.
  - intros p Hin. specialize (Hne p Hin). unfold decodes in Hne.
    destruct (open fs p) as [img|];
      destruct (ImageProcessor.compress_image fs p quality);
      simpl in Hne; split; intros; congruence.
Qed.

Lemma opened_app t1 t2 : opened (t1 ++ t2) = opened t1 ++ opened t2.
Proof. unfold opened. apply omap_app. Qed.

Lemma written_app t1 t2 : written (t1 ++ t2) = written t1 ++ written t2.
Proof. unfold written. apply omap_app. Qed.

Lemma opened_reported self c n msg : opened (reported self c n msg) = [].
Proof. unfold reported. destruct (progress_callback self); reflexivity. Qed.

Lemma written_reported self c n msg : written (reported self c n msg) = [].
Proof. unfold reported. destruct (progress_callback self); reflexivity. Qed.

Lemma opened_page_actions self total paths :
  forall i, opened (page_actions self total i paths) = paths.
Proof.
  induction paths as [|p rest IH]; intros i; [reflexivity|].
  cbn [page_actions]. rewrite opened_app, opened_reported. simpl.
  change (omap _ (page_actions self total (i + 1) rest))
    with (opened (page_actions self total (i + 1) rest)).
  rewrite IH. reflexivity.
Qed.

Lemma written_page_actions self total paths :
  forall i, written (page_actions self total i paths) = [].
Proof.
  induction paths as [|p rest IH]; intros i; [reflexivity|].
  cbn [page_actions]. rewrite written_app, written_reported. simpl.
  apply IH.
Qed.

(** What a run adds to the trace, read as file accesses. *)
Lemma run_file_accesses self image_paths output_path page_size
    quality margin_mm (w : world) ok w' :
  generate_pdf self image_paths output_path page_size quality margin_mm w
  = (ok, w') ->
  exists new,
    trace w' = trace w ++ new /\
    opened new = image_paths /\
    written new = (if ok then [output_path] else []) /\
    (ok = true ->
     exists before after,
       new = before ++ Written output_path :: after /\
       opened before = image_paths /\ opened after = []).
Proof.
  intros Hrun.
  destruct (generate_pdf_trace _ _ _ _ _ _ _ _ _ Hrun) as (tail & Ht & Hcase).
  cbv zeta in Ht, Hcase.
  set (total := Z.of_nat (length image_paths)) in *.
  exists (page_actions self total 0 image_paths ++ tail).
  split; [exact Ht|].
  rewrite opened_app, written_app, opened_page_actions, written_page_actions.
  destruct Hcase as [[-> ->]|[[-> [e ->]]|[-> ->]]].
  - simpl. rewrite app_nil_r. repeat split. discriminate.
  - rewrite opened_app, written_app, !opened_reported, !written_reported.
    simpl. rewrite app_nil_r. repeat split. discriminate.
  - rewrite opened_app, written_app, opened_reported, written_reported.
    simpl. rewrite opened_reported, written_reported, app_nil_r.
    repeat split. intros _.
    exists (page_actions self total 0 image_paths
            ++ reported self total total "正在生成 PDF..."),
      (reported self total total "完成！").
    rewrite opened_app, opened_page_actions, !opened_reported, app_nil_r.
    rewrite <- app_assoc. auto.
Qed.


(** What a run does to the files. *)
Lemma generate_pdf_files self image_paths output_path page_size quality
    margin_mm (w : world) ok w' :
  generate_pdf self image_paths output_path page_size quality margin_mm w
  = (ok, w') ->
  (ok = false /\ files w' = files w) \/
  (ok = true /\ exists layout doc,
     survivors (files w) quality image_paths <> [] /\
     page_layout page_size margin_mm = Ok layout /\
     convert (survivors (files w) quality image_paths) layout = Ok doc /\
     open_wb output_path = None /\
     files w' = <[output_path := PdfFile doc]> (files w)).
Proof.
  intros Hrun. destruct image_paths as [|p rest].
  - injection Hrun as <- <-. auto.
  - rewrite generate_pdf_unfold in Hrun. cbv zeta in Hrun.
    destruct (survivors (files w) quality (p :: rest)) as [|b bufs].
    { injection Hrun as <- <-. auto. }
    unfold failed in Hrun.
    destruct (page_layout page_size margin_mm) as [layout|e];
      cbn [rbind] in Hrun.
    + destruct (convert (b :: bufs) layout) as [doc|e] eqn:Hconv.
      * destruct (open_wb output_path) as [e|] eqn:Hopen.
        -- injection Hrun as <- <-. left. split; [reflexivity|].
           rewrite !report_files. reflexivity.
        -- injection Hrun as <- <-. right. split; [reflexivity|].
           exists layout, doc. split; [discriminate|].
           split; [reflexivity|]. split; [exact Hconv|].
           split; [reflexivity|].
           rewrite report_files. unfold write. cbn [files log].
           rewrite report_files. reflexivity.
      * injection Hrun as <- <-. left. split; [reflexivity|].
        rewrite !report_files. reflexivity.
    + injection Hrun as <- <-. left. split; [reflexivity|].
      rewrite !report_files. reflexivity.
Qed.


Lemma result_without_observer self1 self2 image_paths output_path page_size
    quality margin_mm (w : world) :
  fst (generate_pdf self1 image_paths output_path page_size quality
         margin_mm w)
  = fst (generate_pdf self2 image_paths output_path page_size quality
           margin_mm w) /\
  files (snd (generate_pdf self1 image_paths output_path page_size quality
                margin_mm w))
  = files (snd (generate_pdf self2 image_paths output_path page_size quality
                  margin_mm w)).
Proof.
  destruct (generate_pdf self1 image_paths output_path page_size quality
              margin_mm w) as [ok1 w1] eqn:E1.
  destruct (generate_pdf self2 image_paths output_path page_size quality
              margin_mm w) as [ok2 w2] eqn:E2.
  cbn [fst snd].
  destruct (generate_pdf_files _ _ _ _ _ _ _ _ _ E1)
    as [[-> F1]|[-> (l1 & d1 & N1 & L1 & C1 & O1 & F1)]];
  destruct (generate_pdf_files _ _ _ _ _ _ _ _ _ E2)
    as [[-> F2]|[-> (l2 & d2 & N2 & L2 & C2 & O2 & F2)]].
  - rewrite F1, F2. auto.
  - exfalso. clear F1 F2. destruct image_paths as [|p rest]; [discriminate|].
    rewrite generate_pdf_unfold in E1. cbv zeta in E1.
    destruct (survivors (files w) quality (p :: rest)) as [|b bufs];
      [contradiction N2; reflexivity|].
    rewrite L2 in E1. cbn [rbind] in E1. rewrite C2, O2 in E1. discriminate.
  - exfalso. clear F1 F2. destruct image_paths as [|p rest]; [discriminate|].
    rewrite generate_pdf_unfold in E2. cbv zeta in E2.
    destruct (survivors (files w) quality (p :: rest)) as [|b bufs];
      [contradiction N1; reflexivity|].
    rewrite L1 in E2. cbn [rbind] in E2. rewrite C1, O1 in E2. discriminate.
  - rewrite F1, F2. split; [reflexivity|]. congruence.
Qed.

Lemma silent_page_actions self total paths :
  progress_callback self = false ->
  forall i, Spec.progress_events (page_actions self total i paths) = [].
Proof.
  intros Hcb. induction paths as [|p rest IH]; intros i; [reflexivity|].
  cbn [page_actions]. unfold reported. rewrite Hcb. simpl. apply IH.
Qed.


End WithLibraries.

Import Reference ReferenceFacts Samples.
#[local] Existing Instance pillow.
#[local] Existing Instance libimg2pdf.
#[local] Existing Instance host.

Lemma pages_are_the_files_that_decode_witness :
  survivors sample_files 90 ["wide.png"; "notes.txt"; "tall.png"]
  = map (fun p => ImageProcessor.compress_image sample_files p 90)
        (List.filter (decodes sample_files)
           ["wide.png"; "notes.txt"; "tall.png"]) /\
  (forall p, In p ["wide.png"; "notes.txt"; "tall.png"] ->
     (ImageProcessor.compress_image sample_files p 90 = []
      <-> open sample_files p = None)).
Proof.
  apply (pages_are_the_files_that_decode pillow_ok_reference sample_files 90
           ["wide.png"; "notes.txt"; "tall.png"]%string).
  intros p img Hin Hopen. simpl in Hin.
  destruct Hin as [<-|[<-|[<-|[]]]]; vm_compute in Hopen;
    try discriminate; injection Hopen as <-;
    unfold width, height, JPEG_MAX_DIMENSION; simpl; lia.
Defined.



End JobFacts.


(* ===================================================================== *)
(** ** The progress bar and the grid of the main window *)
(* ===================================================================== *)

Module WindowFacts.
Import PyFloat PIL ImageProcessor img2pdf PDFGenerator MainWindow.
Import PyFloatFacts GeometryFacts GeneratorFacts.

Lemma mul_comm x y : mul x y = mul y x.
Proof. unfold mul. f_equal; apply Z.mul_comm. Qed.

(** [int((current / total) * 100)] is the scaled height of a 100-row image. *)
Lemma percent_scaled c t : percent c t = scaled_height c t 100.
Proof.
  unfold percent, scaled_height, imul.
  destruct (truediv c t) as [q|]; [|reflexivity].
  cbn [mbind option_bind].
  destruct (of_int 100) as [h|]; [|reflexivity].
  cbn [mbind option_bind]. rewrite mul_comm. reflexivity.
Qed.

Lemma percent_none t : 0 < t -> percent 0 t = Some 0.
Proof.
  intros Ht. unfold percent, truediv.
  destruct (Z.eqb_spec t 0) as [E|_]; [lia|].
  rewrite Z.mul_0_l. vm_compute. reflexivity.
Qed.

Lemma truediv_self t : 0 < t -> truediv t t = Some (Float (2 ^ 52) (-52)).
Proof.
  intros Ht. unfold truediv.
  destruct (Z.eqb_spec t 0) as [E|_]; [lia|].
  rewrite Z.sgn_pos, Z.mul_1_r, Z.abs_eq, round_q_pos by lia.
  unfold round_pos.
  assert (binade t t = 0) as ->.
  { unfold binade. cbv zeta. rewrite Z.ltb_irrefl. lia. }
  change (Z.max (0 - 52) (-1074)) with (-52).
  change (dn (-52)) with (2 ^ 52). change (up (-52)) with 1.
  assert (round_half_even (t * 2 ^ 52) (t * 1) = 2 ^ 52) as ->.
  { unfold round_half_even. cbv zeta.
    rewrite Z.mul_1_r, (Z.mul_comm t), Z.div_mul, Z.mod_mul by lia.
    destruct (Z.ltb_spec (2 * 0) t); [reflexivity|lia]. }
  reflexivity.
Qed.

Lemma percent_all t : 0 < t -> percent t t = Some 100.
Proof.
  intros Ht. unfold percent. rewrite (truediv_self t Ht).
  vm_compute. reflexivity.
Qed.

(** The value of [int((current / total) * 100)] against the exact
    quotient. *)
Lemma percent_spec c t :
  0 <= c <= t -> 0 < t < 2 ^ 31 ->
  exists v, percent c t = Some v /\
    0 <= v /\ 100 * c / t - 1 <= v <= 100 * c / t /\
    ((100 * c) mod t <> 0 -> v = 100 * c / t) /\
    (c = t -> v = 100).
Proof.
  intros Hc Ht.
  destruct (Z.eq_dec c 0) as [->|Hc0].
  { exists 0. rewrite (percent_none t) by lia.
    rewrite Z.mul_0_r, Z.div_0_l, Z.mod_0_l by lia.
    repeat split; try lia. }
  destruct (Z.eq_dec c t) as [->|Hct].
  { exists 100. rewrite (percent_all t) by lia.
    rewrite Z.div_mul by lia. repeat split; try lia. }
  rewrite percent_scaled.
  destruct (scaled_height_spec c t 100) as (v & Hv & Hv0 & Lo & Hi);
    [lia|lia|lia|].
  exists v. split; [exact Hv|]. split; [exact Hv0|].
  set (k := 100 * c / t).
  assert (t * k <= 100 * c < t * k + t) as Hk
    by (unfold k; Z.div_mod_to_equations; lia).
  assert (0 <= k <= 99) as Hk99 by nia.
  assert (v <= k) as Hup.
  { apply Hi. nia. }
  assert (k - 1 <= v) as Hlo.
  { destruct (Z.eq_dec k 0) as [->|]; [lia|]. apply Lo; [lia|]. nia. }
  split; [lia|]. split; [|lia].
  intros Hmod.
  assert (t * k + 1 <= 100 * c) as Hk1
    by (unfold k in *; Z.div_mod_to_equations; lia).
  assert (k <= v); [|lia].
  apply Lo; [lia|]. nia.
Qed.


Lemma bar_value_spec c t :
  0 <= c <= t -> 0 < t < 2 ^ 31 ->
  percent c t = Some (bar_value t c) /\ 0 <= bar_value t c <= 100.
Proof.
  intros Hc Ht. destruct (percent_spec c t Hc Ht) as (v & Hv & H0 & Hb & _).
  unfold bar_value. rewrite Hv. simpl. split; [reflexivity|].
  assert (100 * c / t <= 100); [|lia].
  apply Z.div_le_upper_bound; nia.
Qed.

Lemma bar_value_mono c c' t :
  0 <= c <= c' -> c' <= t -> 0 < t < 2 ^ 31 -> bar_value t c <= bar_value t c'.
Proof.
  intros Hc Hc' Ht.
  destruct (percent_spec c t ltac:(lia) Ht) as (v & Hv & _ & Hb & _).
  destruct (percent_spec c' t ltac:(lia) Ht) as (v' & Hv' & _ & Hb' & He' & _).
  unfold bar_value. rewrite Hv, Hv'. simpl.
  destruct (Z.eq_dec c c') as [->|Hne]; [assert (v = v') by congruence; lia|].
  destruct (Z.eq_dec ((100 * c') mod t) 0) as [Hz|Hnz].
  - assert (100 * c / t + 1 <= 100 * c' / t); [|lia].
    Z.div_mod_to_equations. nia.
  - rewrite (He' Hnz).
    assert (100 * c / t <= 100 * c' / t); [|lia].
    apply Z.div_le_mono; lia.
Qed.

Lemma last_any_default {A} (l : list A) x d d' :
  List.last (x :: l) d = List.last (x :: l) d'.
Proof.
  revert x. induction l as [|y l IH]; intros x; [reflexivity|].
  change (List.last (x :: y :: l) d) with (List.last (y :: l) d).
  change (List.last (x :: y :: l) d') with (List.last (y :: l) d').
  apply IH.
Qed.

Lemma bar_values_app b e1 e2 :
  bar_values b (e1 ++ e2)
  = v1 ← bar_values b e1;
    v2 ← bar_values (List.last v1 b) e2;
    Some (v1 ++ v2).
Proof.
  revert b. induction e1 as [|[c t] e1 IH]; intros b.
  - simpl. destruct (bar_values b e2); reflexivity.
  - cbn [app bar_values].
    destruct (_on_progress b c t) as [b'|]; [|reflexivity].
    cbn [mbind option_bind]. rewrite IH.
    destruct (bar_values b' e1) as [v1|]; [|reflexivity].
    cbn [mbind option_bind fmap option_fmap option_map].
    replace (List.last (b' :: v1) b) with (List.last v1 b').
    + destruct (bar_values (List.last v1 b') e2); reflexivity.
    + destruct v1 as [|x v1]; [reflexivity|].
      change (List.last (b' :: x :: v1) b) with (List.last (x :: v1) b).
      apply last_any_default.
Qed.

Lemma bar_values_pages t :
  0 < t < 2 ^ 31 ->
  forall m i b, 0 <= i -> i + Z.of_nat m <= t ->
    bar_values b (map (fun c => (c, t)) (Spec.count_from (i + 1) m))
    = Some (map (bar_value t) (Spec.count_from (i + 1) m)).
Proof.
  intros Ht. induction m as [|m IH]; intros i b Hi Him; [reflexivity|].
  cbn [Spec.count_from map bar_values]. unfold _on_progress.
  destruct (Z.ltb_spec 0 t); [|lia].
  destruct (bar_value_spec (i + 1) t ltac:(lia) Ht) as [-> _].
  cbn [mbind option_bind]. rewrite IH by lia. reflexivity.
Qed.

Lemma pages_values_non_decreasing t :
  0 < t < 2 ^ 31 ->
  forall m i l, 0 <= i -> i + Z.of_nat m <= t ->
    Spec.non_decreasing l = true ->
    (forall x, head l = Some x -> 100 <= x) ->
    Spec.non_decreasing (map (bar_value t) (Spec.count_from (i + 1) m) ++ l) = true.
Proof.
  intros Ht. induction m as [|m IH]; intros i l Hi Him Hl Hhead;
    [exact Hl|].
  cbn [Spec.count_from map app].
  specialize (IH (i + 1) l ltac:(lia) ltac:(lia) Hl Hhead).
  remember (map (bar_value t) (Spec.count_from (i + 1 + 1) m) ++ l) as r eqn:Er.
  destruct r as [|y r']; [reflexivity|].
  change (Spec.non_decreasing (bar_value t (i + 1) :: y :: r'))
    with ((bar_value t (i + 1) <=? y) && Spec.non_decreasing (y :: r')).
  rewrite IH, andb_true_r. apply Z.leb_le.
  destruct m as [|m].
  - simpl in Er. subst l.
    pose proof (proj2 (bar_value_spec (i + 1) t ltac:(lia) Ht)).
    specialize (Hhead y eq_refl). lia.
  - cbn [Spec.count_from map app] in Er. injection Er as -> _.
    apply bar_value_mono; lia.
Qed.

Lemma last_pages_value t m :
  forall i d,
    List.last (map (bar_value t) (Spec.count_from (i + 1) (S m))) d
    = bar_value t (i + Z.of_nat (S m)).
Proof.
  induction m as [|m IH]; intros i d.
  - reflexivity.
  - change (List.last (map (bar_value t) (Spec.count_from (i + 1) (S (S m)))) d)
      with (List.last (map (bar_value t) (Spec.count_from (i + 1 + 1) (S m))) d).
    rewrite IH. f_equal. lia.
Qed.

(** X8.  [_on_progress] never raises on a report with 0 <= current <=
    total: a report with total 0 leaves the bar as it is, any other one
    sets it to a value from 0 to 100 that is the exact percentage rounded
    down, or one less when the percentage is a whole number; it reads 100
    exactly when current = total. *)
Theorem progress_bar_value bar current total :
  0 <= current <= total -> total < 2 ^ 31 ->
  exists v, _on_progress bar current total = Some v /\
    (total = 0 -> v = bar) /\
    (0 < total ->
     0 <= v <= 100 /\
     100 * current / total - 1 <= v <= 100 * current / total /\
     ((100 * current) mod total <> 0 -> v = 100 * current / total) /\
     (v = 100 <-> current = total)).
Proof.
  intros Hc Ht. unfold _on_progress.
  destruct (Z.ltb_spec 0 total) as [Hpos|Hzero].
  - destruct (percent_spec current total Hc ltac:(lia))
      as (v & Hv & H0 & Hb & He & Hfull).
    exists v. split; [exact Hv|]. split; [lia|]. intros _.
    assert (100 * current / total <= 100) as Hle
      by (apply Z.div_le_upper_bound; nia).
    repeat split; try lia; try assumption.
    intros ->.
    assert (100 <= 100 * current / total) as Hge by lia.
    assert (total * 100 <= 100 * current); [|lia].
    revert Hge. clear -Hpos. intros Hge.
    Z.div_mod_to_equations. nia.
  - exists bar. split; [reflexivity|]. split; [reflexivity|lia].
Qed.

(** The bar can be one behind: 29 of 100 shows 28. *)
Lemma progress_bar_lags : _on_progress 0 29 100 = Some 28.
Proof. vm_compute. reflexivity. Qed.

Lemma progress_bar_value_witness :
  exists v, _on_progress 7 2 3 = Some v /\
    (3 = 0 -> v = 7) /\
    (0 < 3 ->
     0 <= v <= 100 /\
     100 * 2 / 3 - 1 <= v <= 100 * 2 / 3 /\
     ((100 * 2) mod 3 <> 0 -> v = 100 * 2 / 3) /\
     (v = 100 <-> 2 = 3)).
Proof. apply (progress_bar_value 7 2 3); lia. Defined.

(** X10.  The grid has at least one column and never more than fit beside
    the 380 pixels of the panel; the card at index [i] goes to row
    [i / cols] and column [i mod cols]: the column is in range, two indices
    never share a cell, and the cards fill the grid row by row. *)
Theorem grid_cells window_width i j :
  0 <= i -> 0 <= j ->
  let cols := columns window_width in
  1 <= cols /\
  (560 <= window_width -> 380 + 180 * cols <= window_width) /\
  0 <= fst (cell window_width i) /\
  0 <= snd (cell window_width i) < cols /\
  i = fst (cell window_width i) * cols + snd (cell window_width i) /\
  (cell window_width i = cell window_width j -> i = j) /\
  (i < j ->
   fst (cell window_width i) < fst (cell window_width j) \/
   (fst (cell window_width i) = fst (cell window_width j) /\
    snd (cell window_width i) < snd (cell window_width j))).
Proof.
  intros Hi Hj cols. unfold cell. fold cols. cbn [fst snd].
  assert (1 <= cols) as Hcols by (unfold cols, columns; lia).
  split; [exact Hcols|]. split.
  { intros Hw. unfold cols, columns.
    assert (1 <= (window_width - 380) / 180)
      by (apply Z.div_le_lower_bound; lia).
    rewrite Z.max_r by lia. Z.div_mod_to_equations. lia. }
  pose proof (Z.div_mod i cols ltac:(lia)) as Di.
  pose proof (Z.div_mod j cols ltac:(lia)) as Dj.
  pose proof (Z.mod_pos_bound i cols ltac:(lia)) as Mi.
  pose proof (Z.mod_pos_bound j cols ltac:(lia)) as Mj.
  assert (0 <= i / cols) by (apply Z.div_pos; lia).
  repeat split; try lia.
  - intros [= E1 E2]. rewrite Di, Dj, E1, E2. reflexivity.
  - intros Hlt.
    destruct (Z.lt_trichotomy (i / cols) (j / cols)) as [L|[E|G]].
    + left. exact L.
    + right. split; [exact E|]. rewrite E in Di. lia.
    + exfalso. nia.
Qed.

Lemma grid_cells_witness :
  let cols := columns 1000 in
  1 <= cols /\
  (560 <= 1000 -> 380 + 180 * cols <= 1000) /\
  0 <= fst (cell 1000 4) /\
  0 <= snd (cell 1000 4) < cols /\
  4 = fst (cell 1000 4) * cols + snd (cell 1000 4) /\
  (cell 1000 4 = cell 1000 7 -> 4 = 7) /\
  (4 < 7 ->
   fst (cell 1000 4) < fst (cell 1000 7) \/
   (fst (cell 1000 4) = fst (cell 1000 7) /\
    snd (cell 1000 4) < snd (cell 1000 7))).
Proof. apply (grid_cells 1000 4 7); lia. Defined.

Section WithLibraries.
Context `{P : Pillow} {pdf : Type} `{I : Img2pdf pdf} `{H : Host}.

Local Abbreviation world := (@PDFGenerator.world pdf).

(** X9.  While a job runs in the window, the progress bar is defined at
    every report, stays between 0 and 100, never goes back, and reads 100
    once the last page has been announced: also when the run then fails. *)
Theorem bar_during_a_run bar image_paths output_path page_size quality
    margin_mm (w : world) ok w' :
  image_paths <> [] -> Z.of_nat (length image_paths) < 2 ^ 31 ->
  generate_pdf (Generator true) image_paths output_path page_size quality
    margin_mm w = (ok, w') ->
  exists new values,
    trace w' = trace w ++ new /\
    bar_values bar (Spec.progress_events new) = Some values /\
    Forall (fun v => 0 <= v <= 100) values /\
    Spec.non_decreasing values = true /\
    List.last values bar = 100.
Proof.
  intros Hne Hlen Hrun.
  destruct (generate_pdf_trace _ _ _ _ _ _ _ _ _ Hrun) as (tail & Ht & Hcase).
  cbv zeta in Ht, Hcase.
  assert (0 < Z.of_nat (length image_paths) < 2 ^ 31) as Htr.
  { split; [|exact Hlen]. destruct image_paths; [contradiction|].
    simpl length. lia. }
  set (t := Z.of_nat (length image_paths)) in *.
  set (V := map (bar_value t) (Spec.count_from (0 + 1) (length image_paths))).
  assert (Forall (fun v => 0 <= v <= 100) V) as HV.
  { unfold V. apply Forall_map.
    eapply Forall_impl; [apply count_from_bounds|].
    intros c Hc. cbv beta in Hc. apply (bar_value_spec c t); [unfold t; lia|exact Htr]. }
  assert (List.last V bar = 100) as HlastV.
  { unfold V. destruct image_paths as [|p rest]; [contradiction|].
    simpl length. rewrite last_pages_value. fold (length (p :: rest)).
    change (0 + Z.of_nat (length (p :: rest))) with t.
    unfold bar_value. rewrite percent_all by lia. reflexivity. }
  assert (forall l,
            bar_values bar
              (Spec.progress_events (page_actions (Generator true) t 0 image_paths)
               ++ l)
            = v2 ← bar_values 100 l; Some (V ++ v2)) as Hpages.
  { intros l. rewrite bar_values_app, page_events by reflexivity.
    rewrite (bar_values_pages t Htr (length image_paths) 0 bar) by (fold t; lia).
    cbn [mbind option_bind]. fold V. rewrite HlastV. reflexivity. }
  assert (bar_values 100 [(t, t); (t, t)] = Some [100; 100]) as Hend.
  { cbn [bar_values]. unfold _on_progress.
    destruct (Z.ltb_spec 0 t); [|lia]. rewrite (percent_all t) by lia.
    reflexivity. }
  assert (bar_values 100 [(t, t); (0, 0)] = Some [100; 100]) as Hfail.
  { cbn [bar_values]. unfold _on_progress.
    destruct (Z.ltb_spec 0 t); [|lia]. rewrite (percent_all t) by lia.
    reflexivity. }
  assert (Spec.non_decreasing (V ++ [100; 100]) = true) as Hnd2.
  { apply pages_values_non_decreasing; [exact Htr|lia|fold t; lia|reflexivity|].
    intros x [= <-]. lia. }
  assert (Spec.non_decreasing (V ++ []) = true) as Hnd0.
  { apply pages_values_non_decreasing; [exact Htr|lia|fold t; lia|reflexivity|].
    intros x [=]. }
  exists (page_actions (Generator true) t 0 image_paths ++ tail).
  destruct Hcase as [[_ ->]|[[_ [e ->]]|[_ ->]]].
  - exists V. split; [exact Ht|].
    rewrite progress_events_app. change (Spec.progress_events []) with (@nil (Z * Z)).
    rewrite Hpages. cbn [bar_values mbind option_bind].
    rewrite app_nil_r in *. auto.
  - exists (V ++ [100; 100]). split; [exact Ht|].
    rewrite progress_events_app.
    change (Spec.progress_events _) with [(t, t); (0, 0)] at 2.
    rewrite Hpages, Hfail. cbn [mbind option_bind].
    split; [reflexivity|]. split; [|split; [exact Hnd2|]].
    + apply Forall_app. split; [exact HV|]. repeat constructor; lia.
    + change (V ++ [100; 100]) with (V ++ [100] ++ [100]).
      rewrite app_assoc. apply last_last.
  - exists (V ++ [100; 100]). split; [exact Ht|].
    rewrite progress_events_app.
    change (Spec.progress_events _) with [(t, t); (t, t)] at 2.
    rewrite Hpages, Hend. cbn [mbind option_bind].
    split; [reflexivity|]. split; [|split; [exact Hnd2|]].
    + apply Forall_app. split; [exact HV|]. repeat constructor; lia.
    + change (V ++ [100; 100]) with (V ++ [100] ++ [100]).
      rewrite app_assoc. apply last_last.
Qed.

End WithLibraries.

Import Reference ReferenceFacts.
#[local] Existing Instance pillow.
#[local] Existing Instance libimg2pdf.
#[local] Existing Instance host.

Lemma bar_during_a_run_witness :
  exists new values,
    trace (snd (generate_pdf (Generator true)
                  ["wide.png"; "notes.txt"; "tall.png"] "" "a4" 90 (int 0)
                  start)) = trace start ++ new /\
    bar_values 40 (Spec.progress_events new) = Some values /\
    Forall (fun v => 0 <= v <= 100) values /\
    Spec.non_decreasing values = true /\
    List.last values 40 = 100.
Proof.
  apply (bar_during_a_run 40 ["wide.png"; "notes.txt"; "tall.png"]%string
           "" "a4" 90 (int 0) start false).
  - discriminate.
  - simpl. lia.
  - vm_compute. reflexivity.
Defined.

End WindowFacts.

(* ===================================================================== *)
(** ** Facts about utils/helpers.py *)
(* ===================================================================== *)

Module HelperFacts.
Import helpers.

(** A property of all 256 characters, by enumeration. *)
Ltac each_char c :=
  destruct c as [[] [] [] [] [] [] [] []]; vm_compute;
  try reflexivity; try discriminate; try tauto.

Lemma all_chars_app f s t :
  all_chars f (s ++ t) = all_chars f s && all_chars f t.
Proof.
  induction s as [|c s IH]; [reflexivity|].
  change (String c s ++ t)%string with (String c (s ++ t)%string).
  cbn [all_chars]. rewrite IH, andb_assoc. reflexivity.
Qed.

Lemma rfind_from_absent c s :
  all_chars (fun a => negb (Ascii.eqb a c)) s = true ->
  forall i, rfind_from c s i = -1.
Proof.
  induction s as [|a s IH]; intros Hs i; [reflexivity|].
  simpl in Hs. apply andb_true_iff in Hs as [Ha Hs].
  cbn [rfind_from]. rewrite (IH Hs).
  apply negb_true_iff in Ha. rewrite Ha. reflexivity.
Qed.

Lemma sanitize_legal filename :
  all_chars (fun c => negb (illegal c)) (sanitize_filename filename) = true.
Proof.
  induction filename as [|c rest IH]; [reflexivity|].
  cbn [sanitize_filename all_chars]. rewrite IH, andb_true_r.
  destruct (illegal c) eqn:E; [reflexivity|]. rewrite E. reflexivity.
Qed.

Lemma sanitize_fixes filename :
  all_chars (fun c => negb (illegal c)) filename = true ->
  sanitize_filename filename = filename.
Proof.
  induction filename as [|c rest IH]; [reflexivity|].
  cbn [sanitize_filename all_chars]. intros Hl.
  apply andb_true_iff in Hl as [Hc Hl]. apply negb_true_iff in Hc.
  rewrite Hc, (IH Hl). reflexivity.
Qed.

Lemma all_chars_impl (f g : ascii -> bool) s :
  (forall c, f c = true -> g c = true) ->
  all_chars f s = true -> all_chars g s = true.
Proof.
  intros Hfg. induction s as [|c s IH]; [reflexivity|].
  simpl. intros Hs. apply andb_true_iff in Hs as [Hc Hs].
  rewrite (Hfg c Hc), (IH Hs). reflexivity.
Qed.

(** X11.  [sanitize_filename] keeps the length of the name and every legal
    character in its place, puts an underscore for every illegal one, and
    leaves no illegal character: the result has no path separator of either
    kind, a second pass changes nothing, and a name without illegal
    characters is returned as it is. *)
Theorem sanitize_filename_clean filename :
  String.length (sanitize_filename filename) = String.length filename /\
  (forall i c, String.get i filename = Some c ->
     String.get i (sanitize_filename filename)
     = Some (if illegal c then "_"%char else c)) /\
  all_chars (fun c => negb (illegal c)) (sanitize_filename filename) = true /\
  rfind "/" (sanitize_filename filename) = -1 /\
  rfind "\" (sanitize_filename filename) = -1 /\
  sanitize_filename (sanitize_filename filename) = sanitize_filename filename /\
  (all_chars (fun c => negb (illegal c)) filename = true ->
   sanitize_filename filename = filename).
Proof.
  split; [|split].
  - induction filename as [|c rest IH]; [reflexivity|].
    cbn [sanitize_filename String.length]. rewrite IH. reflexivity.
  - induction filename as [|c rest IH]; intros i a; [discriminate|].
    destruct i as [|i]; cbn [sanitize_filename String.get].
    + intros [= ->]. reflexivity.
    + apply IH.
  - pose proof (sanitize_legal filename) as Hl.
    split; [exact Hl|]. split; [|split; [|split]].
    + apply rfind_from_absent. revert Hl. apply all_chars_impl.
      intros c. each_char c.
    + apply rfind_from_absent. revert Hl. apply all_chars_impl.
      intros c. each_char c.
    + apply sanitize_fixes, Hl.
    + apply sanitize_fixes.
Qed.

(** *** The sort key *)

Lemma natural_sort_key_pieces s :
  natural_sort_key s = mapM piece_key (re_split_digits s).
Proof. reflexivity. Qed.

Lemma append_cons c s t :
  (String c s ++ t)%string = String c (s ++ t)%string.
Proof. reflexivity. Qed.

Lemma length_append s t :
  String.length (s ++ t) = (String.length s + String.length t)%nat.
Proof.
  induction s as [|c s IH]; [reflexivity|].
  rewrite append_cons. cbn [String.length]. rewrite IH. reflexivity.
Qed.

Lemma append_nil_r s : (s ++ "")%string = s.
Proof.
  induction s as [|c s IH]; [reflexivity|].
  rewrite append_cons, IH. reflexivity.
Qed.

Lemma append_assoc s t u : ((s ++ t) ++ u)%string = (s ++ t ++ u)%string.
Proof.
  induction s as [|c s IH]; [reflexivity|].
  rewrite !append_cons, IH. reflexivity.
Qed.

Lemma append_nonempty s c : String.eqb (s ++ String c "") "" = false.
Proof. destruct s; reflexivity. Qed.

Lemma decimal_isdigit c : is_decimal c = true -> char_isdigit c = true.
Proof. unfold char_isdigit. intros ->. reflexivity. Qed.

(** A piece without digits of either kind is lowered. *)
Lemma text_piece text :
  all_chars (fun c => negb (char_isdigit c)) text = true ->
  piece_key text = Some (Str (lower text)).
Proof.
  intros Ht. unfold piece_key, isdigit. destruct text as [|c text]; [reflexivity|].
  simpl in Ht. apply andb_true_iff in Ht as [Hc _].
  apply negb_true_iff in Hc. cbn [String.eqb negb all_chars andb].
  rewrite Hc. reflexivity.
Qed.

(** A run of digits is converted. *)
Lemma digit_piece digits :
  all_chars is_decimal digits = true -> String.eqb digits "" = false ->
  (String.length digits <= int_max_str_digits)%nat ->
  piece_key digits = Some (Int (digits_value 0 digits)).
Proof.
  intros Hd Hne Hlen. unfold piece_key, isdigit, int.
  rewrite Hne, Hd. cbn [negb andb].
  rewrite (all_chars_impl _ _ _ decimal_isdigit Hd).
  destruct (Nat.leb_spec (String.length digits) int_max_str_digits); [|lia].
  reflexivity.
Qed.

(** A name without superscripts, of a length that [int] accepts, has a
    key, and its key alternates. *)
Lemma split_key s :
  forall text digits,
    all_chars (fun c => negb (char_isdigit c)) text = true ->
    all_chars is_decimal digits = true ->
    all_chars (fun c => negb (is_superscript c)) s = true ->
    (String.length digits + String.length s <= int_max_str_digits)%nat ->
    exists k, mapM piece_key (split_digits text digits s) = Some k /\
              alternating true k = true.
Proof.
  induction s as [|c rest IH]; intros text digits Ht Hd Hs Hlen.
  - cbn [split_digits]. destruct (String.eqb digits "") eqn:E.
    + exists [Str (lower text)]. cbn [mapM]. rewrite (text_piece text Ht).
      split; reflexivity.
    + exists [Str (lower text); Int (digits_value 0 digits); Str ""].
      cbn [mapM]. rewrite (text_piece text Ht).
      rewrite (digit_piece digits Hd E) by (simpl in Hlen; lia).
      split; reflexivity.
  - cbn [all_chars] in Hs. apply andb_true_iff in Hs as [Hc Hs].
    cbn [String.length] in Hlen. cbn [split_digits].
    destruct (is_decimal c) eqn:Ec.
    + apply IH; [exact Ht| |exact Hs|].
      * rewrite all_chars_app, Hd. simpl. rewrite Ec. reflexivity.
      * rewrite length_append. simpl. lia.
    + assert (char_isdigit c = false) as Hcd.
      { unfold char_isdigit. rewrite Ec. apply negb_true_iff in Hc.
        rewrite Hc. reflexivity. }
      destruct (String.eqb digits "") eqn:E.
      * apply IH; [|reflexivity|exact Hs|simpl; lia].
        rewrite all_chars_app, Ht. simpl. rewrite Hcd. reflexivity.
      * destruct (IH (String c "") ""%string) as (k & Hk & Sk);
          [simpl; rewrite Hcd; reflexivity|reflexivity|exact Hs|simpl; lia|].
        exists (Str (lower text) :: Int (digits_value 0 digits) :: k).
        cbn [mapM]. rewrite (text_piece text Ht).
        rewrite (digit_piece digits Hd E) by lia.
        rewrite Hk. split; [reflexivity|]. simpl. exact Sk.
Qed.

Lemma natural_sort_key_defined s :
  all_chars (fun c => negb (is_superscript c)) s = true ->
  (String.length s <= int_max_str_digits)%nat ->
  exists k, natural_sort_key s = Some k /\ alternating true k = true.
Proof.
  intros Hs Hlen. rewrite natural_sort_key_pieces.
  apply split_key; [reflexivity|reflexivity|exact Hs|simpl; lia].
Qed.

Lemma ltb_cases s t :
  String.eqb s t = false ->
  (String.ltb s t = true /\ String.ltb t s = false) \/
  (String.ltb s t = false /\ String.ltb t s = true).
Proof.
  intros Hne. apply String.eqb_neq in Hne. unfold String.ltb.
  rewrite (String.compare_antisym t s).
  destruct (String.compare s t) eqn:E; simpl; auto.
  apply String.compare_eq_iff in E. contradiction.
Qed.

(** Two keys of the same form are comparable, and one of three holds. *)
Lemma alternating_trichotomy k1 :
  forall b k2,
    alternating b k1 = true -> alternating b k2 = true ->
    (list_lt k1 k2 = Some true /\ list_lt k2 k1 = Some false) \/
    (list_lt k1 k2 = Some false /\ list_lt k2 k1 = Some true) \/
    (list_lt k1 k2 = Some false /\ list_lt k2 k1 = Some false /\ k1 = k2).
Proof.
  induction k1 as [|x k1 IH]; intros b k2 H1 H2.
  - destruct k2 as [|y k2]; simpl; auto.
  - destruct k2 as [|y k2]; [simpl; auto|].
    destruct x as [m|s], y as [n|t], b; simpl in H1, H2; try discriminate.
    + cbn [list_lt elem_eq elem_lt]. rewrite (Z.eqb_sym n m).
      destruct (Z.eqb_spec m n) as [->|Hne].
      * destruct (IH true k2 H1 H2) as [[A B]|[[A B]|(A & B & ->)]]; auto.
      * destruct (Z.ltb_spec m n), (Z.ltb_spec n m); auto; lia.
    + cbn [list_lt elem_eq elem_lt]. rewrite (String.eqb_sym t s).
      destruct (String.eqb s t) eqn:E.
      * apply String.eqb_eq in E as ->.
        destruct (IH false k2 H1 H2) as [[A B]|[[A B]|(A & B & ->)]]; auto.
      * destruct (ltb_cases s t E) as [[-> ->]|[-> ->]]; auto.
Qed.

Lemma compare_lt_trans s :
  forall t u,
    String.compare s t = Lt -> String.compare t u = Lt ->
    String.compare s u = Lt.
Proof.
  induction s as [|a s IH]; intros [|b t] [|c u]; cbn [String.compare];
    try discriminate; try reflexivity.
  unfold Ascii.compare.
  destruct (N.compare_spec (N_of_ascii a) (N_of_ascii b)) as [Eab|Lab|Gab];
    try discriminate;
    destruct (N.compare_spec (N_of_ascii b) (N_of_ascii c)) as [Ebc|Lbc|Gbc];
    try discriminate; intros H1 H2.
  - rewrite Eab, Ebc, N.compare_refl. exact (IH t u H1 H2).
  - rewrite Eab. apply N.compare_lt_iff in Lbc. rewrite Lbc. reflexivity.
  - rewrite <- Ebc. apply N.compare_lt_iff in Lab. rewrite Lab. reflexivity.
  - assert (N_of_ascii a < N_of_ascii c)%N as L by lia.
    apply N.compare_lt_iff in L. rewrite L. reflexivity.
Qed.

Lemma ltb_trans s t u :
  String.ltb s t = true -> String.ltb t u = true -> String.ltb s u = true.
Proof.
  unfold String.ltb. intros H1 H2.
  destruct (String.compare s t) eqn:E1; try discriminate.
  destruct (String.compare t u) eqn:E2; try discriminate.
  rewrite (compare_lt_trans s t u E1 E2). reflexivity.
Qed.

Lemma ltb_neq s t : String.ltb s t = true -> String.eqb s t = false.
Proof.
  intros Hlt. apply String.eqb_neq. intros ->.
  unfold String.ltb in Hlt. pose proof (String.compare_antisym t t) as A.
  destruct (String.compare t t); discriminate.
Qed.

(** The order on keys of the same form is transitive. *)
Lemma alternating_trans k1 :
  forall b k2 k3,
    alternating b k1 = true -> alternating b k2 = true ->
    alternating b k3 = true ->
    list_lt k1 k2 = Some true -> list_lt k2 k3 = Some true ->
    list_lt k1 k3 = Some true.
Proof.
  induction k1 as [|x k1 IH]; intros b [|y k2] [|z k3] H1 H2 H3 L12 L23;
    try discriminate; try reflexivity.
  destruct x as [m|s], y as [n|t], z as [p|u], b; simpl in H1, H2, H3;
    try discriminate; cbn [list_lt elem_eq elem_lt] in *.
  - destruct (Z.eqb_spec m n) as [->|Hmn].
    + destruct (Z.eqb_spec n p) as [->|Hnp]; [|exact L23].
      exact (IH true k2 k3 H1 H2 H3 L12 L23).
    + injection L12 as L12. apply Z.ltb_lt in L12.
      destruct (Z.eqb_spec n p) as [->|Hnp].
      * destruct (Z.eqb_spec m p); [lia|]. f_equal. apply Z.ltb_lt. lia.
      * injection L23 as L23. apply Z.ltb_lt in L23.
        destruct (Z.eqb_spec m p); [lia|]. f_equal. apply Z.ltb_lt. lia.
  - destruct (String.eqb s t) eqn:Est.
    + apply String.eqb_eq in Est as ->.
      destruct (String.eqb t u) eqn:Etu; [|exact L23].
      exact (IH false k2 k3 H1 H2 H3 L12 L23).
    + injection L12 as L12.
      destruct (String.eqb t u) eqn:Etu.
      * apply String.eqb_eq in Etu as <-. rewrite Est, L12. reflexivity.
      * injection L23 as L23.
        pose proof (ltb_trans s t u L12 L23) as L13.
        rewrite (ltb_neq s u L13), L13. reflexivity.
Qed.

(** X12.  Names without superscript digits, of at most 4300 characters,
    have sort keys, and their keys can always be compared: no comparison
    raises [TypeError], of two keys either one is smaller or they are
    equal, and the order is transitive; so [sorted] with this key is well
    defined. *)
Theorem natural_keys_are_ordered s1 s2 s3 :
  all_chars (fun c => negb (is_superscript c)) s1 = true ->
  all_chars (fun c => negb (is_superscript c)) s2 = true ->
  all_chars (fun c => negb (is_superscript c)) s3 = true ->
  (String.length s1 <= int_max_str_digits)%nat ->
  (String.length s2 <= int_max_str_digits)%nat ->
  (String.length s3 <= int_max_str_digits)%nat ->
  exists k1 k2 k3,
    natural_sort_key s1 = Some k1 /\
    natural_sort_key s2 = Some k2 /\
    natural_sort_key s3 = Some k3 /\
    ((list_lt k1 k2 = Some true /\ list_lt k2 k1 = Some false) \/
     (list_lt k1 k2 = Some false /\ list_lt k2 k1 = Some true) \/
     (list_lt k1 k2 = Some false /\ list_lt k2 k1 = Some false /\
      k1 = k2)) /\
    (list_lt k1 k2 = Some true -> list_lt k2 k3 = Some true ->
     list_lt k1 k3 = Some true).
Proof.
  intros P1 P2 P3 L1 L2 L3.
  destruct (natural_sort_key_defined s1 P1 L1) as (k1 & K1 & A1).
  destruct (natural_sort_key_defined s2 P2 L2) as (k2 & K2 & A2).
  destruct (natural_sort_key_defined s3 P3 L3) as (k3 & K3 & A3).
  exists k1, k2, k3. repeat (split; [assumption|]). split.
  - exact (alternating_trichotomy k1 true k2 A1 A2).
  - exact (alternating_trans k1 true k2 k3 A1 A2 A3).
Qed.

(** *** The pieces of a name *)

Lemma split_text p :
  all_chars (fun c => negb (is_decimal c)) p = true ->
  forall text r,
    split_digits text "" (p ++ r) = split_digits (text ++ p) "" r.
Proof.
  induction p as [|c p IH]; intros Hp text r.
  - rewrite append_nil_r. reflexivity.
  - cbn [all_chars] in Hp. apply andb_true_iff in Hp as [Hc Hp].
    apply negb_true_iff in Hc.
    rewrite append_cons. cbn [split_digits]. rewrite Hc. cbn [String.eqb].
    rewrite (IH Hp), append_assoc. reflexivity.
Qed.

Lemma split_run d :
  all_chars is_decimal d = true ->
  forall text digits r,
    split_digits text digits (d ++ r) = split_digits text (digits ++ d) r.
Proof.
  induction d as [|c d IH]; intros Hd text digits r.
  - rewrite append_nil_r. reflexivity.
  - cbn [all_chars] in Hd. apply andb_true_iff in Hd as [Hc Hd].
    rewrite append_cons. cbn [split_digits]. rewrite Hc.
    rewrite (IH Hd), append_assoc. reflexivity.
Qed.

Lemma split_run_end text digits r :
  String.eqb digits "" = false -> no_leading_digit r = true ->
  split_digits text digits r = text :: digits :: re_split_digits r.
Proof.
  intros Hd Hr. destruct r as [|c r].
  - cbn [split_digits]. rewrite Hd. reflexivity.
  - cbn [no_leading_digit] in Hr. apply negb_true_iff in Hr.
    unfold re_split_digits. cbn [split_digits]. rewrite Hr, Hd. reflexivity.
Qed.

(** A name made of a text without digits, a run of digits and a rest that
    does not begin with a digit. *)
Lemma re_split_number p d r :
  all_chars (fun c => negb (is_decimal c)) p = true ->
  all_chars is_decimal d = true -> String.eqb d "" = false ->
  no_leading_digit r = true ->
  re_split_digits (p ++ d ++ r) = p :: d :: re_split_digits r.
Proof.
  intros Hp Hd Hne Hr. unfold re_split_digits at 1.
  rewrite (split_text p Hp), (split_run d Hd).
  apply split_run_end; assumption.
Qed.

Lemma not_digit_not_decimal c :
  negb (char_isdigit c) = true -> negb (is_decimal c) = true.
Proof. unfold char_isdigit. destruct (is_decimal c); [discriminate|reflexivity]. Qed.

Lemma natural_sort_key_number p d r :
  all_chars (fun c => negb (char_isdigit c)) p = true ->
  all_chars is_decimal d = true -> String.eqb d "" = false ->
  no_leading_digit r = true ->
  all_chars (fun c => negb (is_superscript c)) r = true ->
  (String.length (p ++ d ++ r) <= int_max_str_digits)%nat ->
  exists k,
    natural_sort_key (p ++ d ++ r)
    = Some (Str (lower p) :: Int (digits_value 0 d) :: k).
Proof.
  intros Hp Hd Hne Hr Hs Hlen. rewrite !length_append in Hlen.
  destruct (natural_sort_key_defined r Hs ltac:(lia)) as (k & Hk & _).
  exists k. rewrite natural_sort_key_pieces in *.
  rewrite (re_split_number p d r
             (all_chars_impl _ _ _ not_digit_not_decimal Hp) Hd Hne Hr).
  cbn [mapM]. rewrite (text_piece p Hp), (digit_piece d Hd Hne) by lia.
  rewrite Hk. reflexivity.
Qed.



Lemma natural_keys_are_ordered_witness :
  exists k1 k2 k3,
    natural_sort_key "10.png" = Some k1 /\
    natural_sort_key "a.png" = Some k2 /\
    natural_sort_key "" = Some k3 /\
    ((list_lt k1 k2 = Some true /\ list_lt k2 k1 = Some false) \/
     (list_lt k1 k2 = Some false /\ list_lt k2 k1 = Some true) \/
     (list_lt k1 k2 = Some false /\ list_lt k2 k1 = Some false /\
      k1 = k2)) /\
    (list_lt k1 k2 = Some true -> list_lt k2 k3 = Some true ->
     list_lt k1 k3 = Some true).
Proof.
  apply (natural_keys_are_ordered "10.png" "a.png" "");
    try reflexivity; vm_compute; lia.
Defined.

(** *** Upper and lower case *)

Lemma lower_decimal c : is_decimal (char_lower c) = is_decimal c.
Proof. each_char c. Qed.

Lemma lower_isdigit c : char_isdigit (char_lower c) = char_isdigit c.
Proof. each_char c. Qed.

Lemma lower_lower_char c : char_lower (char_lower c) = char_lower c.
Proof. each_char c. Qed.

Lemma decimal_lower c : is_decimal c = true -> char_lower c = c.
Proof. each_char c. Qed.

Lemma lower_app s t : lower (s ++ t) = (lower s ++ lower t)%string.
Proof.
  induction s as [|c s IH]; [reflexivity|].
  rewrite append_cons. cbn [lower]. rewrite IH. reflexivity.
Qed.

Lemma lower_lower s : lower (lower s) = lower s.
Proof.
  induction s as [|c s IH]; [reflexivity|].
  cbn [lower]. rewrite lower_lower_char, IH. reflexivity.
Qed.

Lemma lower_empty s : String.eqb (lower s) "" = String.eqb s "".
Proof. destruct s; reflexivity. Qed.

Lemma lower_length s : String.length (lower s) = String.length s.
Proof. induction s as [|c s IH]; [reflexivity|]. cbn [lower String.length]. rewrite IH. reflexivity. Qed.

Lemma lower_all_decimal s :
  all_chars is_decimal (lower s) = all_chars is_decimal s.
Proof.
  induction s as [|c s IH]; [reflexivity|].
  cbn [lower all_chars]. rewrite lower_decimal, IH. reflexivity.
Qed.

Lemma lower_all_isdigit s :
  all_chars char_isdigit (lower s) = all_chars char_isdigit s.
Proof.
  induction s as [|c s IH]; [reflexivity|].
  cbn [lower all_chars]. rewrite lower_isdigit, IH. reflexivity.
Qed.

Lemma lower_digits s : all_chars is_decimal s = true -> lower s = s.
Proof.
  induction s as [|c s IH]; [reflexivity|].
  cbn [all_chars lower]. intros Hs. apply andb_true_iff in Hs as [Hc Hs].
  rewrite (decimal_lower c Hc), (IH Hs). reflexivity.
Qed.

Lemma piece_key_lower text : piece_key (lower text) = piece_key text.
Proof.
  unfold piece_key, isdigit, int.
  rewrite lower_empty, lower_all_isdigit, lower_all_decimal, lower_length,
    lower_lower.
  destruct (all_chars is_decimal text) eqn:E; [|reflexivity].
  rewrite (lower_digits text E). reflexivity.
Qed.

Lemma split_digits_lower s :
  forall text digits,
    split_digits (lower text) (lower digits) (lower s)
    = map lower (split_digits text digits s).
Proof.
  induction s as [|c s IH]; intros text digits.
  - cbn [lower split_digits]. rewrite lower_empty.
    destruct (String.eqb digits ""); reflexivity.
  - cbn [lower split_digits]. rewrite lower_decimal, lower_empty.
    destruct (is_decimal c).
    + rewrite <- IH, lower_app. reflexivity.
    + destruct (String.eqb digits "").
      * rewrite <- IH, lower_app. reflexivity.
      * cbn [map]. rewrite <- IH. reflexivity.
Qed.

Lemma natural_sort_key_lower s :
  natural_sort_key (lower s) = natural_sort_key s.
Proof.
  rewrite !natural_sort_key_pieces. unfold re_split_digits.
  change (split_digits "" "" (lower s))
    with (split_digits (lower "") (lower "") (lower s)).
  rewrite split_digits_lower.
  induction (split_digits "" "" s) as [|x l IH]; [reflexivity|].
  cbn [map mapM]. rewrite piece_key_lower, IH. reflexivity.
Qed.

(** X14.  The sort key does not see upper and lower case: two names that
    are the same once lowered have the same key (or both raise), so neither
    sorts before the other. *)
Theorem key_ignores_case s1 s2 :
  lower s1 = lower s2 -> natural_sort_key s1 = natural_sort_key s2.
Proof.
  intros E. rewrite <- (natural_sort_key_lower s1), E.
  apply natural_sort_key_lower.
Qed.

Lemma key_ignores_case_witness :
  natural_sort_key "Page10.PNG" = natural_sort_key "pAGE10.png".
Proof. apply (key_ignores_case "Page10.PNG" "pAGE10.png"). reflexivity. Defined.

(** *** Superscript digits *)

Lemma superscript_not_decimal c : is_superscript c = true -> is_decimal c = false.
Proof. each_char c. Qed.

Lemma superscript_isdigit c : is_superscript c = true -> char_isdigit c = true.
Proof. unfold char_isdigit. intros ->. apply orb_true_r. Qed.

Lemma superscript_piece sup :
  String.eqb sup "" = false -> all_chars is_superscript sup = true ->
  piece_key sup = None.
Proof.
  intros Hne Hs. unfold piece_key, isdigit, int.
  rewrite Hne, (all_chars_impl _ _ _ superscript_isdigit Hs). cbn [negb andb].
  destruct sup as [|c sup]; [discriminate|].
  cbn [all_chars] in *. apply andb_true_iff in Hs as [Hc _].
  rewrite (superscript_not_decimal c Hc). reflexivity.
Qed.

Lemma mapM_raises {A B} (f : A -> option B) x l :
  In x l -> f x = None -> mapM f l = None.
Proof.
  intros Hin Hx. induction l as [|y l IH]; [destruct Hin|].
  cbn [mapM]. destruct Hin as [->|Hin].
  - rewrite Hx. reflexivity.
  - rewrite (IH Hin). destruct (f y); reflexivity.
Qed.

Lemma split_digits_head s :
  forall text digits,
    String.eqb digits "" = false ->
    exists rest, split_digits text digits s = text :: rest.
Proof.
  induction s as [|c s IH]; intros text digits Hd; cbn [split_digits].
  - rewrite Hd. eauto.
  - destruct (is_decimal c).
    + apply IH, append_nonempty.
    + rewrite Hd. eauto.
Qed.

Lemma split_superscripts sup b :
  all_chars is_superscript sup = true -> digit_or_end_after b = true ->
  forall t, In (t ++ sup)%string (split_digits t "" (sup ++ b)).
Proof.
  intros Hs Hb. induction sup as [|c sup IH]; intros t.
  - rewrite append_nil_r. change ("" ++ b)%string with b.
    destruct b as [|d b]; [left; reflexivity|].
    cbn [digit_or_end_after] in Hb. cbn [split_digits]. rewrite Hb.
    destruct (split_digits_head b t ("" ++ String d "")%string eq_refl)
      as [rest ->].
    left. reflexivity.
  - cbn [all_chars] in Hs. apply andb_true_iff in Hs as [Hc Hs].
    rewrite append_cons. cbn [split_digits].
    rewrite (superscript_not_decimal c Hc). cbn [String.eqb].
    replace (t ++ String c sup)%string with ((t ++ String c "") ++ sup)%string
      by (rewrite append_assoc; reflexivity).
    apply IH, Hs.
Qed.

Lemma split_superscript_piece c sup b :
  is_superscript c = true -> all_chars is_superscript sup = true ->
  digit_or_end_after b = true ->
  forall a text digits,
    digit_or_start_before a = true ->
    (a = ""%string ->
     (text = ""%string /\ digits = ""%string) \/ String.eqb digits "" = false) ->
    In (String c sup) (split_digits text digits (a ++ String c sup ++ b)).
Proof.
  intros Hc Hs Hb.
  pose proof (superscript_not_decimal c Hc) as Hnd.
  assert (In (String c sup) (split_digits (String c "") "" (sup ++ b)))
    as Hrun by exact (split_superscripts sup b Hs Hb (String c "")).
  induction a as [|x a IH]; intros text digits Ha Hstate.
  - change ("" ++ String c sup ++ b)%string with (String c (sup ++ b)).
    cbn [split_digits]. rewrite Hnd.
    destruct (String.eqb digits "") eqn:E.
    + destruct (Hstate eq_refl) as [[-> _]|F]; [|discriminate].
      exact Hrun.
    + right. right. exact Hrun.
  - rewrite append_cons. cbn [split_digits].
    destruct a as [|y a].
    + cbn [digit_or_start_before] in Ha. rewrite Ha.
      apply IH; [reflexivity|]. intros _. right. apply append_nonempty.
    + assert (digit_or_start_before (String y a) = true) as Ha' by exact Ha.
      destruct (is_decimal x).
      * apply IH; [exact Ha'|discriminate].
      * destruct (String.eqb digits "").
        -- apply IH; [exact Ha'|discriminate].
        -- right. right. apply IH; [exact Ha'|discriminate].
Qed.

(** X15.  A superscript digit can make the key raise: when a run of
    superscript digits stands alone between two runs of digits, or between
    a run of digits and an end of the name, [isdigit] accepts it and [int]
    raises [ValueError]. *)
Theorem superscript_piece_raises a sup b :
  String.eqb sup "" = false -> all_chars is_superscript sup = true ->
  digit_or_start_before a = true -> digit_or_end_after b = true ->
  natural_sort_key (a ++ sup ++ b) = None.
Proof.
  intros Hne Hs Ha Hb. rewrite natural_sort_key_pieces.
  apply (mapM_raises piece_key sup); [|exact (superscript_piece sup Hne Hs)].
  destruct sup as [|c sup]; [discriminate|].
  cbn [all_chars] in Hs. apply andb_true_iff in Hs as [Hc Hs].
  apply (split_superscript_piece c sup b Hc Hs Hb a); [exact Ha|].
  intros _. left. split; reflexivity.
Qed.

Lemma superscript_piece_raises_witness :
  natural_sort_key ("1" ++ String "178" "" ++ "3.png") = None.
Proof.
  apply (superscript_piece_raises "1" (String "178" "") "3.png");
    reflexivity.
Defined.

End HelperFacts.

(* ===================================================================== *)
(** ** Facts about the file name extension *)
(* ===================================================================== *)

Module PathFacts.
Import helpers HelperFacts.

Lemma rfind_from_range c s :
  forall i, 0 <= i ->
    rfind_from c s i = -1 \/
    i <= rfind_from c s i < i + Z.of_nat (String.length s).
Proof.
  induction s as [|a s IH]; intros i Hi; [left; reflexivity|].
  cbn [rfind_from String.length].
  destruct (IH (i + 1) ltac:(lia)) as [->|Hr].
  - cbn [Z.leb Z.compare]. destruct (Ascii.eqb a c); [right|left]; lia.
  - destruct (Z.leb_spec 0 (rfind_from c s (i + 1))); [right|]; lia.
Qed.

Lemma rfind_from_app c s t :
  forall i, 0 <= i ->
    rfind_from c (s ++ t) i
    = if 0 <=? rfind_from c t (i + Z.of_nat (String.length s))
      then rfind_from c t (i + Z.of_nat (String.length s))
      else rfind_from c s i.
Proof.
  induction s as [|a s IH]; intros i Hi.
  - change ("" ++ t)%string with t. cbn [String.length rfind_from].
    rewrite Z.add_0_r.
    destruct (rfind_from_range c t i Hi) as [->|Hr]; [reflexivity|].
    destruct (Z.leb_spec 0 (rfind_from c t i)); [reflexivity|lia].
  - rewrite append_cons. cbn [rfind_from String.length].
    rewrite (IH (i + 1)) by lia.
    replace (i + 1 + Z.of_nat (String.length s))
      with (i + Z.of_nat (S (String.length s))) by lia.
    set (rt := rfind_from c t (i + Z.of_nat (S (String.length s)))).
    destruct (Z.leb_spec 0 rt) as [Hrt|Hrt].
    + destruct (Z.leb_spec 0 rt); [reflexivity|lia].
    + reflexivity.
Qed.

Lemma rfind_from_first c t i :
  all_chars (fun a => negb (Ascii.eqb a c)) t = true ->
  rfind_from c (String c t) i = i.
Proof.
  intros Ht. cbn [rfind_from]. rewrite (rfind_from_absent c t Ht).
  rewrite Ascii.eqb_refl. reflexivity.
Qed.

(** The last character of a non-empty directory prefix is a separator. *)
Lemma directory_prefix_last os dir :
  directory_prefix os dir = true ->
  dir = ""%string \/
  exists d c, dir = (d ++ String c "")%string /\ is_sep os c = true.
Proof.
  induction dir as [|a dir IH]; [left; reflexivity|].
  intros Hd. right. destruct dir as [|b dir].
  - exists ""%string, a. split; [reflexivity|exact Hd].
  - destruct (IH Hd) as [E|(d & c & E & Hc)]; [discriminate|].
    exists (String a d), c. rewrite E. split; [reflexivity|exact Hc].
Qed.

Lemma rfind_from_last c d :
  forall i, 0 <= i ->
    rfind_from c (d ++ String c "") i = i + Z.of_nat (String.length d).
Proof.
  intros i Hi. rewrite rfind_from_app by lia.
  rewrite rfind_from_first by reflexivity.
  destruct (Z.leb_spec 0 (i + Z.of_nat (String.length d))); [reflexivity|lia].
Qed.


Lemma lower_plain c : plain (char_lower c) = plain c.
Proof. each_char c. Qed.

Lemma lower_dot c : char_lower c = "."%char -> c = "."%char.
Proof. destruct c as [[] [] [] [] [] [] [] []]; vm_compute; intros E;
  try reflexivity; discriminate E. Qed.

Lemma lower_all_plain s : all_chars plain (lower s) = all_chars plain s.
Proof.
  induction s as [|c s IH]; [reflexivity|].
  cbn [lower all_chars]. rewrite lower_plain, IH. reflexivity.
Qed.

(** A supported extension is a dot followed by plain characters. *)
Lemma supported_shape ext :
  supported ext = true ->
  exists body, ext = String "." body /\ all_chars plain body = true.
Proof.
  unfold supported, get_supported_extensions. cbn [existsb].
  destruct ext as [|c body]; [discriminate|]. cbn [lower].
  intros H.
  assert (char_lower c = "."%char /\ all_chars plain (lower body) = true)
    as [Hc Hb].
  { repeat (apply orb_true_iff in H as [H|H]); try discriminate H;
      apply String.eqb_eq in H; injection H as -> ->; split; reflexivity. }
  exists body. rewrite (lower_dot c Hc), <- lower_all_plain. auto.
Qed.

Lemma plain_no_dot c : plain c = true -> negb (Ascii.eqb c ".") = true.
Proof. each_char c. Qed.

Lemma plain_no_sep os c : plain c = true -> negb (is_sep os c) = true.
Proof. destruct os; each_char c. Qed.

Lemma get_middle pre c rest :
  String.get (String.length pre) (pre ++ String c rest) = Some c.
Proof.
  induction pre as [|a pre IH]; [reflexivity|].
  rewrite append_cons. cbn [String.length String.get]. exact IH.
Qed.

(** The loop over the file name: whether the stem has a character other
    than a dot. *)
Lemma name_before_dot_stem stem :
  forall pre rest,
    name_before_dot (pre ++ stem ++ rest) "."
      (Z.of_nat (String.length pre)) (String.length stem)
    = negb (all_chars is_dot stem).
Proof.
  induction stem as [|c stem IH]; intros pre rest; [reflexivity|].
  rewrite append_cons. cbn [String.length name_before_dot all_chars].
  rewrite Nat2Z.id, get_middle. unfold is_dot at 1.
  destruct (Ascii.eqb c ".") eqn:E; [|reflexivity].
  cbn [andb].
  replace (pre ++ String c (stem ++ rest))%string
    with ((pre ++ String c "") ++ stem ++ rest)%string
    by (rewrite append_assoc; reflexivity).
  replace (Z.of_nat (String.length pre) + 1)
    with (Z.of_nat (String.length (pre ++ String c "")))
    by (rewrite length_append; cbn [String.length]; lia).
  apply IH.
Qed.

Lemma substring_all s : String.substring 0 (String.length s) s = s.
Proof.
  induction s as [|c s IH]; [reflexivity|].
  cbn [String.length String.substring]. rewrite IH. reflexivity.
Qed.

Lemma after_app x y : after (x ++ y) (Z.of_nat (String.length x)) = y.
Proof.
  unfold after. rewrite Nat2Z.id, length_append.
  replace (String.length x + String.length y - String.length x)%nat
    with (String.length y) by lia.
  induction x as [|c x IH]; [apply substring_all|].
  rewrite append_cons. cbn [String.length String.substring]. exact IH.
Qed.

Lemma rfind_app_absent c dir name :
  all_chars (fun a => negb (Ascii.eqb a c)) name = true ->
  rfind c (dir ++ name) = rfind c dir.
Proof.
  intros Hn. unfold rfind. rewrite rfind_from_app by lia.
  rewrite (rfind_from_absent c name Hn). reflexivity.
Qed.

Lemma rfind_range c s :
  -1 <= rfind c s < Z.of_nat (String.length s) \/ s = ""%string.
Proof.
  unfold rfind. destruct (rfind_from_range c s 0 ltac:(lia)) as [E|R].
  - destruct s as [|a s]; [right; reflexivity|left].
    rewrite E. cbn [String.length]. lia.
  - left. lia.
Qed.

(** The index of the last separator of a path whose file name is [name]. *)
Lemma last_separator os dir name :
  directory_prefix os dir = true ->
  all_chars (fun c => negb (is_sep os c)) name = true ->
  match os with
  | posixpath => rfind "/" (dir ++ name)
  | ntpath => Z.max (rfind "\" (dir ++ name)) (rfind "/" (dir ++ name))
  end = Z.of_nat (String.length dir) - 1.
Proof.
  intros Hd Hn. destruct os.
  - rewrite (rfind_app_absent "/" dir name Hn).
    destruct (directory_prefix_last _ dir Hd) as [->|(d & c & -> & Hc)];
      [reflexivity|].
    cbn [is_sep] in Hc. apply Ascii.eqb_eq in Hc as ->.
    unfold rfind. rewrite rfind_from_last, length_append by lia.
    cbn [String.length]. lia.
  - rewrite (rfind_app_absent "\" dir name),
      (rfind_app_absent "/" dir name).
    2: { revert Hn. apply all_chars_impl. intros c. cbn [is_sep].
         destruct (Ascii.eqb c "\"), (Ascii.eqb c "/"); auto. }
    2: { revert Hn. apply all_chars_impl. intros c. cbn [is_sep].
         destruct (Ascii.eqb c "\"), (Ascii.eqb c "/"); auto. }
    destruct (directory_prefix_last _ dir Hd) as [->|(d & c & -> & Hc)];
      [reflexivity|].
    rewrite length_append. cbn [String.length].
    pose proof (rfind_range "\" (d ++ String c "")) as R1.
    pose proof (rfind_range "/" (d ++ String c "")) as R2.
    rewrite length_append in R1, R2. cbn [String.length] in R1, R2.
    destruct R1 as [R1|E]; [|destruct d; discriminate E].
    destruct R2 as [R2|E]; [|destruct d; discriminate E].
    cbn [is_sep] in Hc. apply orb_true_iff in Hc as [Hc|Hc];
      apply Ascii.eqb_eq in Hc; subst c.
    + unfold rfind in *. rewrite rfind_from_last in * by lia. lia.
    + unfold rfind in *. rewrite (rfind_from_last "/") in * by lia. lia.
Qed.

(** The index of the last dot of a path that ends with a supported
    extension. *)
Lemma last_dot pre body :
  all_chars plain body = true ->
  rfind "." (pre ++ String "." body) = Z.of_nat (String.length pre).
Proof.
  intros Hb. unfold rfind. rewrite rfind_from_app by lia.
  rewrite rfind_from_first
    by (revert Hb; apply all_chars_impl; exact plain_no_dot).
  destruct (Z.leb_spec 0 (0 + Z.of_nat (String.length pre))); lia.
Qed.

(** What [_splitext] does on a path made of a directory prefix, a stem
    and an extension. *)
Lemma splitext_parts os dir stem body :
  directory_prefix os dir = true ->
  all_chars (fun c => negb (is_sep os c)) stem = true ->
  all_chars plain body = true ->
  splitext os (dir ++ stem ++ String "." body)
  = if all_chars is_dot stem
    then ((dir ++ stem ++ String "." body)%string, ""%string)
    else ((dir ++ stem)%string, String "." body).
Proof.
  intros Hd Hs Hb.
  assert (all_chars (fun c => negb (is_sep os c)) (stem ++ String "." body)
          = true) as Hname.
  { rewrite all_chars_app, Hs. cbn [all_chars andb].
    rewrite (all_chars_impl _ _ _ (plain_no_sep os) Hb).
    destruct os; reflexivity. }
  pose proof (last_separator os dir _ Hd Hname) as Hsep.
  pose proof (last_dot (dir ++ stem) body Hb) as Hdot.
  rewrite append_assoc, length_append in Hdot.
  pose proof (name_before_dot_stem stem dir (String "." body)) as Hloop.
  assert (forall sepIndex,
            sepIndex = Z.of_nat (String.length dir) - 1 ->
            (if (sepIndex <? rfind "." (dir ++ stem ++ String "." body))
                && name_before_dot (dir ++ stem ++ String "." body) "."
                     (sepIndex + 1)
                     (Z.to_nat (rfind "." (dir ++ stem ++ String "." body)
                                - (sepIndex + 1)))
             then (before (dir ++ stem ++ String "." body)
                     (rfind "." (dir ++ stem ++ String "." body)),
                   after (dir ++ stem ++ String "." body)
                     (rfind "." (dir ++ stem ++ String "." body)))
             else ((dir ++ stem ++ String "." body)%string, ""%string))
            = if all_chars is_dot stem
              then ((dir ++ stem ++ String "." body)%string, ""%string)
              else ((dir ++ stem)%string, String "." body)) as Hgen.
  { intros sepIndex ->. rewrite Hdot.
    replace (Z.of_nat (String.length dir) - 1 + 1)
      with (Z.of_nat (String.length dir)) by lia.
    replace (Z.to_nat (Z.of_nat (String.length dir + String.length stem)
                       - Z.of_nat (String.length dir)))
      with (String.length stem) by lia.
    rewrite Hloop.
    destruct (Z.ltb_spec (Z.of_nat (String.length dir) - 1)
                (Z.of_nat (String.length dir + String.length stem)));
      [|lia].
    cbn [andb]. destruct (all_chars is_dot stem); cbn [negb]; [reflexivity|].
    f_equal.
    - unfold before. rewrite Nat2Z.id, <- length_append, <- append_assoc.
      generalize (dir ++ stem)%string. intros x.
      induction x as [|c x IH]; [reflexivity|].
      rewrite append_cons. cbn [String.length String.substring].
      rewrite IH. reflexivity.
    - rewrite <- length_append, <- append_assoc. apply after_app. }
  destruct os; unfold splitext, _splitext; cbv zeta; apply Hgen, Hsep.
Qed.

Lemma before_after p :
  forall i, (i <= String.length p)%nat ->
    (String.substring 0 i p
     ++ String.substring i (String.length p - i) p)%string = p.
Proof.
  induction p as [|c p IH]; intros i Hi.
  - destruct i; reflexivity.
  - destruct i as [|i].
    + cbn [String.substring]. change ("" ++ ?x)%string with x.
      rewrite Nat.sub_0_r. apply (substring_all (String c p)).
    + cbn [String.length] in *. cbn [String.substring Nat.sub].
      rewrite append_cons, IH by lia. reflexivity.
Qed.

(** X16.  A path made of a directory prefix, a stem without separators and
    a supported extension in any mix of upper and lower case is an image
    file exactly when the stem has a character other than a dot: a name
    that is an extension only, such as [.png], is not one. *)
Theorem image_file_by_extension os dir stem ext :
  directory_prefix os dir = true ->
  all_chars (fun c => negb (is_sep os c)) stem = true ->
  supported ext = true ->
  is_image_file os (dir ++ stem ++ ext) = negb (all_chars is_dot stem).
Proof.
  intros Hd Hs He.
  destruct (supported_shape ext He) as (body & -> & Hb).
  unfold is_image_file. rewrite (splitext_parts os dir stem body Hd Hs Hb).
  destruct (all_chars is_dot stem); cbn [snd negb]; [reflexivity|exact He].
Qed.

Lemma image_file_by_extension_witness :
  is_image_file ntpath ("C:\scans/" ++ "..page.01" ++ ".JpEg")
  = negb (all_chars is_dot "..page.01").
Proof.
  apply (image_file_by_extension ntpath "C:\scans/" "..page.01" ".JpEg");
    reflexivity.
Defined.

(** X17.  Only a path that ends with a supported extension, in any mix of
    upper and lower case, is an image file; the extension begins at the
    last dot of the path. *)
Theorem image_file_has_extension os filepath :
  is_image_file os filepath = true ->
  exists root ext,
    filepath = (root ++ ext)%string /\ supported ext = true /\
    Z.of_nat (String.length root) = rfind "." filepath.
Proof.
  unfold is_image_file. intros H.
  assert (forall sepIndex,
            -1 <= sepIndex ->
            existsb
              (String.eqb
                 (lower
                    (snd
                       (if (sepIndex <? rfind "." filepath)
                           && name_before_dot filepath "." (sepIndex + 1)
                                (Z.to_nat (rfind "." filepath
                                           - (sepIndex + 1)))
                        then (before filepath (rfind "." filepath),
                              after filepath (rfind "." filepath))
                        else (filepath, ""%string)))))
              get_supported_extensions = true ->
            exists root ext,
              filepath = (root ++ ext)%string /\ supported ext = true /\
              Z.of_nat (String.length root) = rfind "." filepath) as Hgen.
  { intros sepIndex Hsep Hin.
    destruct (Z.ltb_spec sepIndex (rfind "." filepath)) as [Hlt|_];
      [|discriminate Hin].
    cbn [andb] in Hin.
    destruct (name_before_dot _ _ _ _); [|discriminate Hin].
    cbn [snd] in Hin.
    destruct (rfind_range "." filepath) as [R|E];
      [|rewrite E in Hlt; cbn in Hlt; lia].
    exists (before filepath (rfind "." filepath)),
      (after filepath (rfind "." filepath)).
    split; [|split; [exact Hin|]].
    - unfold before, after. symmetry. apply before_after. lia.
    - unfold before.
      assert (forall s n, (n <= String.length s)%nat ->
                String.length (String.substring 0 n s) = n) as Hlen.
      { induction s as [|c s IH]; intros [|n] Hn; cbn in *;
          try reflexivity; try lia. rewrite IH by lia. reflexivity. }
      rewrite Hlen by lia. lia. }
  destruct os; unfold splitext, _splitext in H; cbv zeta in H.
  - apply (Hgen (rfind "/" filepath)); [|exact H].
    destruct (rfind_range "/" filepath) as [R| ->]; [lia|cbn; lia].
  - apply (Hgen (Z.max (rfind "\" filepath) (rfind "/" filepath)));
      [|exact H].
    destruct (rfind_range "/" filepath) as [R| ->]; [lia|cbn; lia].
Qed.

Lemma image_file_has_extension_witness :
  exists root ext,
    "a/b.c/Scan.WEBP"%string = (root ++ ext)%string /\
    supported ext = true /\
    Z.of_nat (String.length root) = rfind "." "a/b.c/Scan.WEBP".
Proof.
  apply (image_file_has_extension posixpath "a/b.c/Scan.WEBP"). reflexivity.
Defined.

End PathFacts.

(* ===================================================================== *)
(** ** Facts about the grid of cards *)
(* ===================================================================== *)

Module GridFacts.
Import DraggableGridWidget Sequences Samples.

Lemma get_card_index_from_spec cards id :
  forall i, 0 <= i ->
    (get_card_index_from cards id i = -1 /\
     Forall (fun c => image_id c <> id) cards) \/
    (exists card,
       i <= get_card_index_from cards id i /\
       cards !! Z.to_nat (get_card_index_from cards id i - i) = Some card /\
       image_id card = id).
Proof.
  induction cards as [|c cards IH]; intros i Hi; [left; auto|].
  cbn [get_card_index_from].
  destruct (String.eqb (image_id c) id) eqn:E.
  - right. exists c. apply String.eqb_eq in E.
    rewrite Z.sub_diag. repeat split; [lia|exact E].
  - apply String.eqb_neq in E.
    destruct (IH (i + 1) ltac:(lia)) as [[-> Hall]|(card & Hle & Hl & Hid)].
    + left. split; [reflexivity|]. constructor; assumption.
    + right. exists card. split; [lia|]. split; [|exact Hid].
      replace (Z.to_nat (get_card_index_from cards id (i + 1) - i))
        with (S (Z.to_nat (get_card_index_from cards id (i + 1) - (i + 1))))
        by lia.
      exact Hl.
Qed.

Lemma _get_drop_index_from_range hits :
  forall i, i <= _get_drop_index_from hits i <= i + Z.of_nat (length hits).
Proof.
  induction hits as [|h hits IH]; intros i; cbn [_get_drop_index_from length].
  - lia.
  - destruct h; [specialize (IH (i + 1))|..]; lia.
Qed.

Lemma pop_insert_at {A} (l : list A) (t : nat) x :
  pop (insert_at l (Z.of_nat t) x) (Z.of_nat (Nat.min t (length l))) = l.
Proof.
  unfold pop, insert_at. rewrite !Nat2Z.id.
  assert (length (take t l) = Nat.min t (length l)) as Hlen
    by apply length_take.
  rewrite <- Hlen.
  rewrite take_app_length.
  change (take t l ++ x :: drop t l) with (take t l ++ [x] ++ drop t l).
  rewrite app_assoc.
  replace (S (length (take t l))) with (length (take t l ++ [x]))
    by (rewrite length_app; simpl; lia).
  rewrite drop_app_length. apply take_drop.
Qed.

Lemma lookup_insert_at {A} (l : list A) (t : nat) x :
  insert_at l (Z.of_nat t) x !! (Nat.min t (length l)) = Some x.
Proof.
  unfold insert_at. rewrite Nat2Z.id.
  rewrite <- (length_take l t). apply list_lookup_middle. reflexivity.
Qed.

Lemma lookup_pop_ge {A} (l : list A) (s j : nat) :
  (s <= j)%nat -> (s < length l)%nat ->
  pop l (Z.of_nat s) !! j = l !! S j.
Proof.
  intros Hj Hs. unfold pop. rewrite Nat2Z.id.
  rewrite lookup_app_r by (rewrite length_take; lia).
  rewrite length_take, lookup_drop. f_equal. lia.
Qed.

Lemma pop_permutation {A} (l : list A) (s : nat) x :
  l !! s = Some x -> l ≡ₚ x :: pop l (Z.of_nat s).
Proof.
  intros Hl. unfold pop. rewrite Nat2Z.id.
  rewrite <- (take_drop_middle l s x Hl) at 1.
  symmetry. apply Permutation_middle.
Qed.

Lemma insert_at_permutation {A} (l : list A) i x :
  insert_at l i x ≡ₚ x :: l.
Proof.
  unfold insert_at. rewrite <- Permutation_middle, take_drop. reflexivity.
Qed.

Lemma dropEvent_spec cards source_id hits cards' emitted :
  dropEvent cards source_id hits = (cards', emitted) ->
  cards ≡ₚ cards' /\
  (emitted = false -> cards' = cards) /\
  (emitted = true ->
   exists card (s t : nat),
     get_card_index cards source_id = Z.of_nat s /\
     _get_drop_index hits = Z.of_nat t /\
     cards !! s = Some card /\ image_id card = source_id /\ t <> s /\
     cards' !! Nat.min t (length cards - 1) = Some card /\
     pop cards' (Z.of_nat (Nat.min t (length cards - 1)))
     = pop cards (Z.of_nat s) /\
     ((s < t < length cards)%nat -> cards' !! (t - 1)%nat = cards !! t)).
Proof.
  unfold dropEvent. cbv zeta.
  pose proof (_get_drop_index_from_range hits 0) as Ht.
  fold (_get_drop_index hits) in Ht.
  destruct (get_card_index_from_spec cards source_id 0 ltac:(lia))
    as [[E _]|(card & Hs & Hl & Hid)]; fold (get_card_index cards source_id) in *.
  { rewrite E. cbn [Z.ltb Z.compare]. intros [= <- <-].
    split; [reflexivity|]. split; [reflexivity|discriminate]. }
  rewrite Z.sub_0_r in Hl.
  destruct (Z.ltb_spec (get_card_index cards source_id) 0); [lia|].
  destruct (Z.ltb_spec (_get_drop_index hits) 0); [lia|]. cbn [orb].
  destruct (Z.eqb_spec (_get_drop_index hits) (get_card_index cards source_id))
    as [Heq|Hne].
  { intros [= <- <-]. split; [reflexivity|]. split; [reflexivity|discriminate]. }
  rewrite Hl.
  replace (if _get_drop_index hits <? get_card_index cards source_id
           then _get_drop_index hits else _get_drop_index hits)
    with (_get_drop_index hits) by (destruct (_ <? _); reflexivity).
  intros [= <- <-].
  set (s := Z.to_nat (get_card_index cards source_id)) in *.
  set (t := Z.to_nat (_get_drop_index hits)).
  assert (get_card_index cards source_id = Z.of_nat s) as Es by lia.
  assert (_get_drop_index hits = Z.of_nat t) as Et by lia.
  rewrite Es, Et.
  assert (s < length cards)%nat as Hlen by (eapply lookup_lt_Some; exact Hl).
  assert (length (pop cards (Z.of_nat s)) = (length cards - 1)%nat) as Hpop.
  { unfold pop. rewrite Nat2Z.id, length_app, length_take, length_drop. lia. }
  split; [|split; [discriminate|]].
  - rewrite insert_at_permutation. apply pop_permutation, Hl.
  - intros _. exists card, s, t.
    repeat (split; [assumption || lia|]).
    split; [rewrite <- Hpop; apply lookup_insert_at|].
    split; [rewrite <- Hpop; apply pop_insert_at|].
    intros [Hst Htl]. unfold insert_at. rewrite Nat2Z.id.
    rewrite lookup_app_l by (rewrite length_take; lia).
    rewrite lookup_take_lt by lia.
    rewrite lookup_pop_ge by lia. f_equal. lia.
Qed.


(** X18.  A drop moves one card and nothing else: the cards afterwards are
    the cards before in another order; the card with the dragged id goes
    to the drop index, or to the end when that is the last position;
    taking it out again gives the old list without it.  When it is dropped
    on the left half of a later card, it lands behind that card. *)
Theorem drop_moves_one_card cards source_id hits cards' emitted :
  dropEvent cards source_id hits = (cards', emitted) ->
  cards ≡ₚ cards' /\
  (emitted = false -> cards' = cards) /\
  (emitted = true ->
   exists card (s t : nat),
     get_card_index cards source_id = Z.of_nat s /\
     _get_drop_index hits = Z.of_nat t /\
     cards !! s = Some card /\ image_id card = source_id /\ t <> s /\
     cards' !! Nat.min t (length cards - 1) = Some card /\
     pop cards' (Z.of_nat (Nat.min t (length cards - 1)))
     = pop cards (Z.of_nat s) /\
     ((s < t < length cards)%nat -> cards' !! (t - 1)%nat = cards !! t)).
Proof. apply dropEvent_spec. Qed.

Lemma drop_moves_one_card_witness :
  [card "a"; card "b"; card "c"] ≡ₚ [card "b"; card "c"; card "a"] /\
  (true = false ->
   [card "b"; card "c"; card "a"] = [card "a"; card "b"; card "c"]) /\
  (true = true ->
   exists card' (s t : nat),
     get_card_index [card "a"; card "b"; card "c"] "a" = Z.of_nat s /\
     _get_drop_index [Outside; Outside; Left] = Z.of_nat t /\
     [card "a"; card "b"; card "c"] !! s = Some card' /\
     image_id card' = "a"%string /\ t <> s /\
     [card "b"; card "c"; card "a"]
       !! Nat.min t (length [card "a"; card "b"; card "c"] - 1)
     = Some card' /\
     pop [card "b"; card "c"; card "a"]
       (Z.of_nat (Nat.min t (length [card "a"; card "b"; card "c"] - 1)))
     = pop [card "a"; card "b"; card "c"] (Z.of_nat s) /\
     ((s < t < length [card "a"; card "b"; card "c"])%nat ->
      [card "b"; card "c"; card "a"] !! (t - 1)%nat
      = [card "a"; card "b"; card "c"] !! t)).
Proof.
  apply (drop_moves_one_card [card "a"; card "b"; card "c"] "a"
           [Outside; Outside; Left] [card "b"; card "c"; card "a"] true).
  reflexivity.
Defined.

(** *** The images follow the cards *)

Lemma by_id_fold images :
  forall m : gmap string image_data,
    NoDup (map img_id images) ->
    (forall img, In img images ->
       foldl (fun m img => <[img_id img := img]> m) m images !! img_id img
       = Some img) /\
    (forall id, ~ In id (map img_id images) ->
       foldl (fun m img => <[img_id img := img]> m) m images !! id = m !! id).
Proof.
  induction images as [|a rest IH]; intros m Hnd.
  - split; [intros img []|reflexivity].
  - cbn [map] in Hnd. apply NoDup_cons in Hnd as [Ha Hnd].
    rewrite list_elem_of_In in Ha.
    destruct (IH (<[img_id a := a]> m) Hnd) as [IH1 IH2].
    cbn [foldl]. split.
    + intros img [<-|Hin]; [|exact (IH1 img Hin)].
      rewrite (IH2 _ Ha). apply lookup_insert_eq.
    + intros id Hid. cbn [map In] in Hid.
      rewrite IH2 by tauto. apply lookup_insert_ne. tauto.
Qed.

Lemma by_id_lookup images img :
  NoDup (map img_id images) -> In img images ->
  by_id images !! img_id img = Some img.
Proof. intros Hnd Hin. apply (by_id_fold images ∅ Hnd), Hin. Qed.

(** Cards that were made from the images, in any order. *)
Lemma reordered_cards images cards :
  NoDup (map img_id images) ->
  Forall (fun c => In (card_data c) images /\
                   image_id c = img_id (card_data c)) cards ->
  reordered images (get_order cards) = map card_data cards.
Proof.
  intros Hnd Hall. unfold reordered, get_order.
  induction Hall as [|c cards [Hin Hid] _ IH]; [reflexivity|].
  simpl. rewrite Hid, (by_id_lookup images _ Hnd Hin).
  simpl. f_equal. exact IH.
Qed.

Lemma rendered_cards images :
  Forall (fun c => In (card_data c) images /\
                   image_id c = img_id (card_data c)) (rendered images).
Proof.
  unfold rendered. induction images as [|a rest IH]; [constructor|].
  cbn [map]. constructor; [split; [left; reflexivity|reflexivity]|].
  eapply Forall_impl; [exact IH|].
  intros c [Hin E]. split; [right; exact Hin|exact E].
Qed.

Lemma card_data_rendered images : map card_data (rendered images) = images.
Proof.
  unfold rendered. rewrite map_map. cbn. apply map_id.
Qed.

(** X19.  Drag and drop never loses or doubles an image: when the ids of
    the images differ, the list that [_on_order_changed] builds from the
    cards after a drop has the ids in the order of the cards, is the old
    list in another order, and renders to those cards again. *)
Theorem images_follow_cards images source_id hits cards' emitted :
  NoDup (map img_id images) ->
  dropEvent (rendered images) source_id hits = (cards', emitted) ->
  map img_id (reordered images (get_order cards')) = get_order cards' /\
  reordered images (get_order cards') ≡ₚ images /\
  rendered (reordered images (get_order cards')) = cards' /\
  (emitted = false -> reordered images (get_order cards') = images).
Proof.
  intros Hnd Hdrop.
  destruct (dropEvent_spec _ _ _ _ _ Hdrop) as (Hperm & Hsame & _).
  assert (Forall (fun c => In (card_data c) images /\
                           image_id c = img_id (card_data c)) cards')
    as Hall.
  { rewrite <- Hperm. apply rendered_cards. }
  rewrite (reordered_cards images cards' Hnd Hall).
  split; [|split; [|split]].
  - unfold get_order. rewrite map_map. apply map_ext_Forall.
    eapply Forall_impl; [exact Hall|]. intros c [_ E]. symmetry. exact E.
  - transitivity (map card_data (rendered images)).
    + apply Permutation_map. symmetry. exact Hperm.
    + rewrite card_data_rendered. reflexivity.
  - unfold rendered. rewrite map_map.
    rewrite <- (map_id cards') at 2. apply map_ext_Forall.
    eapply Forall_impl; [exact Hall|]. intros [id d] [_ E].
    cbn in *. rewrite E. reflexivity.
  - intros E. rewrite (Hsame E). apply card_data_rendered.
Qed.

Lemma images_follow_cards_witness :
  map img_id
    (reordered [entry "a"; entry "b"; entry "c"]
       (get_order [card "b"; card "c"; card "a"]))
  = get_order [card "b"; card "c"; card "a"] /\
  reordered [entry "a"; entry "b"; entry "c"]
    (get_order [card "b"; card "c"; card "a"])
  ≡ₚ [entry "a"; entry "b"; entry "c"] /\
  rendered (reordered [entry "a"; entry "b"; entry "c"]
              (get_order [card "b"; card "c"; card "a"]))
  = [card "b"; card "c"; card "a"] /\
  (true = false ->
   reordered [entry "a"; entry "b"; entry "c"]
     (get_order [card "b"; card "c"; card "a"])
   = [entry "a"; entry "b"; entry "c"]).
Proof.
  apply (images_follow_cards [entry "a"; entry "b"; entry "c"] "a"
           [Outside; Outside; Left] [card "b"; card "c"; card "a"] true).
  - apply (bool_decide_unpack _). vm_compute. exact I.
  - reflexivity.
Defined.

(** *** The sequences *)

Lemma find_sequence_some seqs id :
  In id (map seq_id seqs) ->
  exists seq, find_sequence seqs id = Some seq /\ In seq seqs /\
              seq_id seq = id.
Proof.
  unfold find_sequence. induction seqs as [|s seqs IH]; [intros []|].
  cbn [map In List.find]. intros Hin.
  destruct (String.eqb (seq_id s) id) eqn:E.
  - exists s. apply String.eqb_eq in E. auto.
  - apply String.eqb_neq in E. destruct Hin as [Hs|Hin]; [contradiction|].
    destruct (IH Hin) as (seq & Hf & Hi & Hid). exists seq. auto.
Qed.

Lemma filter_ids_subset seqs id x :
  In x (map seq_id
          (List.filter (fun s => negb (String.eqb (seq_id s) id)) seqs)) <->
  In x (map seq_id seqs) /\ x <> id.
Proof.
  induction seqs as [|s seqs IH]; [cbn; tauto|].
  cbn [List.filter]. destruct (String.eqb (seq_id s) id) eqn:E; cbn [negb].
  - apply String.eqb_eq in E. rewrite IH. cbn [map In].
    split; [tauto|]. intros [[Hs|Hin] Hne]; [congruence|tauto].
  - apply String.eqb_neq in E. cbn [map In]. rewrite IH.
    split; [intros [<-|[Hin Hne]]; tauto|tauto].
Qed.

Lemma filter_ids_NoDup seqs id :
  NoDup (map seq_id seqs) ->
  NoDup (map seq_id
           (List.filter (fun s => negb (String.eqb (seq_id s) id)) seqs)).
Proof.
  induction seqs as [|s seqs IH]; [intros _; constructor|].
  cbn [map]. intros Hnd. inversion Hnd as [|? ? Hs Hnd']; subst.
  cbn [List.filter]. destruct (String.eqb (seq_id s) id); cbn [negb].
  - exact (IH Hnd').
  - cbn [map]. constructor; [|exact (IH Hnd')].
    rewrite list_elem_of_In, filter_ids_subset.
    rewrite list_elem_of_In in Hs. tauto.
Qed.

Lemma filter_ids_length seqs id :
  NoDup (map seq_id seqs) ->
  (length seqs - 1 <=
   length (List.filter (fun s => negb (String.eqb (seq_id s) id)) seqs)
   <= length seqs)%nat.
Proof.
  induction seqs as [|s seqs IH]; [cbn; lia|].
  cbn [map]. intros Hnd. inversion Hnd as [|? ? Hs Hnd']; subst.
  specialize (IH Hnd'). cbn [List.filter length].
  destruct (String.eqb (seq_id s) id) eqn:E; cbn [negb length]; [|lia].
  apply String.eqb_eq in E. rewrite list_elem_of_In in Hs.
  assert (List.filter (fun s => negb (String.eqb (seq_id s) id)) seqs = seqs)
    as ->; [|lia].
  clear -Hs E. induction seqs as [|a seqs IH]; [reflexivity|].
  cbn [map In] in Hs. cbn [List.filter].
  destruct (String.eqb (seq_id a) id) eqn:Ea.
  - apply String.eqb_eq in Ea. exfalso. apply Hs. left. congruence.
  - cbn [negb]. rewrite IH by tauto. reflexivity.
Qed.

Lemma assign_first_ids id images seqs seqs' :
  assign_first id images seqs = Some seqs' ->
  map seq_id seqs' = map seq_id seqs /\ length seqs' = length seqs.
Proof.
  revert seqs'. induction seqs as [|s seqs IH]; intros seqs'; [discriminate|].
  cbn [assign_first]. destruct (String.eqb (seq_id s) id).
  - intros [= <-]. split; reflexivity.
  - destruct (assign_first id images seqs) as [l|]; [|discriminate].
    intros [= <-]. destruct (IH l eq_refl) as [E1 E2].
    cbn [map length]. rewrite E1, E2. split; reflexivity.
Qed.

Lemma sequences_spec self :
  well_formed self ->
  (exists seq, _get_current_sequence self = Some seq /\
               In seq (sequences self) /\
               seq_id seq = current_sequence_id self) /\
  (forall uuid, ~ In uuid (map seq_id (sequences self)) ->
     well_formed (_add_sequence self uuid)) /\
  (forall id reply,
     exists self', _delete_sequence self id reply = Some self' /\
                   well_formed self') /\
  (forall id, In id (map seq_id (sequences self)) ->
     well_formed (_switch_sequence self id)) /\
  (forall images,
     exists self', set_images self images = Some self' /\
                   well_formed self' /\
                   map seq_id (sequences self') = map seq_id (sequences self)).
Proof.
  intros WF. pose proof WF as (Hlen & Hnd & Hcur).
  unfold MAX_SEQUENCES in Hlen.
  split; [|split; [|split; [|split]]].
  - destruct (find_sequence_some _ _ Hcur) as (seq & Hf & Hin & Hid).
    exists seq. unfold _get_current_sequence. rewrite Hf. auto.
  - intros uuid Hfresh. unfold _add_sequence, MAX_SEQUENCES.
    destruct (Z.leb_spec 5 (Z.of_nat (length (sequences self))));
      [exact WF|].
    cbv zeta. unfold well_formed, MAX_SEQUENCES. cbn [sequences current_sequence_id].
    rewrite length_app, map_app. cbn [length map seq_id].
    split; [lia|]. split.
    + apply NoDup_app. split; [exact Hnd|]. split; [|apply NoDup_singleton].
      intros x Hx Hx'. apply list_elem_of_In in Hx.
      apply list_elem_of_singleton in Hx'. subst x. contradiction.
    + apply in_or_app. right. left. reflexivity.
  - intros id reply. unfold _delete_sequence.
    destruct (Z.leb_spec (Z.of_nat (length (sequences self))) 1);
      [eauto|].
    destruct (find_sequence (sequences self) id) as [found|]; [|eauto].
    destruct reply; [|eauto].
    cbv zeta.
    set (seqs := List.filter (fun s => negb (String.eqb (seq_id s) id))
                   (sequences self)).
    pose proof (filter_ids_length (sequences self) id Hnd) as Hl.
    pose proof (filter_ids_NoDup (sequences self) id Hnd) as Hn.
    fold seqs in Hl, Hn.
    destruct (String.eqb (current_sequence_id self) id) eqn:E.
    + destruct seqs as [|first rest] eqn:Es; [cbn in Hl; lia|].
      cbn. eexists. split; [reflexivity|].
      unfold well_formed, MAX_SEQUENCES. cbn [sequences current_sequence_id].
      split; [cbn [length] in *; lia|]. split; [exact Hn|].
      left. reflexivity.
    + eexists. split; [reflexivity|].
      unfold well_formed, MAX_SEQUENCES. cbn [sequences current_sequence_id].
      split; [lia|]. split; [exact Hn|].
      apply String.eqb_neq in E. apply filter_ids_subset. auto.
  - intros id Hid. unfold _switch_sequence.
    destruct (String.eqb (current_sequence_id self) id); [exact WF|].
    unfold well_formed, MAX_SEQUENCES. cbn [sequences current_sequence_id]. auto.
  - intros images. unfold set_images.
    destruct (assign_first (current_sequence_id self) images (sequences self))
      as [seqs|] eqn:Ea.
    + destruct (assign_first_ids _ _ _ _ Ea) as [E1 E2].
      cbn. eexists. split; [reflexivity|].
      unfold well_formed, MAX_SEQUENCES. cbn [sequences current_sequence_id].
      rewrite E1, E2. auto.
    + destruct (sequences self) as [|s rest] eqn:Es; [cbn in Hlen; lia|].
      cbn. eexists. split; [reflexivity|].
      unfold well_formed, MAX_SEQUENCES. cbn [sequences current_sequence_id].
      cbn [map length seq_id] in *. auto.
Qed.

Lemma init_well_formed : well_formed init.
Proof.
  unfold well_formed, init, MAX_SEQUENCES. cbn [sequences current_sequence_id map length seq_id].
  split; [lia|]. split; [|left; reflexivity].
  apply (bool_decide_unpack _). vm_compute. exact I.
Qed.

(** X20.  The window always has from one to five sequences with different
    ids, and the current id names one of them: this holds at the start, and
    adding (with a new id), deleting, switching to a listed id and
    replacing the images of the current sequence keep it; so
    [_get_current_sequence] finds the current sequence, deleting never
    raises and never removes the last sequence, and adding stops at
    five. *)
Theorem sequences_stay_well_formed self :
  well_formed self ->
  well_formed init /\
  (exists seq, _get_current_sequence self = Some seq /\
               In seq (sequences self) /\
               seq_id seq = current_sequence_id self) /\
  (forall uuid, ~ In uuid (map seq_id (sequences self)) ->
     well_formed (_add_sequence self uuid)) /\
  (forall id reply,
     exists self', _delete_sequence self id reply = Some self' /\
                   well_formed self') /\
  (forall id, In id (map seq_id (sequences self)) ->
     well_formed (_switch_sequence self id)) /\
  (forall images,
     exists self', set_images self images = Some self' /\
                   well_formed self' /\
                   map seq_id (sequences self') = map seq_id (sequences self)).
Proof.
  intros WF. split; [exact init_well_formed|]. apply sequences_spec, WF.
Qed.

Lemma sequences_stay_well_formed_witness :
  well_formed init /\
  (exists seq, _get_current_sequence (_add_sequence init "u2") = Some seq /\
               In seq (sequences (_add_sequence init "u2")) /\
               seq_id seq = current_sequence_id (_add_sequence init "u2")) /\
  (forall uuid,
     ~ In uuid (map seq_id (sequences (_add_sequence init "u2"))) ->
     well_formed (_add_sequence (_add_sequence init "u2") uuid)) /\
  (forall id reply,
     exists self',
       _delete_sequence (_add_sequence init "u2") id reply = Some self' /\
       well_formed self') /\
  (forall id, In id (map seq_id (sequences (_add_sequence init "u2"))) ->
     well_formed (_switch_sequence (_add_sequence init "u2") id)) /\
  (forall images,
     exists self',
       set_images (_add_sequence init "u2") images = Some self' /\
       well_formed self' /\
       map seq_id (sequences self')
       = map seq_id (sequences (_add_sequence init "u2"))).
Proof.
  apply (sequences_stay_well_formed (_add_sequence init "u2")).
  unfold well_formed. vm_compute.
  split; [split; discriminate|]. split; [|right; left; reflexivity].
  apply (bool_decide_unpack _). vm_compute. exact I.
Defined.

End GridFacts.

(* ===================================================================== *)
(** ** Facts about the batch of all sequences *)
(* ===================================================================== *)

Module BatchFacts.
Import PIL img2pdf PDFGenerator Sequences helpers Batch Trace.
Import NormalizeFacts GeneratorFacts JobFacts.

Section WithLibraries.
Context `{P : Pillow} {pdf : Type} `{I : Img2pdf pdf} `{H : Host}
        `{O : OsPath}.

Local Abbreviation world := (@PDFGenerator.world pdf).

Lemma generate_sequences_app self st dir l1 l2 (w : world) :
  generate_sequences self st dir (l1 ++ l2) w
  = (fst (generate_sequences self st dir l1 w)
     ++ fst (generate_sequences self st dir l2
               (snd (generate_sequences self st dir l1 w))),
     snd (generate_sequences self st dir l2
            (snd (generate_sequences self st dir l1 w)))).
Proof.
  revert w. induction l1 as [|s l1 IH]; intros w.
  - cbn [app generate_sequences fst snd]. apply surjective_pairing.
  - cbn [app generate_sequences]. cbv zeta.
    destruct (generate_pdf self _ _ _ _ _ w) as [ok w1].
    rewrite IH.
    destruct (generate_sequences self st dir l1 w1) as [r1 w2].
    cbn [fst snd]. reflexivity.
Qed.

Lemma generate_sequences_length self st dir l (w : world) :
  length (fst (generate_sequences self st dir l w)) = length l.
Proof.
  revert w. induction l as [|s l IH]; intros w; [reflexivity|].
  cbn [generate_sequences]. cbv zeta.
  destruct (generate_pdf self _ _ _ _ _ w) as [ok w1].
  specialize (IH w1).
  destruct (generate_sequences self st dir l w1) as [r w2].
  cbn [fst length] in *. rewrite IH. reflexivity.
Qed.

(** The batch leaves a path alone that is no output path of it. *)
Lemma generate_sequences_frame self st dir l p :
  Forall (fun s => output_path dir s <> p) l ->
  forall w : world,
    files (snd (generate_sequences self st dir l w)) !! p = files w !! p.
Proof.
  induction 1 as [|s l Hs _ IH]; intros w; [reflexivity|].
  cbn [generate_sequences]. cbv zeta.
  destruct (generate_pdf self _ _ _ _ _ w) as [ok w1] eqn:Hrun.
  specialize (IH w1).
  destruct (generate_sequences self st dir l w1) as [r w2].
  cbn [snd] in *. rewrite IH.
  destruct (generate_pdf_files _ _ _ _ _ _ _ _ _ Hrun)
    as [[_ ->]|[_ (layout & doc & _ & _ & _ & _ & ->)]]; [reflexivity|].
  apply lookup_insert_ne. exact Hs.
Qed.

(** In the loop the last sequence written to a path wins. *)
Lemma generate_sequences_last self st dir l1 s l2 (w : world)
    results w' :
  generate_sequences self st dir (l1 ++ s :: l2) w = (results, w') ->
  results !! length l1 = Some true ->
  Forall (fun s' => output_path dir s' <> output_path dir s) l2 ->
  exists layout doc,
    page_layout (page_size st) (margin st) = Ok layout /\
    convert
      (survivors (files (snd (generate_sequences self st dir l1 w)))
         (quality st)
         (_get_images_with_tail st
            (files (snd (generate_sequences self st dir l1 w)))
            (map img_filepath (seq_images s))))
      layout = Ok doc /\
    files w' !! output_path dir s = Some (PdfFile doc) /\
    (forall s0, In s0 l1 ->
       sanitize_filename (seq_name s0) = sanitize_filename (seq_name s) ->
       output_path dir s0 = output_path dir s).
Proof.
  intros Hrun Hok Hlater. rewrite generate_sequences_app in Hrun.
  pose proof (generate_sequences_length self st dir l1 w) as Hlen.
  set (w1 := snd (generate_sequences self st dir l1 w)) in *.
  set (r1 := fst (generate_sequences self st dir l1 w)) in *.
  cbn [generate_sequences] in Hrun. cbv zeta in Hrun.
  destruct (generate_pdf self _ _ _ _ _ w1) as [ok w2] eqn:Hpdf.
  pose proof (generate_sequences_frame self st dir l2 _ Hlater w2) as Hframe.
  destruct (generate_sequences self st dir l2 w2) as [r2 w3].
  cbn [fst snd] in Hrun, Hframe. injection Hrun as <- <-.
  rewrite lookup_app_r, Hlen, Nat.sub_diag in Hok by lia.
  injection Hok as ->.
  destruct (generate_pdf_files _ _ _ _ _ _ _ _ _ Hpdf)
    as [[F _]|[_ (layout & doc & _ & Hl & Hc & _ & Hf)]]; [discriminate|].
  exists layout, doc. split; [exact Hl|]. split; [exact Hc|].
  split.
  - rewrite Hframe, Hf. apply lookup_insert_eq.
  - intros s0 _ E. unfold output_path. rewrite E. reflexivity.
Qed.

(** X21.  In a batch the last sequence written to a path wins: when the
    run of a sequence succeeds and no later sequence has the same output
    path, the file there holds its document, made from its images (and
    the tail page).  Sequences whose names are the same after
    [sanitize_filename] have the same output path, so that the document of
    an earlier one of them is overwritten. *)
Theorem later_sequence_overwrites self st seqs dir l1 s l2 (w : world)
    results w' :
  _generate_all_pdfs self st seqs false dir w = (results, w') ->
  String.eqb dir "" = false ->
  with_images seqs = l1 ++ s :: l2 ->
  results !! length l1 = Some true ->
  Forall (fun s' => output_path dir s' <> output_path dir s) l2 ->
  exists layout doc,
    page_layout (page_size st) (margin st) = Ok layout /\
    convert
      (survivors (files (snd (generate_sequences self st dir l1 w)))
         (quality st)
         (_get_images_with_tail st
            (files (snd (generate_sequences self st dir l1 w)))
            (map img_filepath (seq_images s))))
      layout = Ok doc /\
    files w' !! output_path dir s = Some (PdfFile doc) /\
    (forall s0, In s0 l1 ->
       sanitize_filename (seq_name s0) = sanitize_filename (seq_name s) ->
       output_path dir s0 = output_path dir s).
Proof.
  unfold _generate_all_pdfs. cbv zeta. intros Hrun Hdir Hseqs.
  rewrite Hseqs, Hdir in Hrun.
  destruct (l1 ++ s :: l2) as [|x l] eqn:E; [destruct l1; discriminate E|].
  cbn [orb] in Hrun. rewrite <- E in Hrun.
  exact (generate_sequences_last self st dir l1 s l2 w results w' Hrun).
Qed.

Lemma survivors_app (fs : gmap string (file pdf)) q l1 l2 :
  survivors fs q (l1 ++ l2) = survivors fs q l1 ++ survivors fs q l2.
Proof. unfold survivors. rewrite map_app. apply List.filter_app. Qed.


End WithLibraries.

Import Reference ReferenceFacts Samples.
#[local] Existing Instance pillow.
#[local] Existing Instance libimg2pdf.
#[local] Existing Instance host.
#[local] Existing Instance os_path.

Lemma later_sequence_overwrites_witness :
  exists layout doc,
    page_layout (page_size plain_settings) (margin plain_settings)
    = Ok layout /\
    convert
      (survivors
         (files (snd (generate_sequences (Generator false) plain_settings
                        "out" [Sequence "1" "vol:1"
                                 [ImageData "a" "wide.png" None (3, 2)]]
                        start)))
         (quality plain_settings)
         (_get_images_with_tail plain_settings
            (files (snd (generate_sequences (Generator false) plain_settings
                           "out" [Sequence "1" "vol:1"
                                    [ImageData "a" "wide.png" None (3, 2)]]
                           start)))
            (map img_filepath
               (seq_images
                  (Sequence "2" "vol?1"
                     [ImageData "b" "tall.png" None (5, 9)])))))
      layout = Ok doc /\
    files (snd (_generate_all_pdfs (Generator false) plain_settings volumes
                  false "out" start))
      !! output_path "out"
           (Sequence "2" "vol?1" [ImageData "b" "tall.png" None (5, 9)])
    = Some (PdfFile doc) /\
    (forall s0,
       In s0 [Sequence "1" "vol:1" [ImageData "a" "wide.png" None (3, 2)]] ->
       sanitize_filename (seq_name s0)
       = sanitize_filename
           (seq_name (Sequence "2" "vol?1"
                        [ImageData "b" "tall.png" None (5, 9)])) ->
       output_path "out" s0
       = output_path "out"
           (Sequence "2" "vol?1" [ImageData "b" "tall.png" None (5, 9)])).
Proof.
  apply (later_sequence_overwrites (Generator false) plain_settings volumes
           "out"
           [Sequence "1" "vol:1" [ImageData "a" "wide.png" None (3, 2)]]
           (Sequence "2" "vol?1" [ImageData "b" "tall.png" None (5, 9)])
           [] start [true; true]).
  - vm_compute. reflexivity.
  - reflexivity.
  - reflexivity.
  - reflexivity.
  - constructor.
Defined.


End BatchFacts.

(* ===================================================================== *)
(** ** Facts about adding images *)
(* ===================================================================== *)

Module AddFacts.
Import PIL Sequences helpers AddImages HelperFacts.

(** *** The insertion sort is a [sorted] *)

Local Abbreviation by_fst :=
  (fun p : list elem * _ => Some (fst p)).

Lemma insert_sorted_spec {A} (K : list (list elem)) kx (x : A) l :
  total_order K -> In kx K ->
  Forall (fun p => In (fst p) K) l ->
  ordered by_fst l ->
  exists r, insert_sorted kx x l = Some r /\ r ≡ₚ (kx, x) :: l /\
            ordered by_fst r.
Proof.
  intros [Tri Trans] Hkx Hl Hord.
  induction Hord as [|[ky y] rest Hall Hord IH].
  - exists [(kx, x)]. split; [reflexivity|]. split; [reflexivity|].
    constructor; constructor.
  - apply Forall_cons in Hl as [Hky Hrest]. cbn [fst] in Hky.
    cbn [insert_sorted].
    destruct (Tri ky kx Hky Hkx) as [[L1 L2]|[[L1 L2]|(L1 & L2 & E)]];
      rewrite L1; cbn [mbind option_bind].
    + destruct (IH Hrest) as (r & -> & Hp & Ho).
      exists ((ky, y) :: r). split; [reflexivity|].
      split; [rewrite Hp; apply perm_swap|].
      constructor; [|exact Ho].
      rewrite Hp. constructor; [exact L2|exact Hall].
    + exists ((kx, x) :: (ky, y) :: rest).
      split; [reflexivity|]. split; [reflexivity|].
      constructor; [|constructor; assumption].
      constructor; [exact L1|].
      rewrite Forall_forall in Hall, Hrest |- *.
      intros [kz z] Hz. specialize (Hall _ Hz). specialize (Hrest _ Hz).
      cbn [key_lt fst mbind option_bind] in *.
      destruct (Tri kz kx Hrest Hkx) as [[M1 M2]|[[M1 M2]|(M1 & M2 & _)]];
        [|exact M1|exact M1].
      rewrite (Trans kz kx ky Hrest Hkx Hky M1 L2) in Hall. discriminate.
    + subst kx. exists ((ky, x) :: (ky, y) :: rest).
      split; [reflexivity|]. split; [reflexivity|].
      constructor; [|constructor; assumption].
      constructor; [exact L1|exact Hall].
Qed.

Lemma sort_keyed_spec {A} (K : list (list elem)) (l : list (list elem * A)) :
  total_order K -> Forall (fun p => In (fst p) K) l ->
  exists r, sort_keyed l = Some r /\ r ≡ₚ l /\ ordered by_fst r.
Proof.
  intros HK Hl. induction Hl as [|[k x] rest Hk Hrest IH].
  - exists []. split; [reflexivity|]. split; [reflexivity|constructor].
  - destruct IH as (r & Hr & Hp & Ho). cbn [sort_keyed]. rewrite Hr.
    cbn [mbind option_bind].
    destruct (insert_sorted_spec K k x r HK Hk) as (r' & Hr' & Hp' & Ho').
    { rewrite Hp. exact Hrest. }
    { exact Ho. }
    exists r'. split; [exact Hr'|]. split; [|exact Ho'].
    rewrite Hp', Hp. reflexivity.
Qed.

Lemma mapM_zip {A} (key : A -> option (list elem)) l :
  forall keys, mapM key l = Some keys ->
    map snd (zip keys l) = l /\
    Forall (fun p => key (snd p) = Some (fst p) /\ In (fst p) keys)
      (zip keys l).
Proof.
  induction l as [|x l IH]; intros keys.
  - intros [= <-]. split; [reflexivity|constructor].
  - cbn [mapM]. destruct (key x) as [k|] eqn:Ek; [|discriminate].
    cbn [mbind option_bind].
    destruct (mapM key l) as [ks|]; [|discriminate].
    intros [= <-]. destruct (IH ks eq_refl) as [E F].
    cbn [zip zip_with map snd]. rewrite E. split; [reflexivity|].
    constructor; [split; [exact Ek|left; reflexivity]|].
    eapply Forall_impl; [exact F|]. intros p [H1 H2].
    split; [exact H1|right; exact H2].
Qed.

Lemma ordered_snd {A} (key : A -> option (list elem))
    (r : list (list elem * A)) :
  Forall (fun p => key (snd p) = Some (fst p)) r ->
  ordered by_fst r -> ordered key (map snd r).
Proof.
  intros Hk Hord. induction Hord as [|[k x] rest Hall Hord IH].
  - constructor.
  - apply Forall_cons in Hk as [Hx Hrest]. cbn [map snd fst] in *.
    constructor; [|exact (IH Hrest)].
    apply Forall_map. rewrite Forall_forall in Hall, Hrest |- *.
    intros [kz z] Hz. specialize (Hall _ Hz). specialize (Hrest _ Hz).
    cbn [key_lt fst snd mbind option_bind] in *.
    unfold key_lt. rewrite Hrest, Hx. exact Hall.
Qed.

Lemma python_ok_cpython : python_ok cpython.
Proof.
  split.
  - intros A key l E. cbn [sorted cpython]. unfold insertion_sorted.
    rewrite E. reflexivity.
  - intros A key l keys E HK. cbn [sorted cpython]. unfold insertion_sorted.
    rewrite E. cbn [mbind option_bind].
    destruct (mapM_zip key l keys E) as [Hsnd Hz].
    destruct (sort_keyed_spec keys (zip keys l) HK) as (r & -> & Hp & Ho).
    { eapply Forall_impl; [exact Hz|]. intros p [_ Hin]. exact Hin. }
    exists (map snd r). split; [reflexivity|]. split.
    + transitivity (map snd (zip keys l)); [apply Permutation_map, Hp|].
      rewrite Hsnd. reflexivity.
    + apply ordered_snd; [|exact Ho].
      rewrite Hp. eapply Forall_impl; [exact Hz|]. intros p [Hk _]. exact Hk.
Qed.

(** *** [_add_images] *)

Lemma keys_defined {A} (key : A -> option (list elem)) l :
  Forall (fun x => exists k, key x = Some k /\ alternating true k = true) l ->
  exists keys, mapM key l = Some keys /\
               Forall (fun k => alternating true k = true) keys.
Proof.
  induction 1 as [|x l (k & Hk & Ha) _ (keys & Hkeys & Hall)].
  - exists []. split; [reflexivity|constructor].
  - exists (k :: keys). cbn [mapM]. rewrite Hk, Hkeys.
    split; [reflexivity|constructor; assumption].
Qed.

Lemma alternating_total_order keys :
  Forall (fun k => alternating true k = true) keys -> total_order keys.
Proof.
  intros Hall. rewrite Forall_forall in Hall. split.
  - intros k1 k2 H1 H2. apply (alternating_trichotomy k1 true k2).
    + apply Hall, list_elem_of_In, H1.
    + apply Hall, list_elem_of_In, H2.
  - intros k1 k2 k3 H1 H2 H3.
    apply (alternating_trans k1 true k2 k3); apply Hall, list_elem_of_In;
      assumption.
Qed.

Section WithLibraries.
Context `{P : Pillow} `{Py : Python} {pdf : Type}.

Lemma filepath_imap (fs : gmap string (file pdf)) l :
  forall uuid4 : nat -> string,
    map img_filepath
      (imap (fun i filepath => new_entry fs (uuid4 i) filepath) l) = l.
Proof.
  induction l as [|p l IH]; intros uuid4; [reflexivity|].
  cbn [imap map]. f_equal. apply (IH (uuid4 ∘ S)).
Qed.

Lemma entries_imap (fs : gmap string (file pdf)) l :
  forall (uuid4 : nat -> string) i e,
    imap (fun i filepath => new_entry fs (uuid4 i) filepath) l !! i = Some e ->
    exists filepath, l !! i = Some filepath /\
                     e = new_entry fs (uuid4 i) filepath.
Proof.
  induction l as [|p l IH]; intros uuid4 i e; [destruct i; discriminate|].
  cbn [imap]. destruct i as [|i].
  - intros [= <-]. exists p. split; reflexivity.
  - intros Hl. apply (IH (uuid4 ∘ S) i e Hl).
Qed.


(** X24.  One name can block a batch: when the key of the base name of
    one of the paths raises, [_add_images] raises and nothing is added. *)
Theorem bad_name_blocks_the_batch (OK : python_ok Py)
    (fs : gmap string (file pdf)) (uuid4 : nat -> string) images filepaths
    filepath :
  In filepath filepaths ->
  natural_sort_key (basename filepath) = None ->
  _add_images fs uuid4 images filepaths = None.
Proof.
  intros Hin Hkey. unfold _add_images.
  rewrite (sorted_raises Py OK string _ filepaths); [reflexivity|].
  exact (mapM_raises _ filepath filepaths Hin Hkey).
Qed.

End WithLibraries.

Import Reference ReferenceFacts Samples.
#[local] Existing Instance pillow.
#[local] Existing Instance cpython.


Lemma bad_name_blocks_the_batch_witness :
  _add_images sample_files (fun i => pretty i) [entry "a"]
    ["in/page2.png"; "in/1" +:+ String "178" "" +:+ "3.png"] = None.
Proof.
  apply (bad_name_blocks_the_batch python_ok_cpython sample_files
           (fun i => pretty i) [entry "a"]
           ["in/page2.png"; "in/1" +:+ String "178" "" +:+ "3.png"]%string
           ("in/1" +:+ String "178" "" +:+ "3.png")).
  - right. left. reflexivity.
  - vm_compute. reflexivity.
Defined.

End AddFacts.
